(** * handwritten-grading-ocr: aggregation, trimmed-mean scoring, CSV emission

    A shallow embedding of the pure cores of the repository,

    - [calculate_final_scores.py]  (modules [Scorer], [FinalScores] and
      [Doubles]),
    - [src/data_aggregator.py]     (modules [Aggregator] and [Ordered]),
    - [src/csv_writer.py]          (module [CsvWriter]),
    - [main.py], from the OCR results on (module [Main]),
    - the fences taken off a reply in [src/ocr_extractor.py] and
      [src/privacy_ocr_extractor.py] (module [Reply]),
    - the rectangles of [src/mask_processor.py] (module [Mask]),

    followed by the properties proved about them.  Logging calls are left
    out: they neither read nor change the data the properties speak of. *)

From Stdlib Require Import ZArith QArith Qround Qminmax Qabs Lqa Floats.
From Stdlib Require Import Permutation Sorted.
From stdpp Require Import gmap strings list fin_maps pretty sorting.

(* ===================================================================== *)
(** * Part I.  The embedding                                              *)
(* ===================================================================== *)

(** ** Python values shared by the three modules *)

Module Py.

(** The exceptions the modelled code can raise. *)
Inductive exn : Type :=
| ZeroDivisionError
| ValueError
| OverflowError.

(** A computation either returns or raises. *)
Inductive result (T : Type) : Type :=
| Ok (v : T)
| Raise (e : exn).
Arguments Ok {T} v.
Arguments Raise {T} e.

Definition bind {T U : Type} (r : result T) (k : T -> result U) : result U :=
  match r with
  | Ok v => k v
  | Raise e => Raise e
  end.

(** [int(x)]: truncation toward zero. *)
Definition py_int (x : Q) : Z := Z.quot (Qnum x) (Zpos (Qden x)).

(** [round(x)] on an exact value: the nearest integer, an exact half going
    to the even neighbour (the rule of Python 3's built-in [round]). *)
Definition round_half_even (x : Q) : Z :=
  let f := Qfloor x in
  match Qcompare (x - inject_Z f) (1 # 2) with
  | Lt => f
  | Gt => (f + 1)%Z
  | Eq => if Z.even f then f else (f + 1)%Z
  end.

(** [l[start:stop]] for indices already resolved against [len(l)]. *)
Definition py_slice {T : Type} (l : list T) (start stop : nat) : list T :=
  drop start (take stop l).

(** ** Arithmetic of Python [float]

    The code computes on binary64 floats.  Every numeric function below is
    written once, over an interface of the operations it uses, and read in
    two ways: [exact] (the rationals the floats denote, no rounding) and
    [binary64] (IEEE 754 doubles, Rocq's primitive floats; with
    [binary64_compensated] for the [sum] of CPython 3.12 and later). *)

Record Arith : Type := {
  num : Type;
  num_zero : num;                       (* 0.0, and int 0 promoted *)
  num_of_nat : nat -> num;              (* promotion of a non-negative int *)
  num_sum : list num -> num;            (* sum(l) *)
  num_mul : num -> num -> num;
  num_div : num -> num -> num;          (* divisor known to be non-zero *)
  num_lt : num -> num -> bool;          (* x < y *)
  num_round : num -> result Z;          (* round(x) *)
  num_round_ndigits : num -> nat -> num (* round(x, ndigits) *)
}.

Definition pow10 (nd : nat) : Q := inject_Z (10 ^ Z.of_nat nd).

Definition exact : Arith := {|
  num := Q;
  num_zero := 0%Q;
  num_of_nat := fun n => inject_Z (Z.of_nat n);
  num_sum := fun l => fold_left Qplus l 0%Q;
  num_mul := Qmult;
  num_div := Qdiv;
  num_lt := fun x y => negb (Qle_bool y x);
  num_round := fun x => Ok (round_half_even x);
  num_round_ndigits := fun x nd =>
    (inject_Z (round_half_even (x * pow10 nd)) / pow10 nd)%Q
|}.

(** The rational a finite double denotes. *)
Definition f64_value (x : float) : option Q :=
  match Prim2SF x with
  | S754_zero _ => Some 0%Q
  | S754_finite s m e =>
      let v := (inject_Z (Zpos m) * Qpower 2 e)%Q in
      Some (if s then (- v)%Q else v)
  | S754_infinity _ => None
  | S754_nan => None
  end.

(** A non-negative int below 2^63 as a double (exact below 2^53). *)
Definition f64_of_nat (n : nat) : float :=
  PrimFloat.of_uint63 (Uint63.of_Z (Z.of_nat n)).

Definition f64_of_Z (z : Z) : float :=
  let a := PrimFloat.of_uint63 (Uint63.of_Z (Z.abs z)) in
  if (z <? 0)%Z then PrimFloat.opp a else a.

(** [round(x)] of a double: exact round-half-even of its value; NaN and the
    infinities raise. *)
Definition f64_round (x : float) : result Z :=
  match Prim2SF x with
  | S754_nan => Raise ValueError
  | S754_infinity _ => Raise OverflowError
  | _ => Ok (round_half_even (default 0%Q (f64_value x)))
  end.

(** [round(x, ndigits)] of a double: the double nearest to the decimal that
    is the round-half-even of its exact value; NaN and the infinities are
    returned unchanged. *)
Definition f64_round_ndigits (x : float) (nd : nat) : float :=
  match f64_value x with
  | Some v =>
      PrimFloat.div (f64_of_Z (round_half_even (v * pow10 nd)))
                    (f64_of_Z (10 ^ Z.of_nat nd))
  | None => x
  end.

(** [sum] of doubles as CPython computes it up to version 3.11: from int 0,
    adding from the left. *)
Definition f64_sum (l : list float) : float :=
  fold_left PrimFloat.add l 0%float.

(** [sum] of doubles from CPython 3.12 on: the same additions, with
    Neumaier's running compensation [c], which is added at the end when it
    is finite and not zero. *)
Definition f64_compensated_step (acc : float * float) (x : float) : float * float :=
  let '(f_result, c) := acc in
  let t := PrimFloat.add f_result x in
  if PrimFloat.leb (PrimFloat.abs x) (PrimFloat.abs f_result)
  then (t, PrimFloat.add c (PrimFloat.add (PrimFloat.sub f_result t) x))
  else (t, PrimFloat.add c (PrimFloat.add (PrimFloat.sub x t) f_result)).

Definition f64_sum_compensated (l : list float) : float :=
  let '(f_result, c) := fold_left f64_compensated_step l (0%float, 0%float) in
  if negb (PrimFloat.is_zero c) && PrimFloat.is_finite c
  then PrimFloat.add f_result c
  else f_result.

Definition binary64 : Arith := {|
  num := float;
  num_zero := 0%float;
  num_of_nat := f64_of_nat;
  num_sum := f64_sum;
  num_mul := PrimFloat.mul;
  num_div := PrimFloat.div;
  num_lt := PrimFloat.ltb;
  num_round := f64_round;
  num_round_ndigits := f64_round_ndigits
|}.

Definition binary64_compensated : Arith := {|
  num := float;
  num_zero := 0%float;
  num_of_nat := f64_of_nat;
  num_sum := f64_sum_compensated;
  num_mul := PrimFloat.mul;
  num_div := PrimFloat.div;
  num_lt := PrimFloat.ltb;
  num_round := f64_round;
  num_round_ndigits := f64_round_ndigits
|}.

(** The double written [0.1], and its successor, printed
    [0.10000000000000002]. *)
Definition f64_one_tenth : float := 0x1.999999999999ap-4%float.


(** Whole scores on the sheet, as the doubles [float("7")] gives. *)
Definition int_scores (l : list Z) : list float := f64_of_Z <$> l.

(** [f z && f (z + 1) && ...] over [n] consecutive integers: the
    enumerations the binary64 facts on whole scores are checked by. *)
Fixpoint all_from (n : nat) (z : Z) (f : Z -> bool) : bool :=
  match n with
  | O => true
  | S n' => f z && all_from n' (z + 1)%Z f
  end.

(** The largest score, and the largest number of scores per student, the
    enumerations cover. *)
Definition max_score : Z := 10.
Definition max_graders : nat := 200.

(** The sum of whole scores. *)
Definition zsum (l : list Z) : Z := foldr Z.add 0%Z l.

Section Generic.
Context (A : Arith).

(** [x / n] for a number [x] and an int [n >= 0]. *)
Definition py_truediv (x : num A) (n : nat) : result (num A) :=
  match n with
  | O => Raise ZeroDivisionError
  | S _ => Ok (num_div A x (num_of_nat A n))
  end.

(** [sorted(l)]: ascending by [<], equal elements keep their order.  This is
    the list a stable sort returns when [<] orders the elements, as it does
    on rationals and on doubles without a NaN ([Doubles.ordered_by_lt]).  A
    NaN compares false with every number, and where CPython's merge sort
    leaves one among other numbers is not modelled: the statements that
    depend on the order of doubles exclude NaN. *)
Fixpoint insert (x : num A) (l : list (num A)) : list (num A) :=
  match l with
  | [] => [x]
  | y :: l' => if num_lt A y x then y :: insert x l' else x :: y :: l'
  end.

Definition sorted (l : list (num A)) : list (num A) := foldr insert [] l.



(** The arithmetic mean of a non-empty list, in the vocabulary of the
    statements: the sum over the number of elements. *)
Definition mean (l : list (num A)) : num A :=
  num_div A (num_sum A l) (num_of_nat A (length l)).

End Generic.

End Py.

Export Py.

(** ** calculate_final_scores.py *)

Module Scorer.

Section Scorer.
Context (A : Arith).

(** [calculate_trimmed_mean(scores, trim_percent)].

    [trim_percent] is the rational the argument denotes, and
    [int(n * trim_percent)] is taken on the exact product.  The code takes
    it on the product of doubles ([Doubles.trim_count_binary64]): that is
    the same count at the default 0.10 and at 0.0, 0.5 and 1.0 (lemma
    [trim_count_binary64_agrees], for every length up to
    [Doubles.max_cells]) and can be one less at other fractions, 100 * 0.29
    being 28.999999999999996.  The statements on doubles take the function
    at one of these fractions, or hold whatever the count is. *)
Definition calculate_trimmed_mean
    (scores : list (num A)) (trim_percent : Q) : result (num A) :=
  match scores with
  | [] => Ok (num_zero A)
  | _ :: _ =>
      let sorted_scores := sorted A scores in
      let n := length sorted_scores in
      let trim_count := py_int (inject_Z (Z.of_nat n) * trim_percent) in
      let trimmed_scores :=
        if (0 <? trim_count)%Z
        then py_slice sorted_scores (Z.to_nat trim_count) (n - Z.to_nat trim_count)
        else sorted_scores in
      let trimmed_scores :=
        match trimmed_scores with
        | [] => sorted_scores
        | _ :: _ => trimmed_scores
        end in
      py_truediv A (num_sum A trimmed_scores) (length trimmed_scores)
  end.

(** The default of the parameter [trim_percent]. *)
Definition default_trim_percent : Q := 1 # 10.

(** [process_csv], lines 77-81: the final score of one row's scores,
    [round(calculate_trimmed_mean(scores) * 10)]. *)
Definition final_score (scores : list (num A)) : result Z :=
  bind (calculate_trimmed_mean scores default_trim_percent) (fun trimmed_mean =>
  num_round A (num_mul A trimmed_mean (num_of_nat A 10))).

End Scorer.

End Scorer.

(** ** src/data_aggregator.py *)

Module Aggregator.

(** One element of [data['scores']]; each key is read with [.get], so a
    missing key and a JSON [null] both read as [None]. *)
Record ScoreData : Type := {
  sd_student_id : option string;
  sd_order : option Z;
  sd_name : option string;
  sd_score : option Z
}.

(** One OCR result: [success] is [ocr_result.get('success', False)] and
    [data_scores] is [data.get('scores', [])]. *)
Record OcrResult : Type := {
  success : bool;
  file_name : string;
  data_scores : list ScoreData
}.

(** One element of [master_list['students']]. *)
Record Student : Type := {
  st_order : Z;
  st_student_id : string;
  st_name : string
}.

(** The [master_list] dict: its ['students'] entry when present, and how
    many other keys it holds (a dict is falsy exactly when it is empty). *)
Record MasterList : Type := {
  students : option (list Student);
  other_keys : nat
}.

Definition truthy (master_list : option MasterList) : bool :=
  match master_list with
  | None => false
  | Some ml => bool_decide (is_Some (students ml)) || negb (other_keys ml =? 0)%nat
  end.

(** One value of [student_scores]. *)
Record StudentInfo : Type := {
  order : option Z;
  name : option string;
  scores : list (option Z)
}.

(** The key of [student_scores]: a student id, an ["order_N"] string, or
    Python's [None]. *)
Abbreviation Key := (option string).

Record DataAggregator : Type := {
  student_scores : gmap Key StudentInfo;
  processed_files : list string;
  has_master_list : bool
}.

(** The [defaultdict] factory. *)
Definition default_factory : StudentInfo :=
  {| order := None; name := None; scores := [] |}.

(** [d[key]] on the defaultdict: the value, and the dict with the default
    entry added when the key was missing. *)
Definition getitem (key : Key) (d : gmap Key StudentInfo)
    : StudentInfo * gmap Key StudentInfo :=
  match d !! key with
  | Some info => (info, d)
  | None => (default_factory, <[key := default_factory]> d)
  end.

(** [d[key]['order'] = v] *)
Definition set_order (key : Key) (v : option Z) (d : gmap Key StudentInfo)
    : gmap Key StudentInfo :=
  let '(info, d) := getitem key d in
  <[key := {| order := v; name := name info; scores := scores info |}]> d.

(** [d[key]['name'] = v] *)
Definition set_name (key : Key) (v : option string) (d : gmap Key StudentInfo)
    : gmap Key StudentInfo :=
  let '(info, d) := getitem key d in
  <[key := {| order := order info; name := v; scores := scores info |}]> d.

(** [d[key]['scores'].append(v)] *)
Definition append_score (key : Key) (v : option Z) (d : gmap Key StudentInfo)
    : gmap Key StudentInfo :=
  let '(info, d) := getitem key d in
  <[key := {| order := order info; name := name info; scores := scores info ++ [v] |}]> d.

(** [if d[key]['order'] is None: d[key]['order'] = o; d[key]['name'] = n] *)
Definition record_first (key : Key) (o : option Z) (n : option string)
    (d : gmap Key StudentInfo) : gmap Key StudentInfo :=
  let '(info, d) := getitem key d in
  match order info with
  | None => set_name key n (set_order key o d)
  | Some _ => d
  end.

(** [f"order_{order}"] *)
Definition order_key (o : Z) : Key := Some ("order_" +:+ pretty o).

(** The loop state of [add_ocr_result]: the dict and the two counters. *)
Record Loop : Type := {
  dict : gmap Key StudentInfo;
  matched_count : nat;
  unmatched_count : nat
}.

(** The body of the loop over [data['scores']] (lines 86-119). *)
Definition loop_body (scores_only hml : bool) (st : Loop) (score_data : ScoreData)
    : Loop :=
  let d := dict st in
  let student_id := sd_student_id score_data in
  match student_id, sd_order score_data with
  | None, Some o =>
      let key := order_key o in
      let d := record_first key (Some o) None d in
      let d := append_score key (sd_score score_data) d in
      {| dict := d; matched_count := S (matched_count st);
         unmatched_count := unmatched_count st |}
  | _, _ =>
      if scores_only && hml then
        if bool_decide (is_Some (d !! student_id)) then
          let d := append_score student_id (sd_score score_data) d in
          {| dict := d; matched_count := S (matched_count st);
             unmatched_count := unmatched_count st |}
        else
          {| dict := d; matched_count := matched_count st;
             unmatched_count := S (unmatched_count st) |}
      else
        let d := record_first student_id (sd_order score_data) (sd_name score_data) d in
        let d := append_score student_id (sd_score score_data) d in
        {| dict := d; matched_count := S (matched_count st);
           unmatched_count := unmatched_count st |}
  end.

(** The whole loop, from both counters at zero. *)
Definition merge_scores (scores_only hml : bool) (d : gmap Key StudentInfo)
    (l : list ScoreData) : Loop :=
  fold_left (loop_body scores_only hml) l
    {| dict := d; matched_count := 0; unmatched_count := 0 |}.

(** The body of the loop of [_load_master_list] (lines 48-51). *)
Definition load_student (d : gmap Key StudentInfo) (student : Student)
    : gmap Key StudentInfo :=
  let student_id := Some (st_student_id student) in
  let d := set_order student_id (Some (st_order student)) d in
  set_name student_id (Some (st_name student)) d.

(** [_load_master_list(self, master_list)] *)
Definition _load_master_list (self : DataAggregator) (master_list : MasterList)
    : DataAggregator :=
  let students := default [] (students master_list) in
  let d := fold_left load_student students (student_scores self) in
  {| student_scores := d;
     processed_files := processed_files self;
     has_master_list := true |}.

(** [DataAggregator(master_list)] *)
Definition __init__ (master_list : option MasterList) : DataAggregator :=
  let self :=
    {| student_scores := ∅; processed_files := []; has_master_list := false |} in
  match master_list with
  | Some ml => if truthy master_list then _load_master_list self ml else self
  | None => self
  end.

(** [add_ocr_result(self, ocr_result, scores_only)]: the aggregator after the
    call and the returned flag. *)
Definition add_ocr_result (self : DataAggregator) (ocr_result : OcrResult)
    (scores_only : option bool) : DataAggregator * bool :=
  if negb (success ocr_result) then (self, false)
  else
    let scores_only := default (has_master_list self) scores_only in
    let st := merge_scores scores_only (has_master_list self)
                (student_scores self) (data_scores ocr_result) in
    ({| student_scores := dict st;
        processed_files := processed_files self ++ [file_name ocr_result];
        has_master_list := has_master_list self |}, true).

(** [batch_add_results(self, ocr_results)]: the aggregator after the call and
    the returned [success_count]. *)
Definition batch_add_results (self : DataAggregator) (ocr_results : list OcrResult)
    : DataAggregator * nat :=
  fold_left (fun '(self, success_count) result =>
               let '(self, ok) := add_ocr_result self result None in
               (self, if ok then S success_count else success_count))
            ocr_results (self, 0).

(** [clear(self)] *)
Definition clear (self : DataAggregator) : DataAggregator :=
  {| student_scores := ∅;
     processed_files := [];
     has_master_list := has_master_list self |}.

(** The dict [get_statistics] returns; [stat_processed_files] is [None] when
    the key is absent (the early return). *)
Record Stats (N : Type) : Type := {
  total_students : nat;
  total_files : nat;
  avg_scores_per_student : N;
  students_with_all_scores : nat;
  stat_processed_files : option (list string)
}.
Arguments total_students {N} _.
Arguments total_files {N} _.
Arguments avg_scores_per_student {N} _.
Arguments students_with_all_scores {N} _.
Arguments stat_processed_files {N} _.

(** [get_statistics(self)].  The values of the dict are visited in the
    order [map_to_list] gives; the sum and the count taken over them do not
    depend on it. *)
Definition get_statistics (A : Arith) (self : DataAggregator)
    : result (Stats (num A)) :=
  let total_students := size (student_scores self) in
  let total_files := length (processed_files self) in
  if (total_students =? 0)%nat then
    Ok {| total_students := 0; total_files := 0;
          avg_scores_per_student := num_zero A;
          students_with_all_scores := 0;
          stat_processed_files := None |}
  else
    let score_counts :=
      (fun kv => length (scores kv.2)) <$> map_to_list (student_scores self) in
    bind (py_truediv A (num_of_nat A (sum_list score_counts)) (length score_counts))
      (fun avg_scores =>
    let students_with_all :=
      length (filter (fun count => count = total_files) score_counts) in
    Ok {| total_students := total_students; total_files := total_files;
          avg_scores_per_student := num_round_ndigits A avg_scores 2;
          students_with_all_scores := students_with_all;
          stat_processed_files := Some (processed_files self) |}).

(** *** Vocabulary of the statements *)

(** A privacy-mode observation: no student id, but an order. *)
Definition is_privacy (score_data : ScoreData) : bool :=
  match sd_student_id score_data, sd_order score_data with
  | None, Some _ => true
  | _, _ => false
  end.

(** The keys a master list seeds. *)
Definition roster (master_list : MasterList) : list Student :=
  default [] (students master_list).

Definition roster_keys (master_list : MasterList) : gset Key :=
  list_to_set ((fun student => Some (st_student_id student)) <$> roster master_list).

(** The observations of the successfully merged documents, in merge order. *)
Definition merged_observations (ocr_results : list OcrResult) : list ScoreData :=
  mjoin (data_scores <$> filter (fun r => success r = true) ocr_results).

(** The scores a list of observations carries under one student id. *)
Definition observations_of (key : Key) (l : list ScoreData) : list (option Z) :=
  sd_score <$> filter (fun score_data => sd_student_id score_data = key) l.

(** What [d[key]] reads, the default for a missing key. *)
Definition entry (d : gmap Key StudentInfo) (key : Key) : StudentInfo :=
  default default_factory (d !! key).

(** An entity with further observations appended. *)
Definition extend (vs : list (option Z)) (info : StudentInfo) : StudentInfo :=
  {| order := order info; name := name info; scores := scores info ++ vs |}.

(** [key] is the ["order_N"] key of a privacy-mode observation of [l]. *)
Definition privacy_key_of (l : list ScoreData) (key : Key) : Prop :=
  ∃ score_data o,
    score_data ∈ l ∧ sd_student_id score_data = None
    ∧ sd_order score_data = Some o ∧ key = order_key o.

(** The aggregator a batch leaves behind. *)
Definition merged (self : DataAggregator) (ocr_results : list OcrResult)
    : DataAggregator :=
  (batch_add_results self ocr_results).1.

End Aggregator.

(** ** src/csv_writer.py *)

Module CsvWriter.

(** One element of [data], as [get_aggregated_data] builds it. *)
Record StudentRow : Type := {
  order : option Z;
  student_id : option string;
  name : option string;
  scores : list (option Z)
}.

(** A value handed to [csv.writer.writerow]. *)
Inductive Cell : Type :=
| CNone
| CInt (z : Z)
| CStr (s : string).

(** The text [csv.writer] puts in the field: [None] gives the empty field,
    any other value its [str()]. *)
Definition csv_field (c : Cell) : string :=
  match c with
  | CNone => ""
  | CInt z => pretty z
  | CStr s => s
  end.

Definition cell_of_int (v : option Z) : Cell :=
  match v with
  | Some z => CInt z
  | None => CNone
  end.

Definition cell_of_str (v : option string) : Cell :=
  match v with
  | Some s => CStr s
  | None => CNone
  end.

(** [s if s is not None else ''] *)
Definition score_cell (s : option Z) : Cell :=
  match s with
  | Some z => CInt z
  | None => CStr ""
  end.

(** [max(len(student['scores']) for student in data)], on non-empty [data]. *)
Definition max_scores (data : list StudentRow) : nat :=
  max_list_with (fun student => length (scores student)) data.

(** The header row (lines 49-50). *)
Definition headers (score_column_prefix : string) (max_scores : nat) : list Cell :=
  [CStr "報告順序"; CStr "學號"; CStr "姓名"]
  ++ ((fun i => CStr (score_column_prefix +:+ pretty (i + 1)%nat)) <$> seq 0 max_scores).

(** One student's row (lines 61-73). *)
Definition student_row (max_scores : nat) (student : StudentRow) : list Cell :=
  let row := [cell_of_int (order student);
              cell_of_str (student_id student);
              cell_of_str (name student)] in
  let scores := scores student in
  let row := row ++ (score_cell <$> scores) in
  if (length scores <? max_scores)%nat
  then row ++ replicate (max_scores - length scores) (CStr "")
  else row.

(** [write(self, data, score_column_prefix)]: the returned flag, and the rows
    written to the output file ([None] when the file is not opened).  The
    file system is taken to accept the writes. *)
Definition write (data : list StudentRow) (score_column_prefix : string)
    : bool * option (list (list Cell)) :=
  match data with
  | [] => (false, None)
  | _ :: _ =>
      let max_scores := max_scores data in
      (true, Some (headers score_column_prefix max_scores
                   :: (student_row max_scores <$> data)))
  end.

(** The default of the parameter [score_column_prefix]. *)
Definition default_prefix : string := "評分".

End CsvWriter.

(** ** Sample inputs *)

Module Inputs.
Import Aggregator.
Open Scope Z_scope.

Definition observation (student_id : option string) (order : option Z)
    (name : option string) (score : option Z) : ScoreData :=
  {| sd_student_id := student_id; sd_order := order;
     sd_name := name; sd_score := score |}.

Definition sheet (file_name : string) (l : list ScoreData) : OcrResult :=
  {| success := true; file_name := file_name; data_scores := l |}.

(** A roster of one student, ["A"]. *)
Definition roster_A : MasterList :=
  {| students := Some [ {| st_order := 1; st_student_id := "A"; st_name := "Ann" |} ];
     other_keys := 0 |}.

(** Two sheets with student ids; ["B"] is on no roster. *)
Definition sheet_1 : OcrResult :=
  sheet "sheet1.pdf"
    [ observation (Some "A") (Some 1) (Some "Ann") (Some 7);
      observation (Some "B") (Some 2) (Some "Bob") (Some 6) ].

Definition sheet_2 : OcrResult :=
  sheet "sheet2.pdf" [ observation (Some "A") (Some 1) (Some "Ann") (Some 8) ].

(** A privacy-mode sheet: order and score only. *)
Definition privacy_sheet : OcrResult :=
  sheet "masked.pdf" [ observation None (Some 2) None (Some 5) ].

(** An observation with neither student id nor order. *)
Definition anonymous : ScoreData := observation None None (Some "Zed") (Some 5).

(** A student whose first observation has no order. *)
Definition late_order_sheet : OcrResult :=
  sheet "sheet3.pdf"
    [ observation (Some "A") None (Some "Ann") (Some 1);
      observation (Some "A") (Some 5) (Some "Amy") (Some 2) ].

(** A privacy-mode observation followed by a student id that spells its key. *)
Definition colliding_sheet : OcrResult :=
  sheet "sheet4.pdf"
    [ observation None (Some 3) None (Some 5);
      observation (Some "order_3") (Some 3) (Some "Eve") (Some 6) ].

End Inputs.

(** ** Further Python values *)

Module PyExt.

(** The exceptions of the code below; those of the arithmetic come
    wrapped. *)
Inductive error : Type :=
| TypeError
| IndexError
| StopIteration
| Builtin (e : exn).

Inductive outcome (T : Type) : Type :=
| Return (v : T)
| Throw (e : error).
Arguments Return {T} v.
Arguments Throw {T} e.

Definition and_then {T U : Type} (r : outcome T) (k : T -> outcome U) : outcome U :=
  match r with
  | Return v => k v
  | Throw e => Throw e
  end.

Definition lift {T : Type} (r : result T) : outcome T :=
  match r with
  | Ok v => Return v
  | Raise e => Throw (Builtin e)
  end.

(** [a < b] on values that are an [int] or [None]: a comparison with [None]
    raises TypeError. *)
Definition lt_int_or_none (a b : option Z) : outcome bool :=
  match a, b with
  | Some x, Some y => Return (x <? y)%Z
  | _, _ => Throw TypeError
  end.

(** [a <= b] on the keys, which holds between ints only. *)
Definition key_le (a b : option Z) : Prop :=
  match a, b with
  | Some x, Some y => (x <= y)%Z
  | _, _ => False
  end.

(** [l.sort(key=key)]: stable, ascending by [<] on the keys.  The model
    inserts from the right; CPython's merge sort makes other comparisons,
    but like it this one compares every element of a list of two or more
    at least once, and returns the one stable ascending arrangement. *)
Section Sort.
Context {T : Type} (key : T -> option Z).

Fixpoint insert_by (x : T) (l : list T) : outcome (list T) :=
  match l with
  | [] => Return [x]
  | y :: l' =>
      and_then (lt_int_or_none (key y) (key x)) (fun below =>
      if below
      then and_then (insert_by x l') (fun r => Return (y :: r))
      else Return (x :: y :: l'))
  end.

Definition sort_by (l : list T) : outcome (list T) :=
  foldr (fun x r => and_then r (insert_by x)) (Return []) l.

End Sort.

End PyExt.

Export PyExt.

(** ** src/data_aggregator.py, with the dict in iteration order

    [get_aggregated_data] walks [student_scores.items()], so the order in
    which keys were first stored matters to it.  Here the dict is the list
    of its items in that order; the loop is the same as in [Aggregator]. *)

Module Ordered.
Import Aggregator.

Definition Items : Type := list (Key * StudentInfo).

Record DataAggregator : Type := {
  student_scores : Items;
  processed_files : list string;
  has_master_list : bool
}.

(** [d.get(key)] *)
Fixpoint lookup (key : Key) (d : Items) : option StudentInfo :=
  match d with
  | [] => None
  | (k, info) :: d' => if decide (k = key) then Some info else lookup key d'
  end.

(** [d[key] = info]: in place when the key is present, at the end when it
    is new. *)
Fixpoint setitem (key : Key) (info : StudentInfo) (d : Items) : Items :=
  match d with
  | [] => [(key, info)]
  | (k, old) :: d' =>
      if decide (k = key) then (k, info) :: d' else (k, old) :: setitem key info d'
  end.

Definition getitem (key : Key) (d : Items) : StudentInfo * Items :=
  match lookup key d with
  | Some info => (info, d)
  | None => (default_factory, setitem key default_factory d)
  end.

Definition set_order (key : Key) (v : option Z) (d : Items) : Items :=
  let '(info, d) := getitem key d in
  setitem key {| order := v; name := name info; scores := scores info |} d.

Definition set_name (key : Key) (v : option string) (d : Items) : Items :=
  let '(info, d) := getitem key d in
  setitem key {| order := order info; name := v; scores := scores info |} d.

Definition append_score (key : Key) (v : option Z) (d : Items) : Items :=
  let '(info, d) := getitem key d in
  setitem key {| order := order info; name := name info; scores := scores info ++ [v] |} d.

Definition record_first (key : Key) (o : option Z) (n : option string) (d : Items)
    : Items :=
  let '(info, d) := getitem key d in
  match order info with
  | None => set_name key n (set_order key o d)
  | Some _ => d
  end.

Record Loop : Type := {
  dict : Items;
  matched_count : nat;
  unmatched_count : nat
}.

(** The body of the loop over [data['scores']] (lines 86-119). *)
Definition loop_body (scores_only hml : bool) (st : Loop) (score_data : ScoreData)
    : Loop :=
  let d := dict st in
  let student_id := sd_student_id score_data in
  match student_id, sd_order score_data with
  | None, Some o =>
      let key := order_key o in
      let d := record_first key (Some o) None d in
      let d := append_score key (sd_score score_data) d in
      {| dict := d; matched_count := S (matched_count st);
         unmatched_count := unmatched_count st |}
  | _, _ =>
      if scores_only && hml then
        if bool_decide (is_Some (lookup student_id d)) then
          let d := append_score student_id (sd_score score_data) d in
          {| dict := d; matched_count := S (matched_count st);
             unmatched_count := unmatched_count st |}
        else
          {| dict := d; matched_count := matched_count st;
             unmatched_count := S (unmatched_count st) |}
      else
        let d := record_first student_id (sd_order score_data) (sd_name score_data) d in
        let d := append_score student_id (sd_score score_data) d in
        {| dict := d; matched_count := S (matched_count st);
           unmatched_count := unmatched_count st |}
  end.

Definition merge_scores (scores_only hml : bool) (d : Items) (l : list ScoreData)
    : Loop :=
  fold_left (loop_body scores_only hml) l
    {| dict := d; matched_count := 0; unmatched_count := 0 |}.

Definition load_student (d : Items) (student : Student) : Items :=
  let student_id := Some (st_student_id student) in
  let d := set_order student_id (Some (st_order student)) d in
  set_name student_id (Some (st_name student)) d.

Definition _load_master_list (self : DataAggregator) (master_list : MasterList)
    : DataAggregator :=
  let students := default [] (students master_list) in
  let d := fold_left load_student students (student_scores self) in
  {| student_scores := d;
     processed_files := processed_files self;
     has_master_list := true |}.

Definition __init__ (master_list : option MasterList) : DataAggregator :=
  let self :=
    {| student_scores := []; processed_files := []; has_master_list := false |} in
  match master_list with
  | Some ml => if truthy master_list then _load_master_list self ml else self
  | None => self
  end.

Definition add_ocr_result (self : DataAggregator) (ocr_result : OcrResult)
    (scores_only : option bool) : DataAggregator * bool :=
  if negb (success ocr_result) then (self, false)
  else
    let scores_only := default (has_master_list self) scores_only in
    let st := merge_scores scores_only (has_master_list self)
                (student_scores self) (data_scores ocr_result) in
    ({| student_scores := dict st;
        processed_files := processed_files self ++ [file_name ocr_result];
        has_master_list := has_master_list self |}, true).

Definition batch_add_results (self : DataAggregator) (ocr_results : list OcrResult)
    : DataAggregator * nat :=
  fold_left (fun '(self, success_count) result =>
               let '(self, ok) := add_ocr_result self result None in
               (self, if ok then S success_count else success_count))
            ocr_results (self, 0).

(** One element of the list [get_aggregated_data] builds (lines 169-175). *)
Definition row (item : Key * StudentInfo) : CsvWriter.StudentRow :=
  {| CsvWriter.student_id := item.1;
     CsvWriter.order := order item.2;
     CsvWriter.name := name item.2;
     CsvWriter.scores := scores item.2 |}.

(** [get_aggregated_data(self, sort_by_order)] *)
Definition get_aggregated_data (self : DataAggregator) (sort_by_order : bool)
    : outcome (list CsvWriter.StudentRow) :=
  let data := row <$> student_scores self in
  if sort_by_order then sort_by CsvWriter.order data else Return data.

(** [aggregate_ocr_results(ocr_results, master_list)] *)
Definition aggregate_ocr_results (ocr_results : list OcrResult)
    (master_list : option MasterList) : DataAggregator :=
  let aggregator := __init__ master_list in
  (batch_add_results aggregator ocr_results).1.

(** *** Vocabulary of the statements *)

(** The dict without its order, as [Aggregator] holds it. *)
Definition to_map (d : Items) : gmap Key StudentInfo := list_to_map d.

Definition forget_loop (st : Loop) : Aggregator.Loop :=
  {| Aggregator.dict := to_map (dict st);
     Aggregator.matched_count := matched_count st;
     Aggregator.unmatched_count := unmatched_count st |}.

Definition forget (self : DataAggregator) : Aggregator.DataAggregator :=
  {| Aggregator.student_scores := to_map (student_scores self);
     Aggregator.processed_files := processed_files self;
     Aggregator.has_master_list := has_master_list self |}.

(** The key an observation is stored under when no roster is enforced. *)
Definition target_key (score_data : ScoreData) : Key :=
  match sd_student_id score_data, sd_order score_data with
  | None, Some o => order_key o
  | student_id, _ => student_id
  end.

(** The observations stored under [key], in merge order. *)
Definition observed (key : Key) (l : list ScoreData) : list ScoreData :=
  filter (fun score_data => target_key score_data = key) l.

(** The name stored with an observation: none in privacy mode. *)
Definition recorded_name (score_data : ScoreData) : option string :=
  if is_privacy score_data then None else sd_name score_data.

(** One observation merged into the entity it is stored under. *)
Definition absorb (info : StudentInfo) (score_data : ScoreData) : StudentInfo :=
  match order info with
  | None => {| order := sd_order score_data;
               name := recorded_name score_data;
               scores := scores info ++ [sd_score score_data] |}
  | Some _ => extend [sd_score score_data] info
  end.

(** The first observation that carries an order. *)
Definition first_with_order (l : list ScoreData) : option ScoreData :=
  head (filter (fun score_data => is_Some (sd_order score_data)) l).

(** The row of order [o] in an export of privacy-mode observations [l]. *)
Definition privacy_row (l : list ScoreData) (o : Z) : CsvWriter.StudentRow :=
  {| CsvWriter.order := Some o;
     CsvWriter.student_id := order_key o;
     CsvWriter.name := None;
     CsvWriter.scores :=
       sd_score <$> filter (fun score_data => sd_order score_data = Some o) l |}.

(** The keys of a dict after a store under [key]. *)
Definition touch (key : Key) (keys : list Key) : list Key :=
  if decide (key ∈ keys) then keys else keys ++ [key].

(** The distinct elements of a list, in the order of their first
    occurrence. *)
Fixpoint first_occurrences {T : Type} `{EqDecision T} (l : list T) : list T :=
  match l with
  | [] => []
  | x :: l' => x :: filter (fun y => y ≠ x) (first_occurrences l')
  end.

End Ordered.

(** ** main.py, from the OCR results on (lines 177-217)

    The exit status, and the rows written to the CSV file.  The arithmetic
    [A] is that of [get_statistics], whose result is only logged; an
    interrupt from the keyboard is left out. *)

Module Main.
Import Aggregator.

Definition main_after_ocr (A : Arith) (ocr_results : list OcrResult)
    : Z * option (list (list CsvWriter.Cell)) :=
  let success_count := length (filter (fun r => success r = true) ocr_results) in
  if (success_count =? 0)%nat then (1%Z, None)
  else
    let outcome :=
      let aggregator := Ordered.__init__ None in
      let aggregator := (Ordered.batch_add_results aggregator ocr_results).1 in
      and_then (lift (get_statistics A (Ordered.forget aggregator))) (fun stats =>
      and_then (Ordered.get_aggregated_data aggregator true) (fun data =>
      Return (CsvWriter.write data CsvWriter.default_prefix))) in
    match outcome with
    | Return (true, file) => (0%Z, file)
    | Return (false, file) => (1%Z, file)
    | Throw _ => (1%Z, None)
    end.

End Main.

(** ** Further sample inputs *)

Module Samples.
Import Aggregator.
Open Scope Z_scope.

(** A roster that lists the id ["A"] twice. *)
Definition roster_twice : MasterList :=
  {| students :=
       Some [ {| st_order := 1; st_student_id := "A"; st_name := "Ann" |};
              {| st_order := 2; st_student_id := "B"; st_name := "Bob" |};
              {| st_order := 3; st_student_id := "A"; st_name := "Amy" |} ];
     other_keys := 0 |}.

End Samples.

(** ** calculate_final_scores.py: vocabulary of further statements *)

Module Trim.
Import Scorer.

(** The scores [calculate_trimmed_mean] averages: the sorted scores without
    [trim_count] at either end, or all of them when that leaves none. *)
Definition selected (A : Arith) (scores : list (num A)) (trim_percent : Q)
    : list (num A) :=
  let sorted_scores := sorted A scores in
  let n := length sorted_scores in
  let trim_count := py_int (inject_Z (Z.of_nat n) * trim_percent) in
  let trimmed_scores :=
    if (0 <? trim_count)%Z
    then py_slice sorted_scores (Z.to_nat trim_count) (n - Z.to_nat trim_count)
    else sorted_scores in
  match trimmed_scores with
  | [] => sorted_scores
  | _ :: _ => trimmed_scores
  end.

End Trim.

(** ** calculate_final_scores.py: [process_csv]

    The input is the sequence of rows [csv.reader] yields, the output the
    rows handed to [csv.writer]; the printing under [verbose] is left out.
    The builtins that read a cell are parameters: [int(s)] and [float(s)],
    with [None] where they raise ValueError, and [s.strip()]. *)

Module FinalScores.
Import Scorer CsvWriter.

Section ProcessCsv.
Context (A : Arith).
Context (py_int_of_str : string -> option Z)
        (py_float_of_str : string -> option (num A))
        (py_strip : string -> string).

(** One element of [results]. *)
Record Entry : Type := {
  r_order : Z;
  r_score_count : nat;
  r_trimmed_mean : num A;
  r_final_score : Z
}.

(** Lines 68-75: the valid scores of a row, from the fourth cell on. *)
Definition row_scores (row : list string) : list (num A) :=
  omap (fun cell =>
          if bool_decide (cell ≠ "") && bool_decide (py_strip cell ≠ "")
          then py_float_of_str cell
          else None)
       (drop 3 row).

(** Lines 62-88: one turn of the loop; [None] where the row is skipped. *)
Definition process_row (row : list string) : outcome (option Entry) :=
  match row with
  | [] => Return None
  | cell :: _ =>
      if bool_decide (cell = "") then Return None
      else
        match py_int_of_str cell with
        | None => Throw (Builtin ValueError)
        | Some order =>
            let scores := row_scores row in
            and_then (lift (calculate_trimmed_mean A scores default_trim_percent))
              (fun trimmed_mean =>
            and_then (lift (num_round A (num_mul A trimmed_mean (num_of_nat A 10))))
              (fun final_score =>
            Return (Some {| r_order := order;
                            r_score_count := length scores;
                            r_trimmed_mean := trimmed_mean;
                            r_final_score := final_score |})))
        end
  end.

(** The loop over the rows after the header. *)
Fixpoint read_rows (rows : list (list string)) : outcome (list Entry) :=
  match rows with
  | [] => Return []
  | row :: rows' =>
      and_then (process_row row) (fun entry =>
      and_then (read_rows rows') (fun results =>
      Return (match entry with
              | Some e => e :: results
              | None => results
              end)))
  end.

(** [process_csv(input_path, output_path)] *)
Definition process_csv (input : list (list string)) : outcome (list (list Cell)) :=
  match input with
  | [] => Throw StopIteration
  | header :: rows =>
      and_then (read_rows rows) (fun results =>
      and_then (sort_by (fun r => Some (r_order r)) results) (fun results =>
      Return ([CStr "順序"; CStr "成績"]
              :: ((fun r => [CInt (r_order r); CInt (r_final_score r)]) <$> results))))
  end.

(** *** Vocabulary of the statements *)

(** A row the loop does not skip: it has a first cell, and that is not
    empty. *)
Definition kept (row : list string) : bool :=
  match row with
  | [] => false
  | cell :: _ => negb (bool_decide (cell = ""))
  end.

(** The scores that are present, in order. *)
Definition present (scores : list (option Z)) : list Z := omap id scores.

(** The text of the cells of a written row, as [csv.reader] gives it back. *)
Definition csv_text (row : list Cell) : list string := csv_field <$> row.

(** The scores of a student that are present, as numbers. *)
Definition read_scores (scores : list (option Z)) : list (num A) :=
  (fun z => num_of_nat A (Z.to_nat z)) <$> present scores.

(** [int] and [float] read back the numerals [csv.writer] wrote for a
    student: its order, and its scores, which are not negative. *)
Definition reads_back (student : StudentRow) : Prop :=
  (∀ o, CsvWriter.order student = Some o → py_int_of_str (pretty o) = Some o)
  ∧ Forall (fun z => (0 ≤ z)%Z
                     ∧ py_float_of_str (pretty z) = Some (num_of_nat A (Z.to_nat z))
                     ∧ py_strip (pretty z) ≠ "")
           (present (CsvWriter.scores student)).

End ProcessCsv.

Arguments r_order {A} _.
Arguments r_score_count {A} _.
Arguments r_trimmed_mean {A} _.
Arguments r_final_score {A} _.

End FinalScores.

(** Sample input of [process_csv], with a reader of plain decimal numerals
    standing for [int] and [float] on the cells of the sample. *)

Module CsvSamples.

Fixpoint digits (s : string) (acc : Z) : option Z :=
  match s with
  | EmptyString => Some acc
  | String c s' =>
      let n := Z.of_nat (Ascii.nat_of_ascii c) in
      if ((48 <=? n) && (n <=? 57))%Z then digits s' (10 * acc + (n - 48))%Z else None
  end.

Definition read_decimal (s : string) : option Z :=
  if bool_decide (s = "") then None else digits s 0%Z.

Definition read_decimal_exact (s : string) : option Q := inject_Z <$> read_decimal s.

Definition scores_csv : list (list string) :=
  [ ["報告順序"; "學號"; "姓名"; "評分1"; "評分2"];
    ["2"; "B"; "Bob"; "6"; ""];
    [""; "C"; "Cy"; "9"; "9"];
    ["1"; "A"; "Ann"; "7"; "8"] ].

(** A student with one score absent. *)
Definition sample_student : CsvWriter.StudentRow :=
  {| CsvWriter.order := Some 4%Z;
     CsvWriter.student_id := Some "D";
     CsvWriter.name := Some "Dee";
     CsvWriter.scores := [Some 7%Z; None; Some 8%Z] |}.

(** Two students in ascending order. *)
Definition sample_class : list CsvWriter.StudentRow :=
  [ {| CsvWriter.order := Some 2%Z;
       CsvWriter.student_id := Some "B";
       CsvWriter.name := Some "Bob";
       CsvWriter.scores := [Some 6%Z] |};
    sample_student ].

End CsvSamples.

(** ** src/ocr_extractor.py and src/privacy_ocr_extractor.py: the reply
       handed to [json.loads]

    Both extractors take the Markdown fences off the model's reply before
    they parse it.  A [str] is the sequence of its code points here; which
    of them [str.strip] takes for whitespace is a parameter. *)

Module Reply.

Abbreviation str := (list N).

Definition backtick : N := 96%N.

(** The literals ['```'] and ['```json']. *)
Definition fence : str := [96; 96; 96]%N.
Definition json_fence : str := [96; 96; 96; 106; 115; 111; 110]%N.

(** [s.startswith(sep)] *)
Fixpoint startswith (sep s : str) : bool :=
  match sep, s with
  | [], _ => true
  | _ :: _, [] => false
  | c :: sep', d :: s' => bool_decide (c = d) && startswith sep' s'
  end.

(** [s.find(sep)]: the index of the first occurrence, [None] for -1. *)
Fixpoint find (sep s : str) : option nat :=
  if startswith sep s then Some 0%nat
  else match s with
       | [] => None
       | _ :: s' => S <$> find sep s'
       end.

(** [sep in s] *)
Definition contains (sep s : str) : bool := bool_decide (is_Some (find sep s)).

(** [s.split(sep)]: the text is cut at the first occurrence of [sep], and
    the search goes on behind it.  An occurrence of a non-empty [sep] takes
    at least one character off the text, so [length s] rounds are enough;
    an empty [sep] raises. *)
Fixpoint split_from (fuel : nat) (sep s : str) : list str :=
  match fuel, find sep s with
  | S fuel', Some i => take i s :: split_from fuel' sep (drop (i + length sep) s)
  | _, _ => [s]
  end.

Definition split (sep s : str) : outcome (list str) :=
  match sep with
  | [] => Throw (Builtin ValueError)
  | _ :: _ => Return (split_from (length s) sep s)
  end.

(** [l[i]] for [i >= 0] *)
Definition index {T : Type} (l : list T) (i : nat) : outcome T :=
  match l !! i with
  | Some x => Return x
  | None => Throw IndexError
  end.

Section Strip.
Context (py_isspace : N -> bool).

Fixpoint lstrip (s : str) : str :=
  match s with
  | [] => []
  | c :: s' => if py_isspace c then lstrip s' else s
  end.

Definition rstrip (s : str) : str := reverse (lstrip (reverse s)).

(** [s.strip()] *)
Definition strip (s : str) : str := rstrip (lstrip s).

(** [text.split(opening)[1].split('```')[0].strip()] *)
Definition between_fences (opening text : str) : outcome str :=
  and_then (split opening text) (fun pieces =>
  and_then (index pieces 1) (fun piece =>
  and_then (split fence piece) (fun pieces =>
  and_then (index pieces 0) (fun piece =>
  Return (strip piece))))).

(** [OCRExtractor.extract_from_pdf], lines 127-131: [result_text] as it is
    handed to [json.loads]. *)
Definition result_text (result_text : str) : outcome str :=
  if contains json_fence result_text then between_fences json_fence result_text
  else if contains fence result_text then between_fences fence result_text
  else Return result_text.

(** [PrivacyOCRExtractor._parse_json_response], lines 77-84: [clean_text] as
    it is handed to [json.loads]. *)
Definition clean_text (text : str) : outcome str :=
  let clean_text := strip text in
  if contains json_fence clean_text then between_fences json_fence clean_text
  else if contains fence clean_text then between_fences fence clean_text
  else Return clean_text.

End Strip.

(** *** Vocabulary of the statements *)

(** The first piece of [s.split(sep)]: the text before the first [sep]. *)
Definition first_piece (sep s : str) : str :=
  match find sep s with
  | Some i => take i s
  | None => s
  end.

(** The text between the fences, by the place of the opening fence. *)
Definition unfenced (py_isspace : N -> bool) (text : str) : str :=
  match find json_fence text with
  | Some i =>
      strip py_isspace
        (first_piece fence (first_piece json_fence (drop (i + length json_fence) text)))
  | None =>
      match find fence text with
      | Some i =>
          strip py_isspace
            (first_piece fence (first_piece fence (drop (i + length fence) text)))
      | None => text
      end
  end.

End Reply.

(** ** src/mask_processor.py: the rectangles [apply_mask] draws

    The image enters by its size only; [draw.rectangle] is given the four
    ints computed here. *)

Module Mask.

(** One element of [mask_config['masks']], without its name. *)
Record MaskBox : Type := {
  x1 : Z;
  y1 : Z;
  x2 : Z;
  y2 : Z
}.

Record MaskConfig : Type := {
  expected_width : Z;
  expected_height : Z;
  masks : list MaskBox
}.

Definition DEFAULT_MASKS : MaskConfig :=
  {| expected_width := 2484;
     expected_height := 3475;
     masks := [ {| x1 := 339; y1 := 394; x2 := 835; y2 := 1946 |};
                {| x1 := 1319; y1 := 404; x2 := 1808; y2 := 2067 |};
                {| x1 := 147; y1 := 2085; x2 := 2008; y2 := 3147 |} ] |}.

(** [int(x)] of a double: truncation toward zero; NaN and the infinities
    raise. *)
Definition f64_int (x : float) : result Z :=
  match Prim2SF x with
  | S754_nan => Raise ValueError
  | S754_infinity _ => Raise OverflowError
  | _ => Ok (py_int (default 0%Q (f64_value x)))
  end.

(** [a / b] on ints below 2^53 in magnitude: the quotient of the doubles. *)
Definition int_truediv (a b : Z) : result float :=
  if (b =? 0)%Z then Raise ZeroDivisionError
  else Ok (PrimFloat.div (f64_of_Z a) (f64_of_Z b)).

(** [int(v * scale)] for an int [v] *)
Definition scale_coordinate (v : Z) (scale : float) : result Z :=
  f64_int (PrimFloat.mul (f64_of_Z v) scale).

(** The loop over the masks (lines 124-133): the rectangles drawn. *)
Fixpoint draw_masks (scale_x scale_y : float) (masks : list MaskBox)
    : result (list MaskBox) :=
  match masks with
  | [] => Ok []
  | mask :: masks' =>
      bind (scale_coordinate (x1 mask) scale_x) (fun x1 =>
      bind (scale_coordinate (y1 mask) scale_y) (fun y1 =>
      bind (scale_coordinate (x2 mask) scale_x) (fun x2 =>
      bind (scale_coordinate (y2 mask) scale_y) (fun y2 =>
      bind (draw_masks scale_x scale_y masks') (fun drawn =>
      Ok ({| x1 := x1; y1 := y1; x2 := x2; y2 := y2 |} :: drawn))))))
  end.

(** [apply_mask(self, image)] on an image of size [(width, height)]. *)
Definition apply_mask (mask_config : MaskConfig) (width height : Z)
    : result (list MaskBox) :=
  bind (int_truediv width (expected_width mask_config)) (fun scale_x =>
  bind (int_truediv height (expected_height mask_config)) (fun scale_y =>
  draw_masks scale_x scale_y (masks mask_config))).

(** *** Vocabulary of the statements *)

(** The largest side of an image the enumerations cover. *)
Definition max_side : Z := 10000.

(** The two edges of a mask along one axis, as they are drawn. *)
Definition scaled_edges (expected size lo hi : Z) : result (Z * Z) :=
  bind (int_truediv size expected) (fun scale =>
  bind (scale_coordinate lo scale) (fun a =>
  bind (scale_coordinate hi scale) (fun b =>
  Ok (a, b)))).

(** The drawn coordinate [c] is the exact quotient rounded down, or one
    less when [slack] is 1. *)
Definition near_quotient (slack v size expected c : Z) : bool :=
  (v * size / expected - slack <=? c)%Z && (c <=? v * size / expected)%Z.

(** The drawn edges are in order and inside the image, and near the exact
    quotients. *)
Definition edges_ok (slack expected size lo hi : Z) : bool :=
  match scaled_edges expected size lo hi with
  | Ok (a, b) =>
      (0 <=? a)%Z && (a <=? b)%Z && (b <? size)%Z
      && near_quotient slack lo size expected a
      && near_quotient slack hi size expected b
  | Raise _ => false
  end.

End Mask.

(** Sample replies, over the whitespace of ASCII. *)

Module ReplySamples.
Import Reply.

Definition ascii_space (c : N) : bool :=
  ((9 <=? c) && (c <=? 13) || (28 <=? c) && (c <=? 32))%N.

(** ['{}'] between a ['```json'] fence and a ['```'] fence, on lines of their
    own, after the word ['ok']. *)
Definition body : str := [10; 123; 125; 10]%N.
Definition fenced : str :=
  [111; 107; 10]%N ++ json_fence ++ body ++ fence ++ [10]%N.

End ReplySamples.

(** ** Texts: vocabulary of the statements on column names *)

Module Text.

(** The last character of a text. *)
Fixpoint last_char (s : string) : option Ascii.ascii :=
  match s with
  | EmptyString => None
  | String c s' =>
      match s' with
      | EmptyString => Some c
      | String _ _ => last_char s'
      end
  end.

(** One of the characters ['0'] to ['9']. *)
Definition is_digit (c : Ascii.ascii) : bool :=
  (48 <=? Ascii.nat_of_ascii c)%nat && (Ascii.nat_of_ascii c <=? 57)%nat.

End Text.

(** ** calculate_final_scores.py on doubles: vocabulary of the statements *)

Module Doubles.

Section Order.
Context (A : Arith).

(** [x <= y] as a sort by [<] sees it: [y < x] does not hold. *)
Definition le (x y : num A) : Prop := num_lt A y x = false.

(** [<] orders the numbers of [l]: of two of them at most one is less than
    the other, and a number not above a second that is not above a third is
    not above the third.  Rationals are so ordered, and so are doubles
    without a NaN; the doubles 1.0, NaN, 2.0 are not, since neither
    [NaN < 1.0] nor [2.0 < NaN] holds while [1.0 < 2.0] does. *)
Definition ordered_by_lt (l : list (num A)) : Prop :=
  ∀ x y z, x ∈ l → y ∈ l → z ∈ l →
    (num_lt A x y = true → num_lt A y x = false)
    ∧ (le x y → le y z → le x z).

End Order.

(** [math.isnan(x)] *)
Definition f64_is_nan (x : float) : bool :=
  match Prim2SF x with
  | S754_nan => true
  | _ => false
  end.

(** Line 30 as the code computes it on doubles: [int(n * trim_percent)]. *)
Definition trim_count_binary64 (n : nat) (trim_percent : float) : result Z :=
  Mask.f64_int (PrimFloat.mul (f64_of_nat n) trim_percent).

(** The longest list of scores the enumerations of trim counts cover. *)
Definition max_cells : Z := 10000.

(** The doubles written [0.5], [0.29], [0.55], [0.65] and [1e308]. *)
Definition f64_half : float := 0x1p-1%float.
Definition f64_0_29 : float := 0x1.28f5c28f5c28fp-2%float.
Definition f64_0_55 : float := 0x1.199999999999ap-1%float.
Definition f64_0_65 : float := 0x1.4cccccccccccdp-1%float.
Definition f64_1e308 : float := 0x1.1ccf385ebc8ap+1023%float.

(** The position of a double that is not a NaN in the order of [<]: the
    sign class first, then exponent and mantissa, both negated below
    zero. *)
Definition f64_rank (x : float) : Z * (Z * Z) :=
  match Prim2SF x with
  | S754_infinity true => (-2, (0, 0))
  | S754_finite true m e => (-1, (- e, - Z.pos m))
  | S754_zero _ => (0, (0, 0))
  | S754_nan => (0, (0, 0))
  | S754_finite false m e => (1, (e, Z.pos m))
  | S754_infinity false => (2, (0, 0))
  end%Z.

Definition rank_lt (a b : Z * (Z * Z)) : Prop :=
  (a.1 < b.1 ∨ (a.1 = b.1 ∧ (a.2.1 < b.2.1 ∨ (a.2.1 = b.2.1 ∧ a.2.2 < b.2.2))))%Z.

End Doubles.

(* ===================================================================== *)
(** * Part II.  Properties                                                *)
(* ===================================================================== *)

(** ** The robust scorer *)

Section ScorerFacts.
Import Scorer.
Context (A : Arith).

Lemma insert_perm (x : num A) (l : list (num A)) : insert A x l ≡ₚ x :: l.
Proof.
  induction l as [|y l IH]; simpl; [done|].
  destruct (num_lt A y x); [|done].
  rewrite IH. apply Permutation_swap.
Qed.

Lemma sorted_perm (l : list (num A)) : sorted A l ≡ₚ l.
Proof.
  induction l as [|x l IH]; simpl; [done|].
  by rewrite insert_perm, IH.
Qed.

Lemma sorted_length (l : list (num A)) : length (sorted A l) = length l.
Proof. by rewrite sorted_perm. Qed.

Lemma py_truediv_mean (l : list (num A)) :
  l ≠ [] → py_truediv A (num_sum A l) (length l) = Ok (mean A l).
Proof. by destruct l. Qed.

(** [int(n * 0.10)] is [n // 10]. *)
Lemma trim_count_default (n : nat) :
  py_int (inject_Z (Z.of_nat n) * default_trim_percent) = Z.of_nat (n / 10).
Proof.
  unfold py_int, default_trim_percent, Qmult, inject_Z. cbn [Qnum Qden].
  change (Z.pos (1 * 10)) with 10%Z.
  rewrite Z.mul_1_r, Z.quot_div_nonneg by lia.
  by rewrite Nat2Z.inj_div.
Qed.

(** At the default fraction the slice keeps at least four fifths of a
    non-empty list, so the fall-back to the untrimmed list is never taken. *)
Lemma default_slice_length (l : list (num A)) (n : nat) :
  n = length l →
  length (py_slice l (n / 10) (n - n / 10)) = (n - n / 10 - n / 10)%nat.
Proof.
  intros ->. unfold py_slice. rewrite length_drop, length_take. lia.
Qed.

Lemma default_slice_nonempty (l : list (num A)) :
  l ≠ [] → py_slice l (length l / 10) (length l - length l / 10) ≠ [].
Proof.
  intros Hl Hs. apply (f_equal length) in Hs.
  rewrite default_slice_length in Hs by done.
  assert (0 < length l)%nat by (destruct l; [done | simpl; lia]).
  pose proof (Nat.Div0.mul_div_le (length l) 10).
  change (length (@nil (num A))) with 0%nat in Hs. lia.
Qed.

(** The branches of [calculate_trimmed_mean] resolved, in any arithmetic. *)
Lemma calculate_trimmed_mean_cases (scores : list (num A)) :
  let sorted_scores := sorted A scores in
  let n := length scores in
  let trim_count := (n / 10)%nat in
  let slice := py_slice sorted_scores trim_count (n - trim_count) in
  calculate_trimmed_mean A scores default_trim_percent =
    match scores with
    | [] => Ok (num_zero A)
    | _ :: _ =>
        match slice with
        | [] => Ok (mean A sorted_scores)
        | _ :: _ => Ok (mean A slice)
        end
    end.
Proof.
  intros sorted_scores n trim_count slice.
  destruct scores as [|x scores']; [done|].
  set (scores := x :: scores') in *.
  unfold calculate_trimmed_mean. fold scores. fold sorted_scores.
  cbv zeta. rewrite trim_count_default.
  assert (Hn : length sorted_scores = n) by apply sorted_length.
  rewrite Hn, Nat2Z.id. fold trim_count.
  assert (Hne : sorted_scores ≠ []).
  { intros E. rewrite E in Hn. done. }
  assert (Hsl : (if (0 <? Z.of_nat trim_count)%Z then slice else sorted_scores) = slice).
  { destruct (Z.ltb_spec 0 (Z.of_nat trim_count)); [done|].
    assert (trim_count = 0)%nat as E by lia.
    unfold slice, py_slice. rewrite E, Nat.sub_0_r. simpl.
    by rewrite firstn_all2 by lia. }
  fold slice. rewrite Hsl.
  destruct slice as [|y slice'] eqn:Es.
  - by apply py_truediv_mean.
  - by apply py_truediv_mean.
Qed.

Lemma elem_of_py_slice {T : Type} (l : list T) (start stop : nat) (x : T) :
  x ∈ py_slice l start stop → x ∈ l.
Proof.
  unfold py_slice. intros H.
  apply list_elem_of_lookup in H as [i Hi].
  rewrite lookup_drop in Hi. apply lookup_take_Some in Hi as [Hi _].
  by eapply list_elem_of_lookup_2.
Qed.


End ScorerFacts.

(** *** The exact reading *)

Section ExactFacts.
Import Scorer.
Open Scope Q_scope.

Lemma exact_lt_true (x y : Q) : num_lt exact x y = true ↔ x < y.
Proof.
  simpl. rewrite negb_true_iff, <- not_true_iff_false, Qle_bool_iff.
  split; [apply Qnot_le_lt | apply Qlt_not_le].
Qed.

Lemma exact_lt_false (x y : Q) : num_lt exact x y = false ↔ y <= x.
Proof. simpl. by rewrite negb_false_iff, Qle_bool_iff. Qed.

Lemma insert_HdRel (a x : Q) (l : list Q) :
  a <= x → HdRel Qle a l → HdRel Qle a (insert exact x l).
Proof.
  intros Hax Hl. destruct l as [|y l]; simpl; [by constructor|].
  destruct (negb (Qle_bool x y)); constructor; [by inversion Hl | done].
Qed.

Lemma insert_Sorted (x : Q) (l : list Q) :
  Sorted Qle l → Sorted Qle (insert exact x l).
Proof.
  induction 1 as [|y l Hs IH Hd]; simpl; [by repeat constructor|].
  destruct (negb (Qle_bool x y)) eqn:E.
  - constructor; [done|]. apply insert_HdRel; [|done].
    apply Qlt_le_weak. by apply (exact_lt_true y x).
  - constructor; [by constructor|]. constructor.
    by apply (exact_lt_false y x).
Qed.

(** [sorted] returns an ascending list. *)
Lemma sorted_Sorted (l : list Q) : Sorted Qle (sorted exact l).
Proof.
  induction l as [|x l IH]; simpl; [constructor|]. by apply insert_Sorted.
Qed.

Lemma py_sum_bounds (lo hi : Q) (l : list Q) (acc : Q) :
  Forall (fun x => lo <= x <= hi) l →
  acc + lo * inject_Z (Z.of_nat (length l)) <= fold_left Qplus l acc
  ∧ fold_left Qplus l acc <= acc + hi * inject_Z (Z.of_nat (length l)).
Proof.
  intros Hl. revert acc.
  induction Hl as [|x l [Hlo Hhi] _ IH]; intros acc.
  - cbn [fold_left length]. change (inject_Z (Z.of_nat 0)) with 0. split; lra.
  - cbn [fold_left length]. destruct (IH (acc + x)) as [IH1 IH2].
    rewrite Nat2Z.inj_succ, <- Z.add_1_r, inject_Z_plus.
    change (inject_Z 1) with 1. split; lra.
Qed.

(** The mean of a non-empty list lies between any bounds of its elements. *)
Lemma mean_bounds (lo hi : Q) (l : list Q) :
  l ≠ [] → Forall (fun x => lo <= x <= hi) l →
  lo <= mean exact l ∧ mean exact l <= hi.
Proof.
  intros Hne Hl. unfold mean. simpl.
  destruct (py_sum_bounds lo hi l 0 Hl) as [H1 H2].
  set (n := inject_Z (Z.of_nat (length l))) in *.
  assert (Hn : 0 < n).
  { unfold n. change 0 with (inject_Z 0). rewrite <- Zlt_Qlt.
    destruct l; [done | simpl; lia]. }
  split.
  - apply Qle_shift_div_l; [done | lra].
  - apply Qle_shift_div_r; [done | lra].
Qed.





(** Rounding: the result is a nearest integer, and an exact half goes to
    the even neighbour. *)
Lemma round_half_even_nearest (x : Q) :
  Qabs (inject_Z (round_half_even x) - x) <= 1 # 2.
Proof.
  unfold round_half_even.
  pose proof (Qfloor_le x) as Hlo. pose proof (Qlt_floor x) as Hhi.
  rewrite inject_Z_plus in Hhi. change (inject_Z 1) with 1 in Hhi.
  set (f := Qfloor x) in *.
  destruct (Qcompare (x - inject_Z f) (1 # 2)) eqn:E.
  - apply Qeq_alt in E.
    destruct (Z.even f); [|rewrite inject_Z_plus; change (inject_Z 1) with 1];
      apply Qabs_Qle_condition; split; lra.
  - apply Qlt_alt in E. apply Qabs_Qle_condition; split; lra.
  - apply Qgt_alt in E. rewrite inject_Z_plus. change (inject_Z 1) with 1.
    apply Qabs_Qle_condition; split; lra.
Qed.

Lemma round_half_even_tie (x : Q) :
  Qabs (inject_Z (round_half_even x) - x) == 1 # 2 →
  Z.even (round_half_even x) = true.
Proof.
  unfold round_half_even.
  pose proof (Qfloor_le x) as Hlo. pose proof (Qlt_floor x) as Hhi.
  rewrite inject_Z_plus in Hhi. change (inject_Z 1) with 1 in Hhi.
  set (f := Qfloor x) in *.
  destruct (Qcompare (x - inject_Z f) (1 # 2)) eqn:E.
  - intros _. destruct (Z.even f) eqn:Ef; [done|].
    rewrite Z.even_add, Ef. done.
  - apply Qlt_alt in E. intros H.
    rewrite Qabs_neg in H by lra. lra.
  - apply Qgt_alt in E. rewrite inject_Z_plus. change (inject_Z 1) with 1.
    intros H. rewrite Qabs_pos in H by lra. lra.
Qed.

(** [round(x, 2)]: a multiple of 1/100 nearest to [x]. *)
Lemma round_two_decimals (x : Q) :
  ∃ k : Z, num_round_ndigits exact x 2 = inject_Z k / 100
           ∧ Qabs (inject_Z k / 100 - x) <= 1 # 200.
Proof.
  exists (round_half_even (x * 100)). split; [reflexivity|].
  pose proof (round_half_even_nearest (x * 100)) as H.
  apply Qabs_Qle_condition in H as [H1 H2].
  unfold Qdiv. change (/ 100) with (1 # 100).
  apply Qabs_Qle_condition. split; lra.
Qed.

End ExactFacts.

(** *** Whole scores in binary64

    On whole scores from 0 to 10, at most 200 of them, binary64 computes the
    sum exactly and orders the scores as the integers are ordered; the
    rounded quotient stays between any integer bounds of the exact one.
    Each fact is checked on every case by evaluation. *)

Section Binary64Facts.
Import Scorer.
Open Scope Z_scope.

Lemma all_from_spec (n : nat) (z : Z) (f : Z → bool) :
  all_from n z f = true → ∀ x, z ≤ x < z + Z.of_nat n → f x = true.
Proof.
  revert z. induction n as [|n IH]; intros z H x Hx; [lia|].
  cbn [all_from] in H. apply andb_true_iff in H as [Hz Hr].
  destruct (decide (x = z)) as [->|Hne]; [done|].
  apply (IH (z + 1)); [done | lia].
Qed.

(** Adding a score to a partial sum is exact. *)
Lemma f64_add_check :
  all_from 2001 0 (fun s => all_from 11 0 (fun v =>
    PrimFloat.Leibniz.eqb (PrimFloat.add (f64_of_Z s) (f64_of_Z v))
                          (f64_of_Z (s + v)))) = true.
Proof. vm_compute. reflexivity. Qed.

Lemma f64_add_whole (s v : Z) :
  0 ≤ s ≤ 2000 → 0 ≤ v ≤ 10 →
  PrimFloat.add (f64_of_Z s) (f64_of_Z v) = f64_of_Z (s + v).
Proof.
  intros Hs Hv. apply FloatAxioms.Leibniz.eqb_spec.
  apply (all_from_spec _ _ _ (all_from_spec _ _ _ f64_add_check s ltac:(lia)) v).
  lia.
Qed.
Lemma f64_fold_add_whole (t : list Z) (acc : Z) :
  Forall (fun z => 0 ≤ z ≤ 10) t → 0 ≤ acc →
  acc + 10 * Z.of_nat (length t) ≤ 2000 →
  fold_left PrimFloat.add (int_scores t) (f64_of_Z acc) = f64_of_Z (acc + zsum t).
Proof.
  intros Ht. revert acc. induction Ht as [|z t Hz _ IH]; intros acc Ha Hb.
  - simpl. by rewrite Z.add_0_r.
  - unfold int_scores. rewrite fmap_cons. cbn [fold_left length zsum foldr] in *.
    rewrite f64_add_whole by lia. fold (int_scores t). rewrite IH by lia.
    f_equal. unfold zsum. lia.
Qed.

Lemma f64_sum_whole (t : list Z) :
  Forall (fun z => 0 ≤ z ≤ 10) t → (length t ≤ 200)%nat →
  f64_sum (int_scores t) = f64_of_Z (zsum t).
Proof.
  intros Ht Hl. unfold f64_sum.
  change 0%float with (f64_of_Z 0). by rewrite f64_fold_add_whole by (done || lia).
Qed.

(** A compensated step on whole numbers adds exactly and leaves the
    compensation at zero. *)
Lemma f64_step_check :
  all_from 2001 0 (fun s => all_from 11 0 (fun v =>
    let '(f, c) := f64_compensated_step (f64_of_Z s, 0%float) (f64_of_Z v) in
    PrimFloat.Leibniz.eqb f (f64_of_Z (s + v)) && PrimFloat.Leibniz.eqb c 0%float)) = true.
Proof. vm_compute. reflexivity. Qed.

Lemma f64_step_whole (s v : Z) :
  0 ≤ s ≤ 2000 → 0 ≤ v ≤ 10 →
  f64_compensated_step (f64_of_Z s, 0%float) (f64_of_Z v) = (f64_of_Z (s + v), 0%float).
Proof.
  intros Hs Hv.
  pose proof (all_from_spec _ _ _ (all_from_spec _ _ _ f64_step_check s ltac:(lia)) v
                ltac:(lia)) as H.
  cbv beta in H. destruct (f64_compensated_step _ _) as [f c].
  apply andb_true_iff in H as [H1 H2].
  apply FloatAxioms.Leibniz.eqb_spec in H1, H2. by subst.
Qed.

Lemma f64_fold_step_whole (t : list Z) (acc : Z) :
  Forall (fun z => 0 ≤ z ≤ 10) t → 0 ≤ acc →
  acc + 10 * Z.of_nat (length t) ≤ 2000 →
  fold_left f64_compensated_step (int_scores t) (f64_of_Z acc, 0%float)
  = (f64_of_Z (acc + zsum t), 0%float).
Proof.
  intros Ht. revert acc. induction Ht as [|z t Hz _ IH]; intros acc Ha Hb.
  - simpl. by rewrite Z.add_0_r.
  - unfold int_scores. rewrite fmap_cons. cbn [fold_left length zsum foldr] in *.
    rewrite f64_step_whole by lia. fold (int_scores t). rewrite IH by lia.
    do 2 f_equal. unfold zsum. lia.
Qed.

Lemma f64_sum_compensated_whole (t : list Z) :
  Forall (fun z => 0 ≤ z ≤ 10) t → (length t ≤ 200)%nat →
  f64_sum_compensated (int_scores t) = f64_of_Z (zsum t).
Proof.
  intros Ht Hl. unfold f64_sum_compensated.
  change (0%float, 0%float) with (f64_of_Z 0, 0%float).
  rewrite f64_fold_step_whole by (done || lia). reflexivity.
Qed.

(** Scores compare as the integers do. *)
Lemma f64_lt_check :
  all_from 11 0 (fun a => all_from 11 0 (fun b =>
    Bool.eqb (PrimFloat.ltb (f64_of_Z a) (f64_of_Z b)) (a <? b))) = true.
Proof. vm_compute. reflexivity. Qed.

Lemma f64_lt_whole (a b : Z) :
  0 ≤ a ≤ 10 → 0 ≤ b ≤ 10 →
  PrimFloat.ltb (f64_of_Z a) (f64_of_Z b) = (a <? b).
Proof.
  intros Ha Hb. apply Bool.eqb_prop.
  apply (all_from_spec _ _ _ (all_from_spec _ _ _ f64_lt_check a ltac:(lia)) b). lia.
Qed.



(** The promotion of [len(l)] is the double of that integer. *)
Lemma f64_of_nat_Z (n : nat) : f64_of_nat n = f64_of_Z (Z.of_nat n).
Proof.
  unfold f64_of_nat, f64_of_Z.
  rewrite Z.abs_eq by lia.
  destruct (Z.ltb_spec (Z.of_nat n) 0); [lia | done].
Qed.




Lemma zsum_bounds (lo hi : Z) (t : list Z) :
  Forall (fun z => lo ≤ z ≤ hi) t →
  lo * Z.of_nat (length t) ≤ zsum t ≤ hi * Z.of_nat (length t).
Proof.
  induction 1 as [|z t Hz _ IH]; [simpl; lia|].
  cbn [length]. unfold zsum in *. cbn [foldr]. lia.
Qed.



End Binary64Facts.

(** *** Claims about the scorer *)

Section ScorerClaims.
Import Scorer.
Open Scope Q_scope.




End ScorerClaims.

(** ** The aggregator *)

Section DictFacts.
Import Aggregator.
Implicit Types (d : gmap Key StudentInfo) (key k : Key).

Lemma set_order_eq key v d :
  set_order key v d =
  <[key := {| order := v; name := name (entry d key); scores := scores (entry d key) |}]> d.
Proof.
  unfold set_order, getitem, entry. destruct (d !! key); simpl; [done|].
  by rewrite insert_insert_eq.
Qed.

Lemma set_name_eq key v d :
  set_name key v d =
  <[key := {| order := order (entry d key); name := v; scores := scores (entry d key) |}]> d.
Proof.
  unfold set_name, getitem, entry. destruct (d !! key); simpl; [done|].
  by rewrite insert_insert_eq.
Qed.

Lemma append_score_eq key v d :
  append_score key v d = <[key := extend [v] (entry d key)]> d.
Proof.
  unfold append_score, getitem, entry. destruct (d !! key); simpl; [done|].
  by rewrite insert_insert_eq.
Qed.

Lemma entry_insert key info d : entry (<[key := info]> d) key = info.
Proof. unfold entry. by rewrite lookup_insert_eq. Qed.

(** The guarded assignment of [order] and [name]. *)
Lemma record_first_eq key o n d :
  record_first key o n d =
  match order (entry d key) with
  | None => <[key := {| order := o; name := n; scores := scores (entry d key) |}]> d
  | Some _ => d
  end.
Proof.
  unfold record_first, getitem.
  destruct (d !! key) as [info|] eqn:E.
  - unfold entry. rewrite E. simpl. destruct (order info); [done|].
    rewrite set_name_eq, set_order_eq, entry_insert. simpl.
    rewrite insert_insert_eq. unfold entry. by rewrite E.
  - unfold entry at 1. rewrite E. simpl.
    rewrite set_name_eq, set_order_eq, !entry_insert. simpl.
    rewrite !insert_insert_eq. unfold entry. by rewrite E.
Qed.

(** The guarded assignment followed by the append, as one update. *)
Lemma record_append_eq key o n v d :
  append_score key v (record_first key o n d) =
  <[key := match order (entry d key) with
           | None => {| order := o; name := n; scores := scores (entry d key) ++ [v] |}
           | Some _ => extend [v] (entry d key)
           end]> d.
Proof.
  rewrite append_score_eq, record_first_eq.
  destruct (order (entry d key)); [done|].
  by rewrite entry_insert, insert_insert_eq.
Qed.

Lemma append_score_lookup key v d k :
  is_Some (d !! key) →
  append_score key v d !! k =
  (if decide (key = k) then extend [v] else id) <$> d !! k.
Proof.
  intros [info E]. rewrite append_score_eq, lookup_insert.
  destruct (decide (key = k)) as [->|].
  - unfold entry. by rewrite E.
  - by destruct (d !! k).
Qed.

Lemma extend_nil info : extend [] info = info.
Proof. destruct info. unfold extend. simpl. by rewrite app_nil_r. Qed.

Lemma extend_extend vs ws info : extend ws (extend vs info) = extend (vs ++ ws) info.
Proof. unfold extend. simpl. by rewrite app_assoc. Qed.

End DictFacts.

Section LoopFacts.
Import Aggregator.
Implicit Types (d : gmap Key StudentInfo) (key k : Key) (st : Loop).
Implicit Types (sd : ScoreData) (self : DataAggregator).

(** With a roster and [scores_only], an observation that is not in privacy
    mode is appended to an existing entity or counted as unmatched. *)
Lemma loop_body_roster st sd :
  is_privacy sd = false →
  loop_body true true st sd =
    if bool_decide (is_Some (dict st !! sd_student_id sd))
    then {| dict := append_score (sd_student_id sd) (sd_score sd) (dict st);
            matched_count := S (matched_count st);
            unmatched_count := unmatched_count st |}
    else {| dict := dict st;
            matched_count := matched_count st;
            unmatched_count := S (unmatched_count st) |}.
Proof.
  unfold is_privacy, loop_body.
  destruct (sd_student_id sd), (sd_order sd); simpl; done.
Qed.

Lemma loop_body_roster_lookup st sd k :
  is_privacy sd = false →
  dict (loop_body true true st sd) !! k =
  (if decide (sd_student_id sd = k) then extend [sd_score sd] else id) <$> dict st !! k.
Proof.
  intros Hp. rewrite loop_body_roster by done.
  case_bool_decide as Hs; simpl.
  - by apply append_score_lookup.
  - destruct (decide (sd_student_id sd = k)) as [<-|].
    + apply eq_None_not_Some in Hs. by rewrite Hs.
    + by destruct (dict st !! k).
Qed.

Lemma observations_of_cons k sd l :
  observations_of k (sd :: l) =
  (if decide (sd_student_id sd = k) then [sd_score sd] else []) ++ observations_of k l.
Proof.
  unfold observations_of. rewrite filter_cons.
  by destruct (decide (sd_student_id sd = k)).
Qed.

Lemma observations_of_app k l1 l2 :
  observations_of k (l1 ++ l2) = observations_of k l1 ++ observations_of k l2.
Proof. unfold observations_of. by rewrite filter_app, fmap_app. Qed.

(** The roster-mode loop, entity by entity: order and name stay, the scores
    found under the entity's key are appended in order. *)
Lemma roster_loop_lookup l st k :
  Forall (fun sd => is_privacy sd = false) l →
  dict (fold_left (loop_body true true) l st) !! k =
  extend (observations_of k l) <$> dict st !! k.
Proof.
  intros Hl. revert st. induction Hl as [|sd l Hsd _ IH]; intros st.
  - simpl. destruct (dict st !! k) as [info|]; simpl; [|done].
    by rewrite extend_nil.
  - cbn [fold_left]. rewrite IH, loop_body_roster_lookup by done.
    rewrite observations_of_cons.
    destruct (dict st !! k) as [info|]; simpl; [|done].
    destruct (decide (sd_student_id sd = k)); simpl.
    + by rewrite extend_extend.
    + done.
Qed.

Lemma roster_loop_dom l st :
  Forall (fun sd => is_privacy sd = false) l →
  dom (dict (fold_left (loop_body true true) l st)) = dom (dict st).
Proof.
  intros Hl. apply set_eq. intros k.
  rewrite !elem_of_dom, roster_loop_lookup by done.
  by rewrite fmap_is_Some.
Qed.


(** Neither the flag nor the batch counter influences the aggregator a
    batch leaves behind. *)
Lemma add_ocr_result_flag self r so :
  has_master_list (add_ocr_result self r so).1 = has_master_list self.
Proof. unfold add_ocr_result. by destruct (success r). Qed.

Lemma batch_counter l self c :
  fold_left (fun '(self, success_count) result =>
               let '(self, ok) := add_ocr_result self result None in
               (self, if ok then S success_count else success_count))
            l (self, c)
  = ((batch_add_results self l).1, (c + (batch_add_results self l).2)%nat).
Proof.
  unfold batch_add_results. revert self c.
  induction l as [|r l IH]; intros self c.
  - simpl. f_equal. lia.
  - cbn [fold_left].
    destruct (add_ocr_result self r None) as [self' ok].
    rewrite (IH self' (if ok then S c else c)), (IH self' (if ok then 1 else 0)%nat).
    simpl. f_equal. destruct ok; lia.
Qed.

Lemma merged_nil self : merged self [] = self.
Proof. done. Qed.

Lemma merged_cons self r l :
  merged self (r :: l) = merged (add_ocr_result self r None).1 l.
Proof.
  unfold merged at 1. unfold batch_add_results. cbn [fold_left].
  destruct (add_ocr_result self r None) as [self' ok].
  by rewrite batch_counter.
Qed.

Lemma merged_flag self l : has_master_list (merged self l) = has_master_list self.
Proof.
  revert self. induction l as [|r l IH]; intros self; [done|].
  by rewrite merged_cons, IH, add_ocr_result_flag.
Qed.

Lemma merged_observations_cons r l :
  merged_observations (r :: l) =
  (if success r then data_scores r else []) ++ merged_observations l.
Proof.
  unfold merged_observations. rewrite filter_cons.
  by destruct (success r).
Qed.

(** A batch on a roster aggregator, entity by entity. *)
Lemma roster_merged_lookup self l k :
  has_master_list self = true →
  Forall (fun sd => is_privacy sd = false) (merged_observations l) →
  student_scores (merged self l) !! k =
  extend (observations_of k (merged_observations l)) <$> student_scores self !! k.
Proof.
  intros Hm. revert self Hm. induction l as [|r l IH]; intros self Hm Hl.
  - rewrite merged_nil. unfold merged_observations, observations_of. simpl.
    destruct (student_scores self !! k); simpl; [|done]. by rewrite extend_nil.
  - rewrite merged_observations_cons in Hl. apply Forall_app in Hl as [Hr Hl].
    rewrite merged_cons, IH, merged_observations_cons, observations_of_app;
      [|by rewrite add_ocr_result_flag|done].
    unfold add_ocr_result. destruct (success r); simpl.
    + rewrite Hm. unfold merge_scores. simpl.
      rewrite roster_loop_lookup by done. simpl.
      destruct (student_scores self !! k); simpl; [|done].
      by rewrite extend_extend.
    + done.
Qed.

End LoopFacts.

Section InitFacts.
Import Aggregator.
Implicit Types (d : gmap Key StudentInfo) (key k : Key).
Implicit Types (self : DataAggregator) (ml : MasterList).

(** The two assignments [_load_master_list] makes for one student. *)
Lemma load_student_eq key o n d :
  set_name key n (set_order key o d) =
  <[key := {| order := o; name := n; scores := scores (entry d key) |}]> d.
Proof. rewrite set_name_eq, set_order_eq, entry_insert. simpl. apply insert_insert_eq. Qed.

Lemma load_fold (l : list Student) d :
  dom (fold_left load_student l d) =
    dom d ∪ list_to_set ((fun student => Some (st_student_id student)) <$> l)
  ∧ (map_Forall (fun _ info => scores info = []) d →
     map_Forall (fun _ info => scores info = []) (fold_left load_student l d)).
Proof.
  revert d. induction l as [|s l IH]; intros d.
  - simpl. split; [by rewrite (right_id_L ∅ (∪)) | done].
  - cbn [fold_left]. unfold load_student at 2 4. cbv zeta. rewrite load_student_eq.
    destruct (IH (<[Some (st_student_id s) :=
                     {| order := Some (st_order s); name := Some (st_name s);
                        scores := scores (entry d (Some (st_student_id s))) |}]> d))
      as [IH1 IH2].
    split.
    + rewrite IH1, dom_insert_L, fmap_cons, list_to_set_cons.
      by rewrite (comm_L (∪) {[_]} (dom d)), (assoc_L (∪)).
    + intros Hd. apply IH2. apply map_Forall_insert_2; [|done].
      simpl. unfold entry.
      destruct (d !! Some (st_student_id s)) as [info|] eqn:E; simpl; [|done].
      by apply (Hd _ _ E).
Qed.

Lemma init_no_roster (master_list : option MasterList) :
  truthy master_list = false →
  __init__ master_list =
  {| student_scores := ∅; processed_files := []; has_master_list := false |}.
Proof. unfold __init__. destruct master_list; [|done]. by intros ->. Qed.

Lemma init_roster ml :
  truthy (Some ml) = true →
  has_master_list (__init__ (Some ml)) = true
  ∧ processed_files (__init__ (Some ml)) = []
  ∧ dom (student_scores (__init__ (Some ml))) = roster_keys ml
  ∧ map_Forall (fun _ info => scores info = []) (student_scores (__init__ (Some ml))).
Proof.
  intros Ht. unfold __init__. rewrite Ht.
  unfold _load_master_list. cbn [has_master_list processed_files student_scores].
  split_and!; [done | done | |].
  - pose proof (load_fold (default [] (students ml)) ∅) as [H _].
    rewrite H, dom_empty_L. unfold roster_keys, roster. by rewrite (left_id_L ∅ (∪)).
  - pose proof (load_fold (default [] (students ml)) ∅) as [_ H].
    apply H. apply map_Forall_empty.
Qed.

(** Whatever the master list, a new aggregator has merged no file, and its
    entities, if any, have no score. *)
Lemma init_fresh (master_list : option MasterList) :
  processed_files (__init__ master_list) = []
  ∧ has_master_list (__init__ master_list) = truthy master_list
  ∧ map_Forall (fun _ info => scores info = []) (student_scores (__init__ master_list)).
Proof.
  destruct (truthy master_list) eqn:Ht.
  - destruct master_list as [ml|]; [|done].
    destruct (init_roster ml Ht) as (H1 & H2 & _ & H4). done.
  - rewrite init_no_roster by done. simpl. split_and!; [done | done |].
    apply map_Forall_empty.
Qed.


End InitFacts.

Section StatisticsFacts.
Import Aggregator.
Context (A : Arith).
Implicit Types (self : DataAggregator).

Lemma length_filter_fmap {T U : Type} (f : T → U) (P : U → Prop)
    `{!∀ x, Decision (P x)} (l : list T) :
  length (filter P (f <$> l)) = length (filter (fun x => P (f x)) l).
Proof.
  induction l as [|x l IH]; [done|].
  rewrite fmap_cons, !filter_cons. destruct (decide (P (f x))); simpl; by rewrite IH.
Qed.

Lemma size_map_filter {T : Type} (P : Key * T → Prop) `{!∀ x, Decision (P x)}
    (m : gmap Key T) :
  size (filter P m) = length (filter P (map_to_list m)).
Proof.
  rewrite <- length_map_to_list, map_filter_alt.
  apply Permutation_length, map_to_list_to_map.
  apply (NoDup_fmap_fst _).
  - intros k x y Hx Hy.
    apply list_elem_of_filter in Hx as [_ Hx], Hy as [_ Hy].
    apply elem_of_map_to_list in Hx, Hy. congruence.
  - apply NoDup_filter, NoDup_map_to_list.
Qed.

(** [get_statistics] past its early return. *)
Lemma get_statistics_nonempty self :
  student_scores self ≠ ∅ →
  get_statistics A self =
  Ok {| total_students := size (student_scores self);
        total_files := length (processed_files self);
        avg_scores_per_student :=
          num_round_ndigits A
            (num_div A
               (num_of_nat A
                  (sum_list ((fun kv => length (scores kv.2))
                             <$> map_to_list (student_scores self))))
               (num_of_nat A (size (student_scores self)))) 2;
        students_with_all_scores :=
          size (filter (fun kv : Key * StudentInfo =>
                          length (scores kv.2) = length (processed_files self))
                       (student_scores self));
        stat_processed_files := Some (processed_files self) |}.
Proof.
  intros Hne. apply map_size_non_empty_iff in Hne.
  unfold get_statistics.
  destruct (Nat.eqb_spec (size (student_scores self)) 0) as [E|_]; [done|].
  rewrite length_fmap, length_map_to_list.
  destruct (size (student_scores self)) as [|n] eqn:Es; [done|].
  cbn [py_truediv bind]. do 2 f_equal.
  rewrite length_filter_fmap. symmetry. apply size_map_filter.
Qed.

Lemma get_statistics_empty self :
  student_scores self = ∅ →
  get_statistics A self =
  Ok {| total_students := 0; total_files := 0;
        avg_scores_per_student := num_zero A;
        students_with_all_scores := 0;
        stat_processed_files := None |}.
Proof. intros E. unfold get_statistics. by rewrite E, map_size_empty. Qed.

(** [get_statistics] returns, and reports the number of entities. *)
Lemma get_statistics_total self :
  ∃ stats, get_statistics A self = Ok stats
           ∧ total_students stats = size (student_scores self).
Proof.
  destruct (decide (student_scores self = ∅)) as [E|E].
  - rewrite get_statistics_empty by done. eexists. split; [done|].
    simpl. by rewrite E, map_size_empty.
  - rewrite get_statistics_nonempty by done. eexists. split; done.
Qed.

End StatisticsFacts.

(** *** Claims about the roster *)

Section RosterClaims.
Import Aggregator Inputs.




End RosterClaims.

(** *** Observations without identity, and replay after [clear] *)

Section IdentityFacts.
Import Aggregator.
Implicit Types (d : gmap Key StudentInfo) (key k : Key) (st : Loop).
Implicit Types (sd : ScoreData) (self : DataAggregator).

(** A privacy-mode step writes under the ["order_N"] key only. *)
Lemma loop_body_privacy so hml st sd o :
  sd_student_id sd = None → sd_order sd = Some o →
  loop_body so hml st sd =
  {| dict := <[order_key o :=
                match order (entry (dict st) (order_key o)) with
                | None => {| order := Some o; name := None;
                             scores := scores (entry (dict st) (order_key o))
                                       ++ [sd_score sd] |}
                | Some _ => extend [sd_score sd] (entry (dict st) (order_key o))
                end]> (dict st);
     matched_count := S (matched_count st);
     unmatched_count := unmatched_count st |}.
Proof.
  intros Hi Ho. unfold loop_body. rewrite Hi, Ho. by rewrite record_append_eq.
Qed.

(** Outside roster mode, any other observation is merged under its
    student id, [None] included. *)
Lemma loop_body_open so hml st sd :
  so && hml = false → is_privacy sd = false →
  loop_body so hml st sd =
  {| dict := <[sd_student_id sd :=
                match order (entry (dict st) (sd_student_id sd)) with
                | None => {| order := sd_order sd; name := sd_name sd;
                             scores := scores (entry (dict st) (sd_student_id sd))
                                       ++ [sd_score sd] |}
                | Some _ => extend [sd_score sd] (entry (dict st) (sd_student_id sd))
                end]> (dict st);
     matched_count := S (matched_count st);
     unmatched_count := unmatched_count st |}.
Proof.
  intros Hg Hp. unfold loop_body, is_privacy in *. rewrite Hg.
  destruct (sd_student_id sd), (sd_order sd); try done; by rewrite record_append_eq.
Qed.

(** Under a roster no entity is ever keyed by [None]. *)
Lemma loop_body_roster_None st sd :
  dict st !! None = None → dict (loop_body true true st sd) !! None = None.
Proof.
  intros Hn. destruct (is_privacy sd) eqn:Hp.
  - unfold is_privacy in Hp.
    destruct (sd_student_id sd) eqn:Hi; [done|].
    destruct (sd_order sd) as [o|] eqn:Ho; [|done].
    rewrite (loop_body_privacy _ _ _ _ o) by done. simpl.
    by rewrite lookup_insert_ne.
  - by rewrite loop_body_roster_lookup, Hn.
Qed.

Lemma roster_loop_None l st :
  dict st !! None = None →
  dict (fold_left (loop_body true true) l st) !! None = None.
Proof.
  revert st. induction l as [|sd l IH]; intros st Hn; [done|].
  cbn [fold_left]. by apply IH, loop_body_roster_None.
Qed.

Lemma roster_merged_None self l :
  has_master_list self = true →
  student_scores self !! None = None →
  student_scores (merged self l) !! None = None.
Proof.
  revert self. induction l as [|r l IH]; intros self Hm Hn; [done|].
  rewrite merged_cons. apply IH; [by rewrite add_ocr_result_flag|].
  unfold add_ocr_result. destruct (success r); simpl; [|done].
  rewrite Hm. by apply roster_loop_None.
Qed.

Lemma roster_keys_None ml : None ∉ roster_keys ml.
Proof.
  unfold roster_keys. rewrite elem_of_list_to_set, list_elem_of_fmap.
  by intros (s & ? & _).
Qed.

(** [clear] after any batch takes an aggregator that was seeded with no
    entity back to its initial state. *)
Lemma clear_merged_init (master_list : option MasterList) l :
  student_scores (__init__ master_list) = ∅ →
  clear (merged (__init__ master_list) l) = __init__ master_list.
Proof.
  intros He. unfold clear. rewrite merged_flag.
  destruct (init_fresh master_list) as (Hp & _ & _).
  destruct (__init__ master_list) as [d p h]. simpl in *. by subst.
Qed.

End IdentityFacts.

Section IdentityClaims.
Import Aggregator Inputs.

(** C3, as stated, fails: without a roster an observation with neither
    student id nor order is merged, as a new entity under the key [None],
    and counted as matched. *)
Lemma C3_open_mode_merges_anonymous :
  dict (merge_scores false false ∅ [anonymous]) !! None
  = Some {| order := None; name := Some "Zed"; scores := [Some 5%Z] |}
  ∧ matched_count (merge_scores false false ∅ [anonymous]) = 1%nat
  ∧ unmatched_count (merge_scores false false ∅ [anonymous]) = 0%nat
  ∧ student_scores (merged (__init__ None) [sheet "sheet.pdf" [anonymous]]) !! None
    = Some {| order := None; name := Some "Zed"; scores := [Some 5%Z] |}.
Proof. vm_compute. done. Qed.

(** C3 (amended).  An observation with neither student id nor order is
    never fatal, and the loop goes on with the observations after it.  On an
    aggregator built from a roster, at any point of any merge with the
    default [scores_only], it is counted as unmatched and changes no
    entity. *)
Theorem C3_observation_without_identity (sd : ScoreData) :
  sd_student_id sd = None → sd_order sd = None →
  (∀ master_list ocr_results l m u,
     truthy (Some master_list) = true →
     let self := merged (__init__ (Some master_list)) ocr_results in
     let st := fold_left (loop_body true true) l
                 {| dict := student_scores self;
                    matched_count := m; unmatched_count := u |} in
     has_master_list self = true
     ∧ loop_body true true st sd =
       {| dict := dict st; matched_count := matched_count st;
          unmatched_count := S (unmatched_count st) |})
  ∧ (∀ scores_only hml d l1 l2,
       merge_scores scores_only hml d (l1 ++ sd :: l2) =
       fold_left (loop_body scores_only hml) l2
         (loop_body scores_only hml (merge_scores scores_only hml d l1) sd)).
Proof.
  intros Hi Ho.
  assert (Hp : is_privacy sd = false) by (unfold is_privacy; by rewrite Hi, Ho).
  split.
  - intros ml rs l m u Ht self st.
    destruct (init_roster ml Ht) as (Hm & _ & Hd & _).
    split; [unfold self; by rewrite merged_flag|].
    assert (Hn : dict st !! None = None).
    { apply roster_loop_None. simpl. apply roster_merged_None; [done|].
      apply not_elem_of_dom. rewrite Hd. apply roster_keys_None. }
    rewrite loop_body_roster by done. rewrite Hi, Hn.
    by rewrite bool_decide_eq_false_2 by (by intros [? ?]).
  - intros so hml d l1 l2. unfold merge_scores. by rewrite fold_left_app.
Qed.

Lemma C3_observation_without_identity_witness :
  sd_student_id anonymous = None ∧ sd_order anonymous = None
  ∧ truthy (Some roster_A) = true
  ∧ loop_body true true
      {| dict := student_scores (merged (__init__ (Some roster_A)) [sheet_1]);
         matched_count := 0; unmatched_count := 0 |} anonymous =
    {| dict := student_scores (merged (__init__ (Some roster_A)) [sheet_1]);
       matched_count := 0; unmatched_count := 1 |}.
Proof.
  split; [reflexivity|]. split; [reflexivity|]. split; [reflexivity|].
  exact (proj2 (proj1 (C3_observation_without_identity anonymous eq_refl eq_refl)
                  roster_A [sheet_1] [] 0%nat 0%nat eq_refl)).
Defined.

(** C4, as stated, fails with a roster: [clear] also removes the entities
    the roster seeded and keeps the roster flag, so on replay the keyed
    observations of [A] match nothing. *)
Lemma C4_replay_after_clear_rejects_roster_students :
  let fresh := merged (__init__ (Some roster_A)) [sheet_1; sheet_2] in
  let replay := merged (clear fresh) [sheet_1; sheet_2] in
  student_scores fresh !! Some "A"
  = Some {| order := Some 1%Z; name := Some "Ann"; scores := [Some 7%Z; Some 8%Z] |}
  ∧ student_scores replay !! Some "A" = None
  ∧ has_master_list replay = true.
Proof. vm_compute. done. Qed.

(** C4 (amended).  For an aggregator whose construction seeded no entity
    (no master list, or one without students), merging a list of documents,
    clearing, and merging the list again leaves the aggregator, and returns
    the count, that merging the list once on a new aggregator does. *)
Theorem C4_replay_after_clear (master_list : option MasterList)
    (ocr_results : list OcrResult) :
  student_scores (__init__ master_list) = ∅ →
  clear (merged (__init__ master_list) ocr_results) = __init__ master_list
  ∧ batch_add_results (clear (merged (__init__ master_list) ocr_results)) ocr_results
    = batch_add_results (__init__ master_list) ocr_results.
Proof.
  intros He. split; [by apply clear_merged_init|].
  by rewrite clear_merged_init.
Qed.

Lemma C4_replay_after_clear_witness :
  student_scores (__init__ None) = ∅
  ∧ batch_add_results (clear (merged (__init__ None) [sheet_1; sheet_2]))
      [sheet_1; sheet_2]
    = batch_add_results (__init__ None) [sheet_1; sheet_2].
Proof.
  split; [reflexivity|].
  exact (proj2 (C4_replay_after_clear None [sheet_1; sheet_2] eq_refl)).
Defined.

End IdentityClaims.

(** *** Statistics *)

Section StatisticsClaims.
Import Aggregator Inputs.
Implicit Types (self : DataAggregator).

(** The log of processed files grows by the successful documents, which
    are the ones [batch_add_results] counts. *)
Lemma merged_processed_files self l :
  processed_files (merged self l) =
  processed_files self ++ (file_name <$> filter (fun r => success r = true) l).
Proof.
  revert self. induction l as [|r l IH]; intros self.
  - rewrite merged_nil. simpl. by rewrite app_nil_r.
  - rewrite merged_cons, IH, filter_cons. unfold add_ocr_result.
    destruct (success r); simpl; [|done].
    by rewrite <- app_assoc.
Qed.

Lemma batch_success_count self l :
  (batch_add_results self l).2 = length (filter (fun r => success r = true) l).
Proof.
  revert self. induction l as [|r l IH]; intros self; [done|].
  unfold batch_add_results. cbn [fold_left].
  assert (Hok : (add_ocr_result self r None).2 = success r).
  { unfold add_ocr_result. by destruct (success r). }
  destruct (add_ocr_result self r None) as [self' ok]. simpl in Hok. subst ok.
  rewrite batch_counter, filter_cons. simpl. rewrite IH.
  by destruct (success r).
Qed.

(** Failed documents leave the aggregator as it was. *)
Lemma merged_failed self l :
  Forall (fun r => success r = false) l → merged self l = self.
Proof.
  induction 1 as [|r l Hr _ IH]; [done|].
  rewrite merged_cons. unfold add_ocr_result. by rewrite Hr.
Qed.

Lemma no_scores_counts (m : gmap Key StudentInfo) :
  map_Forall (fun _ info => scores info = []) m →
  sum_list ((fun kv => length (scores kv.2)) <$> map_to_list m) = 0%nat
  ∧ filter (fun kv : Key * StudentInfo => length (scores kv.2) = 0%nat) m = m.
Proof.
  intros Hm. split.
  - apply map_Forall_to_list in Hm.
    generalize dependent (map_to_list m). intros l Hl.
    induction Hl as [|[k info] l Hx _ IH]; [done|].
    rewrite fmap_cons. simpl in *. by rewrite Hx, IH.
  - apply map_filter_id. intros k info Hk. simpl. by rewrite (Hm _ _ Hk).
Qed.

(** C5, as stated, fails: an aggregator built from a roster and given no
    document reports one student, and one student with all scores. *)
Lemma C5_roster_without_documents_not_all_zero :
  processed_files (__init__ (Some roster_A)) = []
  ∧ get_statistics binary64 (__init__ (Some roster_A))
    = Ok {| total_students := 1; total_files := 0;
            avg_scores_per_student := 0%float;
            students_with_all_scores := 1;
            stat_processed_files := Some [] |}.
Proof. vm_compute. done. Qed.

(** C5 (amended).  [get_statistics] never raises.  When at least one entity
    exists it returns [total_students] = the number of entities,
    [total_files] = the number of processed files (one per successfully
    merged document), [avg_scores_per_student] = the mean of the entities'
    observation counts rounded to 2 decimals, and [students_with_all_scores]
    = the number of entities with as many observations as processed files.
    When no document has been merged, [total_files] is 0, the mean is 0, and
    [total_students] and [students_with_all_scores] both equal the number
    of entities the roster seeded, which is 0 without a roster.  (In the
    exact reading, rounding to 2 decimals gives a multiple of 1/100 within
    1/200 of its argument.) *)
Theorem C5_get_statistics :
  (∀ A : Arith,
     (∀ self, ∃ stats, get_statistics A self = Ok stats)
     ∧ (∀ self,
          student_scores self ≠ ∅ →
          get_statistics A self =
          Ok {| total_students := size (student_scores self);
                total_files := length (processed_files self);
                avg_scores_per_student :=
                  num_round_ndigits A
                    (num_div A
                       (num_of_nat A
                          (sum_list ((fun kv => length (scores kv.2))
                                     <$> map_to_list (student_scores self))))
                       (num_of_nat A (size (student_scores self)))) 2;
                students_with_all_scores :=
                  size (filter (fun kv : Key * StudentInfo =>
                                  length (scores kv.2) = length (processed_files self))
                               (student_scores self));
                stat_processed_files := Some (processed_files self) |})
     ∧ (∀ self l,
          processed_files (merged self l) =
            processed_files self ++ (file_name <$> filter (fun r => success r = true) l)
          ∧ (batch_add_results self l).2
            = length (filter (fun r => success r = true) l))
     ∧ (∀ master_list l,
          Forall (fun r => success r = false) l →
          let n := size (student_scores (__init__ master_list)) in
          get_statistics A (merged (__init__ master_list) l) =
          match n with
          | O => Ok {| total_students := 0; total_files := 0;
                       avg_scores_per_student := num_zero A;
                       students_with_all_scores := 0;
                       stat_processed_files := None |}
          | S _ => Ok {| total_students := n; total_files := 0;
                         avg_scores_per_student :=
                           num_round_ndigits A
                             (num_div A (num_of_nat A 0) (num_of_nat A n)) 2;
                         students_with_all_scores := n;
                         stat_processed_files := Some [] |}
          end)
     ∧ (∀ master_list,
          truthy master_list = false →
          size (student_scores (__init__ master_list)) = 0%nat))
  ∧ (∀ x : Q,
       ∃ k : Z, num_round_ndigits exact x 2 = (inject_Z k / 100)%Q
                ∧ (Qabs (inject_Z k / 100 - x) <= 1 # 200)%Q)
  ∧ (∀ n : nat,
       (num_round_ndigits exact
          (num_div exact (num_of_nat exact 0) (num_of_nat exact n)) 2 == 0)%Q).
Proof.
  split; [intros A; split_and!|split; [apply round_two_decimals|]].
  - intros self. destruct (get_statistics_total A self) as (stats & H & _). eauto.
  - apply get_statistics_nonempty.
  - intros self l. split; [apply merged_processed_files | apply batch_success_count].
  - intros ml l Hl n. rewrite merged_failed by done.
    destruct (init_fresh ml) as (Hp & _ & Hs).
    destruct n as [|n'] eqn:En.
    + apply get_statistics_empty. by apply map_size_empty_iff.
    + rewrite get_statistics_nonempty
        by (apply map_size_non_empty_iff; fold n; lia).
      destruct (no_scores_counts _ Hs) as [H1 H2].
      rewrite Hp, H1. simpl length. rewrite H2. fold n. by rewrite En.
  - intros ml Ht. by rewrite init_no_roster.
  - intros n. destruct n; reflexivity.
Qed.

End StatisticsClaims.

(** *** What an entity keeps, and what survives [clear] *)

Section EntityFacts.
Import Aggregator.
Implicit Types (d : gmap Key StudentInfo) (key k : Key) (st : Loop).
Implicit Types (sd : ScoreData) (self : DataAggregator) (info : StudentInfo).

(** One observation, seen from an existing entity: its scores are extended
    (by nothing or by the observation's score), and once its order is set,
    order and name stay. *)
Lemma loop_body_entity so hml st sd k info :
  dict st !! k = Some info →
  ∃ info' vs,
    dict (loop_body so hml st sd) !! k = Some info'
    ∧ scores info' = scores info ++ vs
    ∧ (is_Some (order info) → info' = extend vs info).
Proof.
  intros Hk.
  assert (He : entry (dict st) k = info) by (unfold entry; by rewrite Hk).
  assert (Hsame : ∃ info' vs, dict st !! k = Some info'
                    ∧ scores info' = scores info ++ vs
                    ∧ (is_Some (order info) → info' = extend vs info)).
  { exists info, []. rewrite app_nil_r, extend_nil. done. }
  assert (Hins : ∀ key o n v,
            ∃ info' vs,
              <[key := match order (entry (dict st) key) with
                       | None => {| order := o; name := n;
                                    scores := scores (entry (dict st) key) ++ [v] |}
                       | Some _ => extend [v] (entry (dict st) key)
                       end]> (dict st) !! k = Some info'
              ∧ scores info' = scores info ++ vs
              ∧ (is_Some (order info) → info' = extend vs info)).
  { intros key o n v. destruct (decide (key = k)) as [->|Hne].
    - rewrite lookup_insert_eq, He. eexists _, [v]. split; [done|].
      destruct (order info) eqn:Eo; simpl; split; try done; by intros [? ?].
    - by rewrite lookup_insert_ne. }
  destruct (is_privacy sd) eqn:Hp.
  - unfold is_privacy in Hp.
    destruct (sd_student_id sd) eqn:Hi; [done|].
    destruct (sd_order sd) as [o|] eqn:Ho; [|done].
    rewrite (loop_body_privacy _ _ _ _ o) by done. apply Hins.
  - destruct (so && hml) eqn:Hg.
    + apply andb_true_iff in Hg as [-> ->].
      rewrite loop_body_roster_lookup, Hk by done. simpl.
      destruct (decide (sd_student_id sd = k)).
      * by exists (extend [sd_score sd] info), [sd_score sd].
      * exists info, []. rewrite app_nil_r, extend_nil. done.
    + rewrite loop_body_open by done. apply Hins.
Qed.

Lemma loop_entity so hml l st k info :
  dict st !! k = Some info →
  ∃ info' vs,
    dict (fold_left (loop_body so hml) l st) !! k = Some info'
    ∧ scores info' = scores info ++ vs
    ∧ (is_Some (order info) → info' = extend vs info).
Proof.
  revert st info. induction l as [|sd l IH]; intros st info Hk.
  - exists info, []. rewrite app_nil_r, extend_nil. done.
  - cbn [fold_left].
    destruct (loop_body_entity so hml st sd k info Hk) as (i1 & v1 & H1 & S1 & O1).
    destruct (IH _ _ H1) as (i2 & v2 & H2 & S2 & O2).
    exists i2, (v1 ++ v2). split; [done|]. split.
    + by rewrite S2, S1, app_assoc.
    + intros Ho. rewrite <- extend_extend, <- (O1 Ho). apply O2.
      rewrite (O1 Ho). done.
Qed.

(** Across any batch, an entity's scores only grow, and an entity whose
    order is set keeps its order and its name. *)
Lemma merged_entity self l k info :
  student_scores self !! k = Some info →
  ∃ info' vs,
    student_scores (merged self l) !! k = Some info'
    ∧ scores info' = scores info ++ vs
    ∧ (is_Some (order info) → info' = extend vs info).
Proof.
  revert self info. induction l as [|r l IH]; intros self info Hk.
  - exists info, []. rewrite app_nil_r, extend_nil. done.
  - rewrite merged_cons.
    assert (H1 : ∃ i1 v1,
               student_scores (add_ocr_result self r None).1 !! k = Some i1
               ∧ scores i1 = scores info ++ v1
               ∧ (is_Some (order info) → i1 = extend v1 info)).
    { unfold add_ocr_result. destruct (success r); simpl.
      - by apply loop_entity.
      - exists info, []. rewrite app_nil_r, extend_nil. done. }
    destruct H1 as (i1 & v1 & H1 & S1 & O1).
    destruct (IH _ _ H1) as (i2 & v2 & H2 & S2 & O2).
    exists i2, (v1 ++ v2). split; [done|]. split.
    + by rewrite S2, S1, app_assoc.
    + intros Ho. rewrite <- extend_extend, <- (O1 Ho). apply O2.
      rewrite (O1 Ho). done.
Qed.

(** Under a roster, new keys come from privacy-mode observations only. *)
Lemma loop_body_roster_keys st sd k :
  k ∈ dom (dict (loop_body true true st sd)) →
  k ∈ dom (dict st) ∨ privacy_key_of [sd] k.
Proof.
  destruct (is_privacy sd) eqn:Hp.
  - unfold is_privacy in Hp.
    destruct (sd_student_id sd) eqn:Hi; [done|].
    destruct (sd_order sd) as [o|] eqn:Ho; [|done].
    rewrite (loop_body_privacy _ _ _ _ o) by done. simpl.
    rewrite dom_insert_L, elem_of_union, elem_of_singleton.
    intros [->|Hk]; [right | by left].
    exists sd, o. split_and!; try done. apply list_elem_of_singleton. done.
  - intros Hk. left.
    pose proof (roster_loop_dom [sd] st) as Hd. cbn [fold_left] in Hd.
    rewrite Hd in Hk; [done | by constructor].
Qed.

Lemma privacy_key_of_app l1 l2 k :
  privacy_key_of (l1 ++ l2) k ↔ privacy_key_of l1 k ∨ privacy_key_of l2 k.
Proof.
  unfold privacy_key_of. split.
  - intros (sd & o & Hin & H). apply elem_of_app in Hin as [Hin|Hin];
      [left | right]; by exists sd, o.
  - intros [(sd & o & Hin & H)|(sd & o & Hin & H)]; exists sd, o;
      (split; [apply elem_of_app; auto | done]).
Qed.

Lemma roster_loop_keys l st k :
  k ∈ dom (dict (fold_left (loop_body true true) l st)) →
  k ∈ dom (dict st) ∨ privacy_key_of l k.
Proof.
  revert st. induction l as [|sd l IH]; intros st Hk; [by left|].
  cbn [fold_left] in Hk. apply IH in Hk as [Hk|Hk].
  - apply loop_body_roster_keys in Hk as [Hk|Hk]; [by left|].
    right. apply (privacy_key_of_app [sd] l). by left.
  - right. apply (privacy_key_of_app [sd] l). by right.
Qed.

Lemma roster_merged_keys self l k :
  has_master_list self = true →
  k ∈ dom (student_scores (merged self l)) →
  k ∈ dom (student_scores self) ∨ privacy_key_of (merged_observations l) k.
Proof.
  revert self. induction l as [|r l IH]; intros self Hm Hk; [by left|].
  rewrite merged_cons in Hk. rewrite merged_observations_cons.
  apply IH in Hk as [Hk|Hk]; [|right; apply privacy_key_of_app; by right|
                               by rewrite add_ocr_result_flag].
  unfold add_ocr_result in Hk. destruct (success r); simpl in Hk; [|by left].
  rewrite Hm in Hk. apply roster_loop_keys in Hk as [Hk|Hk]; [by left|].
  right. apply privacy_key_of_app. by left.
Qed.

End EntityFacts.

Section EntityClaims.
Import Aggregator Inputs.

(** C6 fails at a student whose first observation has no order: the later
    observation, finding [order] still unset, replaces the name recorded
    first.  (Once an entity's order is set, [merged_entity] shows that its
    order and name stay and its scores only grow.) *)
Lemma C6_late_order_overwrites_name :
  dict (merge_scores false false ∅ (take 1 (data_scores late_order_sheet))) !! Some "A"
  = Some {| order := None; name := Some "Ann"; scores := [Some 1%Z] |}
  ∧ student_scores (merged (__init__ None) [late_order_sheet]) !! Some "A"
    = Some {| order := Some 5%Z; name := Some "Amy"; scores := [Some 1%Z; Some 2%Z] |}.
Proof. vm_compute. done. Qed.


(** C10 fails at a student id that is on no master list and spells the key
    of a privacy-mode entity.  After [clear] on the aggregator built from
    the roster of ["A"], the observation with order 3 and no student id
    creates ["order_3"]; the next one, carrying the student id ["order_3"],
    is matched and appended to it, where the claim has it rejected as
    unmatched.  The roster branch tests the student id against the entity
    map (line 104), while its comment (line 103) and its warning (line 108)
    speak of the master list, which does not hold ["order_3"]; merged on
    its own, the same observation is rejected. *)
Lemma C10_keyed_observation_joins_privacy_entity :
  let cleared := clear (__init__ (Some roster_A)) in
  let st := merge_scores true true (student_scores cleared)
              (data_scores colliding_sheet) in
  roster_keys roster_A = {[ Some "A" ]}
  ∧ has_master_list cleared = true
  ∧ student_scores cleared = ∅
  ∧ dict st !! Some "order_3"
    = Some {| order := Some 3%Z; name := None; scores := [Some 5%Z; Some 6%Z] |}
  ∧ matched_count st = 2%nat
  ∧ unmatched_count st = 0%nat
  ∧ merge_scores true true (student_scores cleared)
      (drop 1 (data_scores colliding_sheet))
    = {| dict := ∅; matched_count := 0; unmatched_count := 1 |}.
Proof.
  cbv zeta. split; [|vm_compute; done].
  unfold roster_keys, roster, roster_A. cbn. apply set_eq. intros k.
  rewrite elem_of_union, elem_of_singleton, elem_of_empty. tauto.
Qed.

(** X27.  [clear] empties the entity map and the log of processed files and
    leaves [has_master_list] as it was.  For an aggregator built from a
    master list the flag is therefore still set after [clear], and stays
    set; [scores_only] still defaults to true, and the roster branch
    creates no entity: an observation that carries a student id under
    which the map holds no entity is counted as unmatched and changes
    nothing.  The entities that exist after [clear] are those that
    privacy-mode observations merged since have created; when the documents
    merged after [clear] hold no privacy-mode observation, every
    observation is rejected and no entity exists. *)
Theorem clear_keeps_master_flag (master_list : MasterList)
    (before after : list OcrResult) :
  truthy (Some master_list) = true →
  let cleared := clear (merged (__init__ (Some master_list)) before) in
  let self' := merged cleared after in
  cleared = {| student_scores := ∅; processed_files := [];
               has_master_list := true |}
  ∧ has_master_list self' = true
  ∧ (∀ r, (add_ocr_result self' r None).1 = (add_ocr_result self' r (Some true)).1)
  ∧ (∀ k, k ∈ dom (student_scores self') →
          privacy_key_of (merged_observations after) k)
  ∧ (∀ st sd, is_Some (sd_student_id sd) →
              sd_student_id sd ∉ dom (dict st) →
              loop_body true true st sd =
              {| dict := dict st; matched_count := matched_count st;
                 unmatched_count := S (unmatched_count st) |})
  ∧ (Forall (fun sd => is_privacy sd = false) (merged_observations after) →
     student_scores self' = ∅).
Proof.
  intros Ht cleared self'.
  destruct (init_roster master_list Ht) as (Hm & _ & _ & _).
  assert (Hc : cleared = {| student_scores := ∅; processed_files := [];
                            has_master_list := true |}).
  { unfold cleared, clear. by rewrite merged_flag, Hm. }
  assert (Hf : has_master_list self' = true).
  { unfold self'. by rewrite merged_flag, Hc. }
  split_and!; [done | done | | | |].
  - intros r. unfold add_ocr_result. by rewrite Hf.
  - intros k Hk. unfold self' in Hk.
    apply roster_merged_keys in Hk as [Hk|Hk]; [|done|by rewrite Hc].
    rewrite Hc in Hk. simpl in Hk. by rewrite dom_empty_L in Hk.
  - intros st sd [id Hi] Hd.
    assert (Hp : is_privacy sd = false) by (unfold is_privacy; by rewrite Hi).
    rewrite loop_body_roster by done.
    apply not_elem_of_dom in Hd. rewrite Hd.
    by rewrite bool_decide_eq_false_2 by (by intros [? ?]).
  - intros Hp. apply map_eq. intros k. unfold self'.
    rewrite roster_merged_lookup by (done || by rewrite Hc).
    by rewrite Hc.
Qed.

Lemma clear_keeps_master_flag_witness :
  truthy (Some roster_A) = true
  ∧ has_master_list
      (merged (clear (merged (__init__ (Some roster_A)) [sheet_1])) [sheet_2])
    = true.
Proof.
  split; [reflexivity|].
  exact (proj1 (proj2 (clear_keeps_master_flag roster_A [sheet_1] [sheet_2] eq_refl))).
Defined.

End EntityClaims.

(** ** The tabular emitter *)

Section CsvFacts.
Import CsvWriter.

Lemma pretty_N_go_nonempty (x : N) (s : string) :
  s ≠ "" → pretty_N_go x s ≠ "".
Proof.
  revert s. induction (N.lt_wf_0 x) as [x _ IH]; intros s Hs.
  assert (x = 0 ∨ 0 < x)%N as [->|Hx] by lia.
  - by rewrite pretty_N_go_0.
  - rewrite pretty_N_go_step by done. apply IH; [by apply N.div_lt | done].
Qed.

(** The decimal text of an integer is never empty. *)
Lemma pretty_Z_nonempty (z : Z) : pretty z ≠ "".
Proof.
  destruct z as [|p|p]; [done | | done].
  unfold pretty, pretty_Z, pretty, pretty_positive, pretty, pretty_N.
  rewrite decide_False by done.
  rewrite pretty_N_go_step by done. by apply pretty_N_go_nonempty.
Qed.

Lemma max_scores_ge (data : list StudentRow) (s : StudentRow) :
  s ∈ data → length (scores s) ≤ max_scores data.
Proof.
  unfold max_scores.
  induction 1 as [s data|s s' data _ IH]; cbn [max_list_with]; lia.
Qed.

Lemma max_scores_attained (data : list StudentRow) :
  data ≠ [] → ∃ s, s ∈ data ∧ length (scores s) = max_scores data.
Proof.
  unfold max_scores. induction data as [|s data IH]; [done|]. intros _.
  destruct data as [|s' data'].
  - exists s. split; [left|]. simpl. lia.
  - destruct IH as (t & Ht & Hl); [done|].
    cbn [max_list_with] in *. rewrite <- Hl.
    destruct (Nat.max_spec (length (scores s)) (length (scores t))) as [[_ ->]|[_ ->]].
    + exists t. split; [by right | done].
    + exists s. split; [left | done].
Qed.

(** A student's row: the identity cells, the scores, and the padding. *)
Lemma student_row_eq (n : nat) (s : StudentRow) :
  student_row n s =
  [cell_of_int (order s); cell_of_str (student_id s); cell_of_str (name s)]
  ++ (score_cell <$> scores s) ++ replicate (n - length (scores s)) (CStr "").
Proof.
  unfold student_row. destruct (Nat.ltb_spec (length (scores s)) n) as [H|H].
  - by rewrite <- app_assoc.
  - replace (n - length (scores s))%nat with 0%nat by lia. simpl.
    by rewrite app_nil_r.
Qed.

Lemma student_row_length (n : nat) (s : StudentRow) :
  length (scores s) ≤ n → length (student_row n s) = (3 + n)%nat.
Proof.
  intros H. rewrite student_row_eq.
  rewrite length_app, length_app, length_fmap, length_replicate. simpl. lia.
Qed.

(** C9.  On a non-empty list [write] returns [True] and writes the header
    and then one row per entity, in input order; each row (and the header)
    has three identity cells followed by [max_scores] score cells, where
    [max_scores] is the largest number of scores any entity has; a row is
    the identity cells, the entity's scores, and empty cells up to
    [max_scores]; a null score is the empty cell [''], which differs from
    the cell of any present score, whose text is never empty.  On the empty
    list it returns [False] and writes nothing. *)
Theorem C9_write_rectangular (student : StudentRow) (rest : list StudentRow)
    (score_column_prefix : string) :
  let data := student :: rest in
  let n := max_scores data in
  write [] score_column_prefix = (false, None)
  ∧ (∀ s, s ∈ data → length (scores s) ≤ n)
  ∧ (∃ s, s ∈ data ∧ length (scores s) = n)
  ∧ (∃ header rows,
       write data score_column_prefix = (true, Some (header :: rows))
       ∧ length header = (3 + n)%nat
       ∧ length rows = length data
       ∧ (∀ i s, data !! i = Some s →
            rows !! i =
            Some ([cell_of_int (order s); cell_of_str (student_id s);
                   cell_of_str (name s)]
                  ++ (score_cell <$> scores s)
                  ++ replicate (n - length (scores s)) (CStr "")))
       ∧ Forall (fun row => length row = (3 + n)%nat) rows)
  ∧ (score_cell None = CStr ""
     ∧ ∀ z, score_cell (Some z) = CInt z
            ∧ csv_field (score_cell (Some z)) ≠ csv_field (score_cell None)).
Proof.
  intros data n. split_and!.
  - done.
  - intros s. apply max_scores_ge.
  - by apply max_scores_attained.
  - exists (headers score_column_prefix n), (student_row n <$> data).
    split_and!.
    + done.
    + unfold headers. rewrite length_app, length_fmap, length_seq. done.
    + by rewrite length_fmap.
    + intros i s Hi. rewrite list_lookup_fmap, Hi. simpl.
      by rewrite student_row_eq.
    + apply Forall_fmap, Forall_forall. intros s Hs. simpl.
      apply student_row_length. by apply max_scores_ge.
  - done.
  - intros z. split; [done|]. simpl. apply pretty_Z_nonempty.
Qed.

End CsvFacts.

(** ** The dict in iteration order *)

Section OrderedFacts.
Import Aggregator.
Implicit Types (d : Ordered.Items) (key k : Key) (info : StudentInfo).
Implicit Types (sd : ScoreData) (st : Ordered.Loop).

Lemma ordered_lookup d key : Ordered.lookup key d = Ordered.to_map d !! key.
Proof.
  unfold Ordered.to_map. induction d as [|[k info] d IH]; [done|].
  cbn [Ordered.lookup list_to_map foldr uncurry fst snd]. destruct (decide (k = key)) as [->|Hne].
  - by rewrite lookup_insert_eq.
  - by rewrite lookup_insert_ne.
Qed.

Lemma ordered_setitem d key info :
  Ordered.to_map (Ordered.setitem key info d) = <[key := info]> (Ordered.to_map d).
Proof.
  unfold Ordered.to_map. induction d as [|[k old] d IH]; [done|].
  cbn [Ordered.setitem]. destruct (decide (k = key)) as [->|Hne].
  - cbn [list_to_map foldr uncurry fst snd]. by rewrite insert_insert_eq.
  - cbn [list_to_map foldr uncurry fst snd]. fold (list_to_map (M := gmap Key StudentInfo) d).
    rewrite IH. by apply insert_insert_ne.
Qed.

Lemma ordered_setitem_keys d key info :
  (Ordered.setitem key info d).*1 = if decide (key ∈ d.*1) then d.*1 else d.*1 ++ [key].
Proof.
  induction d as [|[k old] d IH].
  - cbn. destruct (decide (key ∈ [])) as [H|H]; [by apply elem_of_nil in H|done].
  - cbn [Ordered.setitem]. destruct (decide (k = key)) as [->|Hne].
    + cbn. rewrite decide_True; [done|]. apply list_elem_of_here.
    + cbn [fmap list_fmap fst]. cbn. rewrite IH.
      destruct (decide (key ∈ d.*1)) as [Hin|Hin].
      * rewrite decide_True; [done|]. by apply list_elem_of_further.
      * rewrite decide_False; [done|]. intros [?|?]%elem_of_cons; [by subst|done].
Qed.

Lemma ordered_getitem d key :
  (Ordered.getitem key d).1 = (getitem key (Ordered.to_map d)).1
  ∧ Ordered.to_map (Ordered.getitem key d).2 = (getitem key (Ordered.to_map d)).2.
Proof.
  unfold Ordered.getitem, getitem. rewrite ordered_lookup.
  destruct (Ordered.to_map d !! key); [done|]. split; [done|]. apply ordered_setitem.
Qed.

Lemma ordered_set_order d key v :
  Ordered.to_map (Ordered.set_order key v d) = set_order key v (Ordered.to_map d).
Proof.
  unfold Ordered.set_order, set_order.
  destruct (ordered_getitem d key) as [H1 H2].
  destruct (Ordered.getitem key d) as [info d'], (getitem key (Ordered.to_map d)) as [info' m'].
  simpl in *. subst. apply ordered_setitem.
Qed.

Lemma ordered_set_name d key v :
  Ordered.to_map (Ordered.set_name key v d) = set_name key v (Ordered.to_map d).
Proof.
  unfold Ordered.set_name, set_name.
  destruct (ordered_getitem d key) as [H1 H2].
  destruct (Ordered.getitem key d) as [info d'], (getitem key (Ordered.to_map d)) as [info' m'].
  simpl in *. subst. apply ordered_setitem.
Qed.

Lemma ordered_append_score d key v :
  Ordered.to_map (Ordered.append_score key v d) = append_score key v (Ordered.to_map d).
Proof.
  unfold Ordered.append_score, append_score.
  destruct (ordered_getitem d key) as [H1 H2].
  destruct (Ordered.getitem key d) as [info d'], (getitem key (Ordered.to_map d)) as [info' m'].
  simpl in *. subst. apply ordered_setitem.
Qed.

Lemma ordered_record_first d key o n :
  Ordered.to_map (Ordered.record_first key o n d) = record_first key o n (Ordered.to_map d).
Proof.
  unfold Ordered.record_first, record_first.
  destruct (ordered_getitem d key) as [H1 H2].
  destruct (Ordered.getitem key d) as [info d'], (getitem key (Ordered.to_map d)) as [info' m'].
  simpl in *. subst. destruct (order info'); [done|].
  by rewrite ordered_set_name, ordered_set_order.
Qed.

Lemma ordered_loop_body so hml st sd :
  Ordered.forget_loop (Ordered.loop_body so hml st sd)
  = loop_body so hml (Ordered.forget_loop st) sd.
Proof.
  unfold Ordered.forget_loop, Ordered.loop_body, loop_body.
  cbn [dict matched_count unmatched_count].
  rewrite ordered_lookup.
  destruct (sd_student_id sd) as [id|], (sd_order sd) as [o|];
    repeat match goal with
    | |- context [if ?b then _ else _] => destruct b
    end;
    cbn [Ordered.dict Ordered.matched_count Ordered.unmatched_count];
    rewrite ?ordered_append_score, ?ordered_record_first; done.
Qed.

Lemma ordered_loop so hml l st :
  Ordered.forget_loop (fold_left (Ordered.loop_body so hml) l st)
  = fold_left (loop_body so hml) l (Ordered.forget_loop st).
Proof.
  revert st. induction l as [|sd l IH]; intros st; [done|].
  cbn [fold_left]. by rewrite IH, ordered_loop_body.
Qed.

Lemma ordered_add_ocr_result self r so :
  Ordered.forget (Ordered.add_ocr_result self r so).1
  = (add_ocr_result (Ordered.forget self) r so).1
  ∧ (Ordered.add_ocr_result self r so).2 = (add_ocr_result (Ordered.forget self) r so).2.
Proof.
  unfold Ordered.add_ocr_result, add_ocr_result.
  destruct (success r); cbn [negb]; [|done].
  split; [|done]. unfold Ordered.forget at 1. cbn [fst Ordered.student_scores
    Ordered.processed_files Ordered.has_master_list].
  unfold Ordered.merge_scores, merge_scores.
  pose proof (ordered_loop (default (Ordered.has_master_list self) so)
                (Ordered.has_master_list self) (data_scores r)
                {| Ordered.dict := Ordered.student_scores self;
                   Ordered.matched_count := 0; Ordered.unmatched_count := 0 |}) as H.
  unfold Ordered.forget_loop at 2 in H.
  cbn [Ordered.dict Ordered.matched_count Ordered.unmatched_count] in H.
  cbn [Ordered.forget student_scores processed_files has_master_list fst].
  rewrite <- H. done.
Qed.

Lemma ordered_batch l self c :
  Ordered.forget
    (fold_left (fun '(self, success_count) result =>
                  let '(self, ok) := Ordered.add_ocr_result self result None in
                  (self, if ok then S success_count else success_count))
               l (self, c)).1
  = merged (Ordered.forget self) l.
Proof.
  revert self c. induction l as [|r l IH]; intros self c; [done|].
  cbn [fold_left]. rewrite merged_cons.
  destruct (ordered_add_ocr_result self r None) as [H1 H2].
  destruct (Ordered.add_ocr_result self r None) as [self' ok].
  rewrite IH. f_equal. exact H1.
Qed.

Lemma ordered_load l d :
  Ordered.to_map (fold_left Ordered.load_student l d)
  = fold_left load_student l (Ordered.to_map d).
Proof.
  revert d. induction l as [|s l IH]; intros d; [done|].
  cbn [fold_left]. rewrite IH. f_equal.
  unfold Ordered.load_student, load_student.
  by rewrite ordered_set_name, ordered_set_order.
Qed.

Lemma ordered_init master_list :
  Ordered.forget (Ordered.__init__ master_list) = __init__ master_list.
Proof.
  unfold Ordered.__init__, __init__. destruct master_list as [ml|]; [|done].
  destruct (truthy (Some ml)); [|done].
  unfold Ordered.forget, Ordered._load_master_list, _load_master_list.
  cbn [Ordered.student_scores Ordered.processed_files Ordered.has_master_list
       student_scores processed_files has_master_list].
  by rewrite ordered_load.
Qed.

(** What [aggregate_ocr_results] leaves, without the order of the dict, is
    the aggregator of the unordered model. *)
Lemma ordered_aggregate l master_list :
  Ordered.forget (Ordered.aggregate_ocr_results l master_list)
  = merged (__init__ master_list) l.
Proof.
  unfold Ordered.aggregate_ocr_results, Ordered.batch_add_results.
  by rewrite ordered_batch, ordered_init.
Qed.

End OrderedFacts.

(** ** [list.sort(key=...)] on keys that are an int or None *)

Section SortFacts.
Context {T : Type} (key : T → option Z).
Implicit Types (x y : T) (l s r : list T).

Lemma insert_by_some x s :
  is_Some (key x) → Forall (fun y => is_Some (key y)) s →
  ∃ r, insert_by key x s = Return r
       ∧ r ≡ₚ x :: s
       ∧ (∀ o, filter (fun y => key y = Some o) r = filter (fun y => key y = Some o) (x :: s))
       ∧ (Sorted (fun a b => key_le (key a) (key b)) s →
          Sorted (fun a b => key_le (key a) (key b)) r).
Proof.
  intros [kx Hx]. induction s as [|y s IH]; intros Hs.
  - exists [x]. split_and!; [done|done|done|]. intros _. repeat constructor.
  - apply Forall_cons in Hs as [[ky Hy] Hs]. destruct (IH Hs) as (r & Hr & Hp & Hf & Hsort).
    cbn [insert_by]. rewrite Hy, Hx. cbn [lt_int_or_none and_then].
    destruct (Z.ltb_spec ky kx) as [Hlt|Hge].
    + rewrite Hr. cbn [and_then]. exists (y :: r). split_and!; [done| | |].
      * rewrite Hp. apply perm_swap.
      * intros o. rewrite !filter_cons. rewrite Hf. rewrite filter_cons.
        destruct (decide (key y = Some o)) as [E1|E1], (decide (key x = Some o)) as [E2|E2];
          try done.
        rewrite Hy in E1. rewrite Hx in E2. simplify_eq. lia.
      * intros Hso. apply Sorted_inv in Hso as [Hso Hhd]. constructor; [by apply Hsort|].
        destruct r as [|z r]; [constructor|]. constructor.
        assert (z ∈ x :: s) as Hz by (rewrite <- Hp; apply list_elem_of_here).
        apply elem_of_cons in Hz as [->|Hz].
        -- unfold key_le. rewrite Hy, Hx. lia.
        -- destruct s as [|z' s']; [by apply elem_of_nil in Hz|].
           cbn [insert_by] in Hr.
           apply Forall_cons in Hs as [[kz' Hz'] Hs].
           rewrite Hz', Hx in Hr. cbn [lt_int_or_none and_then] in Hr.
           destruct (kz' <? kx)%Z.
           ++ destruct (insert_by key x s'); cbn [and_then] in Hr; [|done].
              injection Hr as <- <-. by apply HdRel_inv in Hhd.
           ++ injection Hr as <- <-. unfold key_le. rewrite Hy, Hx. lia.
    + exists (x :: y :: s). split_and!; [done|done|done|].
      intros Hso. constructor; [done|]. constructor. unfold key_le. rewrite Hy, Hx. lia.
Qed.

Lemma insert_by_none x s :
  s ≠ [] → key x = None ∨ (∃ y, head s = Some y ∧ key y = None) →
  insert_by key x s = Throw TypeError.
Proof.
  destruct s as [|y s]; [done|]. intros _ H. cbn [insert_by].
  destruct H as [Hx|(y' & Hy' & Hy)].
  - rewrite Hx. by destruct (key y).
  - cbn in Hy'. injection Hy' as ->. by rewrite Hy.
Qed.

(** Keys that are all ints: the sort returns the stable ascending
    arrangement. *)
Lemma sort_by_some l :
  Forall (fun y => is_Some (key y)) l →
  ∃ r, sort_by key l = Return r
       ∧ r ≡ₚ l
       ∧ (∀ o, filter (fun y => key y = Some o) r = filter (fun y => key y = Some o) l)
       ∧ Sorted (fun a b => key_le (key a) (key b)) r.
Proof.
  induction l as [|x l IH]; intros Hl.
  - exists []. split_and!; [done|done|done|constructor].
  - apply Forall_cons in Hl as [Hx Hl]. destruct (IH Hl) as (s & Hs & Hp & Hf & Hso).
    assert (Forall (fun y => is_Some (key y)) s) as Hs'.
    { rewrite Forall_forall in Hl |- *. intros y Hy. apply Hl. by rewrite <- Hp. }
    destruct (insert_by_some x s Hx Hs') as (r & Hr & Hp' & Hf' & Hso').
    exists r. split_and!.
    + unfold sort_by in *. cbn [foldr]. by rewrite Hs.
    + by rewrite Hp', Hp.
    + intros o. rewrite Hf', !filter_cons, Hf. done.
    + by apply Hso'.
Qed.

(** A list of one element is returned as it is, whatever its key. *)
Lemma sort_by_singleton x : sort_by key [x] = Return [x].
Proof. done. Qed.

(** Two elements or more, one of them with the key None: TypeError. *)
Lemma sort_by_none l :
  (2 ≤ length l)%nat → Exists (fun y => key y = None) l →
  sort_by key l = Throw TypeError.
Proof.
  induction l as [|x l IH]; intros Hlen Hex; [by apply Exists_nil in Hex|].
  unfold sort_by in *. cbn [foldr].
  destruct l as [|y l]; [simpl in Hlen; lia|].
  destruct (decide (Exists (fun y => key y = None) (y :: l))) as [Hin|Hnot].
  - destruct l as [|z l].
    + cbn [foldr and_then insert_by]. apply Exists_cons in Hin as [Hy|Hin];
        [|by apply Exists_nil in Hin].
      rewrite Hy. done.
    + rewrite IH; [done|simpl; lia|done].
  - apply Exists_cons in Hex as [Hx|Hex]; [|done].
    apply not_Exists_Forall in Hnot; [|intros ?; apply _].
    assert (Forall (fun y => is_Some (key y)) (y :: l)) as Hsome.
    { eapply Forall_impl; [exact Hnot|]. intros z Hz. simpl in Hz.
      destruct (key z); [by eexists|done]. }
    destruct (sort_by_some (y :: l) Hsome) as (r & Hr & Hp & _).
    unfold sort_by in Hr. rewrite Hr. cbn [and_then].
    apply insert_by_none; [|by left].
    intros ->. apply Permutation_nil_l in Hp. done.
Qed.

End SortFacts.

(** ** Merging without a roster *)

Section OpenFacts.
Import Aggregator.
Implicit Types (d : gmap Key StudentInfo) (key k : Key) (st : Loop).
Implicit Types (sd : ScoreData) (self : DataAggregator) (info : StudentInfo).

Lemma target_key_open sd :
  is_privacy sd = false → Ordered.target_key sd = sd_student_id sd.
Proof.
  unfold is_privacy, Ordered.target_key.
  by destruct (sd_student_id sd), (sd_order sd).
Qed.

Lemma target_key_privacy sd o :
  sd_student_id sd = None → sd_order sd = Some o → Ordered.target_key sd = order_key o.
Proof. unfold Ordered.target_key. by intros -> ->. Qed.

Lemma open_loop_body so hml st sd :
  so && hml = false →
  loop_body so hml st sd =
  {| dict := <[Ordered.target_key sd :=
                 Ordered.absorb (entry (dict st) (Ordered.target_key sd)) sd]> (dict st);
     matched_count := S (matched_count st);
     unmatched_count := unmatched_count st |}.
Proof.
  intros Hso. unfold Ordered.absorb, Ordered.recorded_name.
  destruct (is_privacy sd) eqn:Hp.
  - pose proof Hp as Hp'. unfold is_privacy in Hp'.
    destruct (sd_student_id sd) as [id|] eqn:Hid; [done|].
    destruct (sd_order sd) as [o|] eqn:Ho; [|done].
    rewrite (target_key_privacy sd o Hid Ho).
    rewrite (loop_body_privacy so hml st sd o Hid Ho). done.
  - rewrite (target_key_open sd Hp).
    rewrite (loop_body_open so hml st sd Hso Hp). done.
Qed.

Lemma observed_cons k sd l :
  Ordered.observed k (sd :: l) =
  (if decide (Ordered.target_key sd = k) then [sd] else []) ++ Ordered.observed k l.
Proof.
  unfold Ordered.observed. rewrite filter_cons.
  by destruct (decide (Ordered.target_key sd = k)).
Qed.

Lemma observed_app k l1 l2 :
  Ordered.observed k (l1 ++ l2) = Ordered.observed k l1 ++ Ordered.observed k l2.
Proof. unfold Ordered.observed. by rewrite filter_app. Qed.

(** The entity under [k] after the loop: untouched when nothing was stored
    under [k], and the observations absorbed one by one otherwise. *)
Lemma open_loop_lookup so hml l st k :
  so && hml = false →
  dict (fold_left (loop_body so hml) l st) !! k =
  match Ordered.observed k l with
  | [] => dict st !! k
  | _ :: _ => Some (fold_left Ordered.absorb (Ordered.observed k l) (entry (dict st) k))
  end.
Proof.
  intros Hso. revert st. induction l as [|sd l IH]; intros st; [done|].
  cbn [fold_left]. rewrite IH, observed_cons, (open_loop_body so hml st sd Hso).
  cbn [dict]. destruct (decide (Ordered.target_key sd = k)) as [->|Hne].
  - cbn [app fold_left]. rewrite entry_insert, lookup_insert_eq.
    by destruct (Ordered.observed _ l).
  - cbn [app]. unfold entry. rewrite lookup_insert_ne; [|done]. done.
Qed.

Lemma absorb_scores l info :
  scores (fold_left Ordered.absorb l info) = scores info ++ (sd_score <$> l).
Proof.
  revert info. induction l as [|sd l IH]; intros info; [by rewrite app_nil_r|].
  cbn [fold_left]. rewrite IH. unfold Ordered.absorb.
  destruct (order info); cbn; by rewrite <- app_assoc.
Qed.

Lemma absorb_known l info :
  is_Some (order info) → fold_left Ordered.absorb l info = extend (sd_score <$> l) info.
Proof.
  revert info. induction l as [|sd l IH]; intros info Ho; [by rewrite extend_nil|].
  cbn [fold_left]. destruct Ho as [o Ho].
  assert (Ordered.absorb info sd = extend [sd_score sd] info) as ->.
  { unfold Ordered.absorb. by rewrite Ho. }
  rewrite IH; [|by (cbn; rewrite Ho)]. by rewrite extend_extend.
Qed.

(** The order and the name an entity ends with, from the default entry: those
    of the first observation that carries an order; with no such observation,
    no order and the name of the last observation. *)
Lemma absorb_identity l info :
  order info = None →
  match Ordered.first_with_order l with
  | Some sd =>
      order (fold_left Ordered.absorb l info) = sd_order sd
      ∧ name (fold_left Ordered.absorb l info) = Ordered.recorded_name sd
  | None =>
      order (fold_left Ordered.absorb l info) = None
      ∧ name (fold_left Ordered.absorb l info) =
        match last l with
        | Some sd => Ordered.recorded_name sd
        | None => name info
        end
  end.
Proof.
  revert info. induction l as [|sd l IH]; intros info Ho; [done|].
  cbn [fold_left]. unfold Ordered.first_with_order. rewrite filter_cons.
  destruct (decide (is_Some (sd_order sd))) as [Hs|Hn].
  - cbn [head]. rewrite absorb_known.
    + unfold Ordered.absorb. rewrite Ho. done.
    + unfold Ordered.absorb. rewrite Ho. done.
  - assert (sd_order sd = None) as Hnone.
    { destruct (sd_order sd); [|done]. destruct Hn. by eexists. }
    specialize (IH (Ordered.absorb info sd)).
    assert (order (Ordered.absorb info sd) = None) as Ho'.
    { unfold Ordered.absorb. by rewrite Ho. }
    specialize (IH Ho'). unfold Ordered.first_with_order in IH.
    destruct (head (filter _ l)) as [sd'|]; [done|].
    destruct IH as [IH1 IH2]. split; [done|]. rewrite IH2.
    destruct l as [|sd2 l].
    + cbn. unfold Ordered.absorb, Ordered.recorded_name. rewrite Ho. done.
    + change (last (sd :: sd2 :: l)) with (last (sd2 :: l)).
      destruct (last (sd2 :: l)) eqn:E; [done|]. by apply last_None in E.
Qed.

(** The dict a loop leaves does not depend on the counters it starts from. *)
Lemma loop_dict_counters so hml l st st' :
  dict st = dict st' →
  dict (fold_left (loop_body so hml) l st) = dict (fold_left (loop_body so hml) l st').
Proof.
  revert st st'. induction l as [|sd l IH]; intros st st' E; [done|].
  cbn [fold_left]. apply IH. unfold loop_body. rewrite E.
  destruct (sd_student_id sd), (sd_order sd);
    repeat match goal with
    | |- context [if ?b then _ else _] => destruct b
    end; done.
Qed.

(** A batch is one loop over the observations of its successful documents. *)
Lemma merged_one_loop self l :
  student_scores (merged self l) =
  dict (fold_left (loop_body (has_master_list self) (has_master_list self))
          (merged_observations l)
          {| dict := student_scores self; matched_count := 0; unmatched_count := 0 |}).
Proof.
  revert self. induction l as [|r l IH]; intros self; [done|].
  rewrite merged_cons, merged_observations_cons, IH, add_ocr_result_flag.
  unfold add_ocr_result. destruct (success r); cbn [negb fst]; [|done].
  rewrite fold_left_app. cbn [student_scores default has_master_list].
  apply loop_dict_counters. done.
Qed.

Lemma open_merged_lookup self l k :
  has_master_list self = false →
  student_scores (merged self l) !! k =
  match Ordered.observed k (merged_observations l) with
  | [] => student_scores self !! k
  | _ :: _ =>
      Some (fold_left Ordered.absorb (Ordered.observed k (merged_observations l))
              (entry (student_scores self) k))
  end.
Proof.
  intros Hf. rewrite merged_one_loop, Hf. by rewrite open_loop_lookup.
Qed.

End OpenFacts.

(** ** The iteration order of the dict *)

Section KeyOrderFacts.
Import Aggregator.
Implicit Types (d : Ordered.Items) (key k : Key) (info : StudentInfo).
Implicit Types (sd : ScoreData) (st : Ordered.Loop) (ks : list Key).

Lemma touch_idemp key ks : Ordered.touch key (Ordered.touch key ks) = Ordered.touch key ks.
Proof.
  unfold Ordered.touch. destruct (decide (key ∈ ks)) as [Hin|Hin].
  - by rewrite decide_True.
  - rewrite decide_True; [done|]. apply elem_of_app. right. apply list_elem_of_here.
Qed.

Lemma touch_NoDup key ks : NoDup ks → NoDup (Ordered.touch key ks).
Proof.
  intros Hnd. unfold Ordered.touch. destruct (decide (key ∈ ks)); [done|].
  apply NoDup_app. split_and!; [done| |apply NoDup_singleton].
  intros x Hx ->%list_elem_of_singleton. done.
Qed.

Lemma keys_setitem d key info :
  (Ordered.setitem key info d).*1 = Ordered.touch key d.*1.
Proof. apply ordered_setitem_keys. Qed.

Lemma lookup_keys d key : is_Some (Ordered.lookup key d) ↔ key ∈ d.*1.
Proof.
  induction d as [|[k info] d IH]; cbn [Ordered.lookup].
  - split; [by intros [? ?]|by intros ?%elem_of_nil].
  - rewrite fmap_cons, elem_of_cons. cbn [fst]. destruct (decide (k = key)) as [->|Hne].
    + split; [by left|by eexists].
    + rewrite IH. split; [by right|]. by intros [?|?]; [subst|].
Qed.

Lemma keys_getitem d key : (Ordered.getitem key d).2.*1 = Ordered.touch key d.*1.
Proof.
  unfold Ordered.getitem. destruct (Ordered.lookup key d) eqn:E.
  - cbn [snd]. unfold Ordered.touch. rewrite decide_True; [done|].
    apply lookup_keys. by rewrite E.
  - cbn [snd]. apply keys_setitem.
Qed.

Lemma keys_set_order d key v : (Ordered.set_order key v d).*1 = Ordered.touch key d.*1.
Proof.
  unfold Ordered.set_order. pose proof (keys_getitem d key) as H.
  destruct (Ordered.getitem key d) as [info d']. cbn [snd] in H.
  by rewrite keys_setitem, H, touch_idemp.
Qed.

Lemma keys_set_name d key v : (Ordered.set_name key v d).*1 = Ordered.touch key d.*1.
Proof.
  unfold Ordered.set_name. pose proof (keys_getitem d key) as H.
  destruct (Ordered.getitem key d) as [info d']. cbn [snd] in H.
  by rewrite keys_setitem, H, touch_idemp.
Qed.

Lemma keys_append_score d key v :
  (Ordered.append_score key v d).*1 = Ordered.touch key d.*1.
Proof.
  unfold Ordered.append_score. pose proof (keys_getitem d key) as H.
  destruct (Ordered.getitem key d) as [info d']. cbn [snd] in H.
  by rewrite keys_setitem, H, touch_idemp.
Qed.

Lemma keys_record_first d key o n :
  (Ordered.record_first key o n d).*1 = Ordered.touch key d.*1.
Proof.
  unfold Ordered.record_first. pose proof (keys_getitem d key) as H.
  destruct (Ordered.getitem key d) as [info d']. cbn [snd] in H.
  destruct (order info); [done|].
  by rewrite keys_set_name, keys_set_order, H, !touch_idemp.
Qed.

(** With no roster enforced, every observation stores under its key. *)
Lemma keys_loop_body_open so hml st sd :
  so && hml = false →
  (Ordered.dict (Ordered.loop_body so hml st sd)).*1
  = Ordered.touch (Ordered.target_key sd) (Ordered.dict st).*1.
Proof.
  intros Hso. unfold Ordered.loop_body, Ordered.target_key. rewrite Hso.
  destruct (sd_student_id sd) as [id|], (sd_order sd) as [o|];
    cbn [Ordered.dict];
    by rewrite keys_append_score, keys_record_first, touch_idemp.
Qed.

Lemma keys_loop_open so hml l st :
  so && hml = false →
  (Ordered.dict (fold_left (Ordered.loop_body so hml) l st)).*1
  = fold_left (fun ks sd => Ordered.touch (Ordered.target_key sd) ks) l (Ordered.dict st).*1.
Proof.
  intros Hso. revert st. induction l as [|sd l IH]; intros st; [done|].
  cbn [fold_left]. by rewrite IH, keys_loop_body_open.
Qed.

Lemma filter_filter_ext {T : Type} (P Q R : T → Prop)
    `{!∀ x, Decision (P x)} `{!∀ x, Decision (Q x)} `{!∀ x, Decision (R x)}
    (l : list T) :
  (∀ x, P x ∧ Q x ↔ R x) → filter P (filter Q l) = filter R l.
Proof.
  intros HPQ. induction l as [|x l IH]; [done|].
  rewrite (filter_cons Q), (filter_cons R).
  destruct (decide (Q x)) as [HQ|HQ].
  - rewrite filter_cons. destruct (decide (P x)) as [HP|HP].
    + rewrite decide_True; [by rewrite IH|]. by apply HPQ.
    + rewrite decide_False; [by rewrite IH|]. intros HR%HPQ. tauto.
  - rewrite decide_False; [by rewrite IH|]. intros HR%HPQ. tauto.
Qed.

(** Storing key after key leaves the old keys first, then the new ones in
    the order of their first occurrence. *)
Lemma touch_first_occurrences (l : list Key) ks :
  fold_left (fun ks k => Ordered.touch k ks) l ks
  = ks ++ filter (fun k => k ∉ ks) (Ordered.first_occurrences l).
Proof.
  revert ks. induction l as [|k l IH]; intros ks; [by rewrite app_nil_r|].
  cbn [fold_left Ordered.first_occurrences]. rewrite IH, filter_cons.
  unfold Ordered.touch. destruct (decide (k ∈ ks)) as [Hin|Hin].
  - rewrite decide_False; [|tauto]. f_equal. symmetry. apply filter_filter_ext.
    intros x. split; [tauto|]. intros Hx. split; [done|]. by intros ->.
  - rewrite decide_True; [|done]. rewrite <- app_assoc. cbn [app]. do 2 f_equal.
    symmetry. apply filter_filter_ext. intros x. rewrite elem_of_app, list_elem_of_singleton.
    tauto.
Qed.

Lemma first_occurrences_NoDup {T : Type} `{EqDecision T} (l : list T) :
  NoDup (Ordered.first_occurrences l).
Proof.
  induction l as [|x l IH]; [constructor|]. cbn [Ordered.first_occurrences].
  constructor; [|by apply NoDup_filter].
  intros Hx%list_elem_of_filter. tauto.
Qed.

Lemma elem_of_first_occurrences {T : Type} `{EqDecision T} (l : list T) (x : T) :
  x ∈ Ordered.first_occurrences l ↔ x ∈ l.
Proof.
  induction l as [|y l IH]; [done|]. cbn [Ordered.first_occurrences].
  rewrite !elem_of_cons, list_elem_of_filter, IH.
  destruct (decide (x = y)); tauto.
Qed.

End KeyOrderFacts.

Section OrderedBatchFacts.
Import Aggregator.
Implicit Types (d : Ordered.Items) (key k : Key) (info : StudentInfo).
Implicit Types (sd : ScoreData) (st : Ordered.Loop) (ks : list Key).

Lemma ordered_loop_counters so hml l st st' :
  Ordered.dict st = Ordered.dict st' →
  Ordered.dict (fold_left (Ordered.loop_body so hml) l st)
  = Ordered.dict (fold_left (Ordered.loop_body so hml) l st').
Proof.
  revert st st'. induction l as [|sd l IH]; intros st st' E; [done|].
  cbn [fold_left]. apply IH. unfold Ordered.loop_body. rewrite E.
  destruct (sd_student_id sd), (sd_order sd);
    repeat match goal with
    | |- context [if ?b then _ else _] => destruct b
    end; done.
Qed.

Lemma ordered_batch_flag l self c :
  Ordered.has_master_list
    (fold_left (fun '(self, success_count) result =>
                  let '(self, ok) := Ordered.add_ocr_result self result None in
                  (self, if ok then S success_count else success_count))
               l (self, c)).1
  = Ordered.has_master_list self.
Proof.
  revert self c. induction l as [|r l IH]; intros self c; [done|].
  cbn [fold_left]. unfold Ordered.add_ocr_result at 2.
  destruct (success r); cbn [negb]; by rewrite IH.
Qed.

(** A batch is one loop over the observations of its successful documents. *)
Lemma ordered_batch_one_loop l self c :
  Ordered.student_scores
    (fold_left (fun '(self, success_count) result =>
                  let '(self, ok) := Ordered.add_ocr_result self result None in
                  (self, if ok then S success_count else success_count))
               l (self, c)).1
  = Ordered.dict
      (fold_left (Ordered.loop_body (Ordered.has_master_list self)
                                    (Ordered.has_master_list self))
         (merged_observations l)
         {| Ordered.dict := Ordered.student_scores self;
            Ordered.matched_count := 0; Ordered.unmatched_count := 0 |}).
Proof.
  revert self c. induction l as [|r l IH]; intros self c; [done|].
  cbn [fold_left]. rewrite merged_observations_cons.
  unfold Ordered.add_ocr_result at 2. destruct (success r); cbn [negb].
  - rewrite IH. cbn [Ordered.has_master_list Ordered.student_scores default].
    rewrite fold_left_app. apply ordered_loop_counters. done.
  - by rewrite IH.
Qed.

Lemma ordered_init_open master_list :
  truthy master_list = false →
  Ordered.__init__ master_list =
  {| Ordered.student_scores := []; Ordered.processed_files := [];
     Ordered.has_master_list := false |}.
Proof. unfold Ordered.__init__. destruct master_list; [|done]. by intros ->. Qed.

Lemma fold_left_fmap_list {T U V : Type} (f : V → U → V) (g : T → U) (l : list T) (a : V) :
  fold_left f (g <$> l) a = fold_left (fun a x => f a (g x)) l a.
Proof. revert a. induction l as [|x l IH]; intros a; [done|]. apply IH. Qed.

Lemma filter_all {T : Type} (P : T → Prop) `{!∀ x, Decision (P x)} (l : list T) :
  Forall P l → filter P l = l.
Proof.
  induction 1 as [|x l Hx Hl IH]; [done|]. rewrite filter_cons_True; [|done]. by rewrite IH.
Qed.

(** Without a roster, the keys of the dict are the keys of the merged
    observations in the order of their first occurrence. *)
Lemma open_aggregate_keys l master_list :
  truthy master_list = false →
  (Ordered.student_scores (Ordered.aggregate_ocr_results l master_list)).*1
  = Ordered.first_occurrences (Ordered.target_key <$> merged_observations l).
Proof.
  intros Ht. unfold Ordered.aggregate_ocr_results, Ordered.batch_add_results.
  rewrite ordered_batch_one_loop, (ordered_init_open _ Ht).
  cbn [Ordered.has_master_list Ordered.student_scores].
  rewrite keys_loop_open; [|done]. cbn [Ordered.dict fmap list_fmap].
  pose proof (touch_first_occurrences (Ordered.target_key <$> merged_observations l) [])
    as H.
  rewrite fold_left_fmap_list in H. rewrite H. cbn [app].
  rewrite filter_all; [done|]. apply Forall_forall. intros k _. apply not_elem_of_nil.
Qed.

Lemma open_aggregate_lookup l master_list k :
  truthy master_list = false →
  Ordered.lookup k (Ordered.student_scores (Ordered.aggregate_ocr_results l master_list))
  = match Ordered.observed k (merged_observations l) with
    | [] => None
    | _ :: _ =>
        Some (fold_left Ordered.absorb (Ordered.observed k (merged_observations l))
                default_factory)
    end.
Proof.
  intros Ht. rewrite ordered_lookup.
  change (Ordered.to_map (Ordered.student_scores ?s))
    with (student_scores (Ordered.forget s)).
  rewrite ordered_aggregate, open_merged_lookup.
  - rewrite (init_no_roster _ Ht). cbn [student_scores]. unfold entry.
    by rewrite lookup_empty.
  - by rewrite (init_no_roster _ Ht).
Qed.

End OrderedBatchFacts.

Section OrderedInvariants.
Import Aggregator.
Implicit Types (d : Ordered.Items) (key k : Key) (info : StudentInfo).
Implicit Types (sd : ScoreData) (st : Ordered.Loop) (ks : list Key).

Lemma keys_loop_body_NoDup so hml st sd :
  NoDup (Ordered.dict st).*1 → NoDup (Ordered.dict (Ordered.loop_body so hml st sd)).*1.
Proof.
  intros Hnd. unfold Ordered.loop_body.
  destruct (sd_student_id sd) as [id|], (sd_order sd) as [o|];
    repeat match goal with
    | |- context [if ?b then _ else _] => destruct b
    end;
    cbn [Ordered.dict];
    rewrite ?keys_append_score, ?keys_record_first; try done;
    repeat apply touch_NoDup; done.
Qed.

Lemma keys_loop_NoDup so hml l st :
  NoDup (Ordered.dict st).*1 →
  NoDup (Ordered.dict (fold_left (Ordered.loop_body so hml) l st)).*1.
Proof.
  revert st. induction l as [|sd l IH]; intros st Hnd; [done|].
  cbn [fold_left]. apply IH. by apply keys_loop_body_NoDup.
Qed.

Lemma keys_load_NoDup l d :
  NoDup d.*1 → NoDup (fold_left Ordered.load_student l d).*1.
Proof.
  revert d. induction l as [|s l IH]; intros d Hnd; [done|].
  cbn [fold_left]. apply IH. unfold Ordered.load_student.
  rewrite keys_set_name, keys_set_order. by repeat apply touch_NoDup.
Qed.

(** Every key is held once, whatever the roster and the documents. *)
Lemma aggregate_keys_NoDup l master_list :
  NoDup (Ordered.student_scores (Ordered.aggregate_ocr_results l master_list)).*1.
Proof.
  unfold Ordered.aggregate_ocr_results, Ordered.batch_add_results.
  rewrite ordered_batch_one_loop. apply keys_loop_NoDup. cbn [Ordered.dict].
  unfold Ordered.__init__. destruct master_list as [ml|]; [|constructor].
  destruct (truthy (Some ml)); [|constructor].
  cbn [Ordered._load_master_list Ordered.student_scores].
  apply keys_load_NoDup. constructor.
Qed.

Lemma lookup_elem_of d k info :
  NoDup d.*1 → (k, info) ∈ d ↔ Ordered.lookup k d = Some info.
Proof.
  induction d as [|[k' info'] d IH]; intros Hnd.
  - split; [by intros ?%elem_of_nil|done].
  - rewrite fmap_cons in Hnd. apply NoDup_cons in Hnd as [Hnotin Hnd].
    cbn [Ordered.lookup fst] in *. rewrite elem_of_cons, (IH Hnd).
    destruct (decide (k' = k)) as [->|Hne].
    + split.
      * intros [E|E]; [by injection E as ->|].
        destruct Hnotin. apply lookup_keys. by rewrite E.
      * intros E. injection E as ->. by left.
    + split; [|by right]. intros [E|E]; [|done]. injection E as -> ->. done.
Qed.

End OrderedInvariants.

Section GroupingProperties.
Import Aggregator Inputs.

(** X1.  Merging without a roster groups the observations by key: an entity
    exists exactly for the keys under which some observation of a successful
    document is stored, and its scores are the scores of those observations,
    in merge order. *)
Theorem open_mode_groups_scores (master_list : option MasterList)
    (ocr_results : list OcrResult) (k : Key) :
  truthy master_list = false →
  let self := Ordered.aggregate_ocr_results ocr_results master_list in
  let stored := Ordered.observed k (merged_observations ocr_results) in
  match Ordered.lookup k (Ordered.student_scores self) with
  | Some info => stored ≠ [] ∧ scores info = sd_score <$> stored
  | None => stored = []
  end.
Proof.
  intros Ht self stored. unfold self. rewrite (open_aggregate_lookup _ _ _ Ht).
  fold stored. destruct stored as [|sd stored'] eqn:E; [done|].
  split; [done|]. by rewrite absorb_scores.
Qed.

Lemma open_mode_groups_scores_witness :
  truthy None = false
  ∧ match Ordered.lookup (Some "A")
            (Ordered.student_scores (Ordered.aggregate_ocr_results [sheet_1; sheet_2] None))
    with
    | Some info =>
        Ordered.observed (Some "A") (merged_observations [sheet_1; sheet_2]) ≠ []
        ∧ scores info
          = sd_score <$> Ordered.observed (Some "A") (merged_observations [sheet_1; sheet_2])
    | None => Ordered.observed (Some "A") (merged_observations [sheet_1; sheet_2]) = []
    end.
Proof.
  split; [reflexivity|].
  exact (open_mode_groups_scores None [sheet_1; sheet_2] (Some "A") eq_refl).
Defined.

(** X2.  Without a roster, the order and the name of an entity are those of
    the first observation stored under its key that carries an order (no
    name in privacy mode); when no observation carries one, the entity has
    no order and the name of the last observation. *)
Theorem open_mode_identity (master_list : option MasterList)
    (ocr_results : list OcrResult) (k : Key) (info : StudentInfo) :
  truthy master_list = false →
  let self := Ordered.aggregate_ocr_results ocr_results master_list in
  let stored := Ordered.observed k (merged_observations ocr_results) in
  Ordered.lookup k (Ordered.student_scores self) = Some info →
  match Ordered.first_with_order stored with
  | Some score_data =>
      order info = sd_order score_data ∧ name info = Ordered.recorded_name score_data
  | None =>
      order info = None ∧ name info = last stored ≫= Ordered.recorded_name
  end.
Proof.
  intros Ht self stored. unfold self. rewrite (open_aggregate_lookup _ _ _ Ht).
  fold stored. destruct stored as [|sd stored'] eqn:E; [done|].
  intros [= <-].
  pose proof (absorb_identity (sd :: stored') default_factory eq_refl) as H.
  destruct (Ordered.first_with_order (sd :: stored')); [done|].
  destruct H as [H1 H2]. cbn [fold_left] in H1, H2. split; [done|]. rewrite H2.
  destruct (last (sd :: stored')) eqn:El; [done|]. by apply last_None in El.
Qed.

Lemma open_mode_identity_witness :
  truthy None = false
  ∧ Ordered.lookup (Some "A")
      (Ordered.student_scores (Ordered.aggregate_ocr_results [late_order_sheet] None))
    = Some {| order := Some 5%Z; name := Some "Amy"; scores := [Some 1%Z; Some 2%Z] |}
  ∧ match Ordered.first_with_order
            (Ordered.observed (Some "A") (merged_observations [late_order_sheet])) with
    | Some score_data =>
        Some 5%Z = sd_order score_data ∧ Some "Amy" = Ordered.recorded_name score_data
    | None =>
        Some 5%Z = None
        ∧ Some "Amy" =
          last (Ordered.observed (Some "A") (merged_observations [late_order_sheet]))
          ≫= Ordered.recorded_name
    end.
Proof.
  split; [reflexivity|]. split; [reflexivity|].
  exact (open_mode_identity None [late_order_sheet] (Some "A")
           {| order := Some 5%Z; name := Some "Amy"; scores := [Some 1%Z; Some 2%Z] |}
           eq_refl eq_refl).
Defined.

End GroupingProperties.

Section ExportFacts.
Import Aggregator.
Implicit Types (d : gmap Key StudentInfo) (key k : Key) (st : Loop).
Implicit Types (sd : ScoreData) (self : DataAggregator) (info : StudentInfo).

Lemma roster_loop_body_ordered st sd :
  map_Forall (fun _ info => is_Some (order info)) (dict st) →
  map_Forall (fun _ info => is_Some (order info)) (dict (loop_body true true st sd)).
Proof.
  intros Hall. destruct (is_privacy sd) eqn:Hp.
  - pose proof Hp as Hp'. unfold is_privacy in Hp'.
    destruct (sd_student_id sd) as [id|] eqn:Hid; [done|].
    destruct (sd_order sd) as [o|] eqn:Ho; [|done].
    rewrite (loop_body_privacy true true st sd o Hid Ho). cbn [dict].
    apply map_Forall_insert_2; [|done].
    unfold entry. destruct (dict st !! order_key o) as [info|] eqn:E.
    + apply Hall in E. simpl in *. destruct E as [o' E]. rewrite E. simpl. by eexists.
    + simpl. by eexists.
  - rewrite (loop_body_roster st sd Hp).
    destruct (bool_decide (is_Some (dict st !! sd_student_id sd))) eqn:Hd; [|done].
    cbn [dict]. rewrite append_score_eq. apply map_Forall_insert_2; [|done].
    apply bool_decide_eq_true in Hd. destruct Hd as [info E].
    unfold entry. rewrite E. cbn. by apply Hall in E.
Qed.

Lemma roster_loop_ordered l st :
  map_Forall (fun _ info => is_Some (order info)) (dict st) →
  map_Forall (fun _ info => is_Some (order info))
    (dict (fold_left (loop_body true true) l st)).
Proof.
  revert st. induction l as [|sd l IH]; intros st Hall; [done|].
  cbn [fold_left]. apply IH. by apply roster_loop_body_ordered.
Qed.

Lemma load_ordered (l : list Student) d :
  map_Forall (fun _ info => is_Some (order info)) d →
  map_Forall (fun _ info => is_Some (order info)) (fold_left load_student l d).
Proof.
  revert d. induction l as [|s l IH]; intros d Hall; [done|].
  cbn [fold_left]. apply IH. unfold load_student. rewrite load_student_eq.
  apply map_Forall_insert_2; [|done]. cbn. by eexists.
Qed.

(** With a roster, every entity has an order: the roster's, or the order of
    the privacy-mode observation that made it. *)
Lemma roster_merged_ordered ml l :
  truthy (Some ml) = true →
  map_Forall (fun _ info => is_Some (order info))
    (student_scores (merged (__init__ (Some ml)) l)).
Proof.
  intros Ht. rewrite merged_one_loop.
  destruct (init_roster ml Ht) as (Hf & _). rewrite Hf.
  apply roster_loop_ordered. cbn [dict]. unfold __init__. rewrite Ht.
  cbn [_load_master_list student_scores]. apply load_ordered.
  apply map_Forall_empty.
Qed.

End ExportFacts.

Section ExportProperties.
Import Aggregator Inputs.

(** X3.  Without sorting, [get_aggregated_data] lists one row per entity, in
    the order in which the keys were first stored; without a roster that is
    the order of first occurrence among the merged observations. *)
Theorem unsorted_export_first_seen (master_list : option MasterList)
    (ocr_results : list OcrResult) :
  truthy master_list = false →
  let self := Ordered.aggregate_ocr_results ocr_results master_list in
  ∃ rows,
    Ordered.get_aggregated_data self false = Return rows
    ∧ CsvWriter.student_id <$> rows
      = Ordered.first_occurrences (Ordered.target_key <$> merged_observations ocr_results)
    ∧ Forall (fun r =>
                Ordered.lookup (CsvWriter.student_id r) (Ordered.student_scores self)
                = Some {| order := CsvWriter.order r;
                          name := CsvWriter.name r;
                          scores := CsvWriter.scores r |}) rows.
Proof.
  intros Ht self. exists (Ordered.row <$> Ordered.student_scores self).
  split_and!; [done| |].
  - rewrite <- (open_aggregate_keys _ _ Ht). fold self.
    rewrite <- list_fmap_compose. done.
  - apply Forall_fmap, Forall_forall. intros [k info] Hin. cbn.
    apply lookup_elem_of in Hin; [|apply aggregate_keys_NoDup].
    rewrite Hin. by destruct info.
Qed.

Lemma unsorted_export_first_seen_witness :
  truthy None = false
  ∧ ∃ rows,
      Ordered.get_aggregated_data
        (Ordered.aggregate_ocr_results [sheet_1; sheet_2] None) false = Return rows
      ∧ CsvWriter.student_id <$> rows
        = Ordered.first_occurrences
            (Ordered.target_key <$> merged_observations [sheet_1; sheet_2])
      ∧ Forall (fun r =>
                  Ordered.lookup (CsvWriter.student_id r)
                    (Ordered.student_scores
                       (Ordered.aggregate_ocr_results [sheet_1; sheet_2] None))
                  = Some {| order := CsvWriter.order r;
                            name := CsvWriter.name r;
                            scores := CsvWriter.scores r |}) rows.
Proof.
  split; [reflexivity|].
  exact (unsorted_export_first_seen None [sheet_1; sheet_2] eq_refl).
Defined.

(** X4.  When every entity has an order, the sorted export returns the rows
    of the unsorted one rearranged in ascending order, rows of equal order
    staying in the order of the dict. *)
Theorem sorted_export_stable (self : Ordered.DataAggregator) :
  Forall (fun item => is_Some (order item.2)) (Ordered.student_scores self) →
  ∃ rows unsorted,
    Ordered.get_aggregated_data self false = Return unsorted
    ∧ Ordered.get_aggregated_data self true = Return rows
    ∧ rows ≡ₚ unsorted
    ∧ Sorted (fun a b => key_le (CsvWriter.order a) (CsvWriter.order b)) rows
    ∧ (∀ o, filter (fun r => CsvWriter.order r = Some o) rows
            = filter (fun r => CsvWriter.order r = Some o) unsorted).
Proof.
  intros Hall.
  destruct (sort_by_some CsvWriter.order (Ordered.row <$> Ordered.student_scores self))
    as (rows & Hr & Hp & Hf & Hs).
  { apply Forall_fmap. eapply Forall_impl; [exact Hall|]. by intros [k info]. }
  exists rows, (Ordered.row <$> Ordered.student_scores self). by split_and!.
Qed.

Lemma sorted_export_stable_witness :
  Forall (fun item => is_Some (order item.2))
    (Ordered.student_scores (Ordered.aggregate_ocr_results [sheet_1; sheet_2] None))
  ∧ ∃ rows unsorted,
      Ordered.get_aggregated_data
        (Ordered.aggregate_ocr_results [sheet_1; sheet_2] None) false = Return unsorted
      ∧ Ordered.get_aggregated_data
          (Ordered.aggregate_ocr_results [sheet_1; sheet_2] None) true = Return rows
      ∧ rows ≡ₚ unsorted
      ∧ Sorted (fun a b => key_le (CsvWriter.order a) (CsvWriter.order b)) rows
      ∧ (∀ o, filter (fun r => CsvWriter.order r = Some o) rows
              = filter (fun r => CsvWriter.order r = Some o) unsorted).
Proof.
  assert (Forall (fun item : Key * StudentInfo => is_Some (order item.2))
            (Ordered.student_scores
               (Ordered.aggregate_ocr_results [sheet_1; sheet_2] None))) as H.
  { vm_compute. repeat constructor; by eexists. }
  split; [exact H|].
  exact (sorted_export_stable (Ordered.aggregate_ocr_results [sheet_1; sheet_2] None) H).
Defined.

(** X5.  The sorted export raises exactly when the dict holds two entities
    or more and one of them has no order; the exception is TypeError, and
    nothing else is ever raised. *)
Theorem sorted_export_raises (self : Ordered.DataAggregator) :
  (Ordered.get_aggregated_data self true = Throw TypeError
   ↔ (2 ≤ length (Ordered.student_scores self))%nat
     ∧ Exists (fun item => order item.2 = None) (Ordered.student_scores self))
  ∧ (∀ sort_by_order e,
       Ordered.get_aggregated_data self sort_by_order = Throw e →
       sort_by_order = true ∧ e = TypeError).
Proof.
  assert (∀ items : Ordered.Items,
            (2 ≤ length items)%nat ∧ Exists (fun item => order item.2 = None) items
            ∨ ∃ rows, sort_by CsvWriter.order (Ordered.row <$> items) = Return rows)
    as Hcases.
  { intros items.
    destruct (decide (Exists (fun item : Key * StudentInfo => order item.2 = None) items))
      as [Hex|Hnot].
    - destruct items as [|i1 [|i2 items]].
      + by apply Exists_nil in Hex.
      + right. by eexists.
      + left. split; [simpl; lia|done].
    - right. apply not_Exists_Forall in Hnot; [|intros ?; apply _].
      destruct (sort_by_some CsvWriter.order (Ordered.row <$> items)) as (rows & Hr & _).
      { apply Forall_fmap. eapply Forall_impl; [exact Hnot|]. intros [k info] H.
        cbn in *. destruct (order info); [by eexists|done]. }
      by exists rows. }
  assert (∀ items : Ordered.Items,
            (2 ≤ length items)%nat → Exists (fun item => order item.2 = None) items →
            sort_by CsvWriter.order (Ordered.row <$> items) = Throw TypeError) as Hraise.
  { intros items Hlen Hex. apply sort_by_none; [by rewrite length_fmap|].
    apply Exists_fmap. eapply Exists_impl; [exact Hex|]. by intros [k info]. }
  split.
  - unfold Ordered.get_aggregated_data. split.
    + intros Hthrow. destruct (Hcases (Ordered.student_scores self)) as [H|[rows H]];
        [done|]. by rewrite H in Hthrow.
    + intros [Hlen Hex]. by apply Hraise.
  - intros [|] e; unfold Ordered.get_aggregated_data; [|done].
    intros Hthrow. split; [done|].
    destruct (Hcases (Ordered.student_scores self)) as [[Hlen Hex]|[rows H]].
    + rewrite (Hraise _ Hlen Hex) in Hthrow. by injection Hthrow.
    + by rewrite H in Hthrow.
Qed.

End ExportProperties.

Section PipelineFacts.
Import Aggregator.
Implicit Types (k : Key) (sd : ScoreData) (info : StudentInfo).

Lemma order_key_inj o1 o2 : order_key o1 = order_key o2 → o1 = o2.
Proof.
  unfold order_key. intros [= H]. apply String.app_inj in H. by apply pretty_Z_inj in H.
Qed.

(** What the dict holds is what its map holds. *)
Lemma items_lookup (items : Ordered.Items) k info :
  NoDup items.*1 → (k, info) ∈ items → Ordered.to_map items !! k = Some info.
Proof. intros Hnd Hin. rewrite <- ordered_lookup. by apply lookup_elem_of. Qed.

Lemma roster_items_ordered ml l :
  truthy (Some ml) = true →
  Forall (fun item => is_Some (order item.2))
    (Ordered.student_scores (Ordered.aggregate_ocr_results l (Some ml))).
Proof.
  intros Ht. apply Forall_forall. intros [k info] Hin.
  apply items_lookup in Hin; [|apply aggregate_keys_NoDup].
  change (Ordered.to_map (Ordered.student_scores ?s))
    with (student_scores (Ordered.forget s)) in Hin.
  rewrite ordered_aggregate in Hin.
  by apply (roster_merged_ordered ml l Ht) in Hin.
Qed.

Lemma first_with_order_all (l : list ScoreData) :
  Forall (fun sd => is_Some (sd_order sd)) l → Ordered.first_with_order l = head l.
Proof. intros H. unfold Ordered.first_with_order. by rewrite filter_all. Qed.

(** An item of the dict built without a roster, read off the observations
    stored under its key. *)
Lemma open_item master_list l k info :
  truthy master_list = false →
  (k, info) ∈ Ordered.student_scores (Ordered.aggregate_ocr_results l master_list) →
  ∃ sd stored,
    Ordered.observed k (merged_observations l) = sd :: stored
    ∧ info = fold_left Ordered.absorb (sd :: stored) default_factory.
Proof.
  intros Ht Hin. apply lookup_elem_of in Hin; [|apply aggregate_keys_NoDup].
  rewrite (open_aggregate_lookup _ _ _ Ht) in Hin.
  destruct (Ordered.observed k (merged_observations l)) as [|sd stored]; [done|].
  injection Hin as <-. by exists sd, stored.
Qed.

Lemma open_items_ordered master_list l :
  truthy master_list = false →
  Forall (fun sd => is_Some (sd_order sd)) (merged_observations l) →
  Forall (fun item => is_Some (order item.2))
    (Ordered.student_scores (Ordered.aggregate_ocr_results l master_list)).
Proof.
  intros Ht Hall. apply Forall_forall. intros [k info] Hin.
  destruct (open_item _ _ _ _ Ht Hin) as (sd & stored & Hobs & ->).
  assert (Forall (fun sd => is_Some (sd_order sd)) (sd :: stored)) as Hall'.
  { rewrite <- Hobs. unfold Ordered.observed. apply Forall_forall.
    intros x [_ Hx]%list_elem_of_filter. rewrite Forall_forall in Hall. by apply Hall. }
  pose proof (absorb_identity (sd :: stored) default_factory eq_refl) as H.
  rewrite (first_with_order_all _ Hall') in H. cbn [head] in H.
  destruct H as [H _]. cbn [snd]. rewrite H. by apply Forall_cons in Hall' as [? _].
Qed.

End PipelineFacts.

Section PrivacyFacts.
Import Aggregator.
Implicit Types (k : Key) (sd : ScoreData) (info : StudentInfo).

Lemma target_key_privacy_iff sd o :
  is_privacy sd = true → Ordered.target_key sd = order_key o ↔ sd_order sd = Some o.
Proof.
  unfold is_privacy, Ordered.target_key.
  destruct (sd_student_id sd), (sd_order sd) as [o'|]; try done. intros _. split.
  - by intros ->%order_key_inj.
  - by intros [= ->].
Qed.

Lemma observed_privacy l o :
  Forall (fun sd => is_privacy sd = true) l →
  Ordered.observed (order_key o) l = filter (fun sd => sd_order sd = Some o) l.
Proof.
  unfold Ordered.observed. induction 1 as [|sd l Hp Hl IH]; [done|].
  rewrite !filter_cons, IH.
  destruct (decide (Ordered.target_key sd = order_key o)) as [E|E];
    rewrite (target_key_privacy_iff sd o Hp) in E.
  - by rewrite decide_True.
  - by rewrite decide_False.
Qed.

(** The row of order [o] in a privacy-mode export. *)
Lemma privacy_item master_list l k info :
  truthy master_list = false →
  Forall (fun sd => is_privacy sd = true) (merged_observations l) →
  (k, info) ∈ Ordered.student_scores (Ordered.aggregate_ocr_results l master_list) →
  ∃ o, k = order_key o
       ∧ Some o ∈ sd_order <$> merged_observations l
       ∧ info = {| order := Some o; name := None;
                   scores := sd_score <$> filter (fun sd => sd_order sd = Some o)
                                            (merged_observations l) |}.
Proof.
  intros Ht Hall Hin.
  destruct (open_item _ _ _ _ Ht Hin) as (sd & stored & Hobs & ->).
  assert (sd ∈ Ordered.observed k (merged_observations l)) as Hsd
    by (rewrite Hobs; apply list_elem_of_here).
  apply list_elem_of_filter in Hsd as [Hk Hsd].
  assert (is_privacy sd = true) as Hp by (rewrite Forall_forall in Hall; by apply Hall).
  pose proof Hp as Hp'. unfold is_privacy in Hp'.
  destruct (sd_student_id sd) eqn:Hid; [done|].
  destruct (sd_order sd) as [o|] eqn:Ho; [|done].
  exists o. rewrite (target_key_privacy sd o Hid Ho) in Hk. subst k.
  split_and!; [done| |].
  - apply list_elem_of_fmap. by exists sd.
  - rewrite (observed_privacy _ _ Hall) in Hobs.
    pose proof (absorb_scores (sd :: stored) default_factory) as Hs.
    pose proof (absorb_identity (sd :: stored) default_factory eq_refl) as Hi.
    assert (Ordered.first_with_order (sd :: stored) = Some sd) as Hf.
    { unfold Ordered.first_with_order. rewrite filter_cons_True; [done|].
      rewrite Ho. by eexists. }
    rewrite Hf in Hi. destruct Hi as [Hi1 Hi2].
    unfold Ordered.recorded_name in Hi2. rewrite Hp in Hi2. rewrite Ho in Hi1.
    destruct (fold_left Ordered.absorb (sd :: stored) default_factory) as [o' n' s'].
    cbn in Hs, Hi1, Hi2. subst. by rewrite Hobs.
Qed.

Lemma StronglySorted_le_lt (l : list Z) :
  StronglySorted Z.le l → NoDup l → StronglySorted Z.lt l.
Proof.
  induction 1 as [|x l Hs IH Hx]; intros Hnd; [constructor|].
  apply NoDup_cons in Hnd as [Hnotin Hnd]. constructor; [by apply IH|].
  rewrite Forall_forall in Hx |- *. intros y Hy. pose proof (Hx y Hy).
  assert (x ≠ y) by (by intros ->). lia.
Qed.

End PrivacyFacts.

Section PrivacyExport.
Import Aggregator Inputs.

Lemma fmap_fixed {T : Type} (g : T → T) (l : list T) :
  Forall (fun x => g x = x) l → g <$> l = l.
Proof. induction 1 as [|x l Hx Hl IH]; [done|]. cbn. by rewrite Hx, IH. Qed.

Lemma Sorted_fmap_key {T : Type} (key : T → option Z) (l : list T) :
  Sorted (fun a b => key_le (key a) (key b)) l →
  Sorted Z.le ((fun x => default 0%Z (key x)) <$> l).
Proof.
  induction 1 as [|x l Hs IH Hhd]; [constructor|].
  cbn. constructor; [done|]. destruct Hhd as [|y l Hxy]; [constructor|].
  cbn. constructor. unfold key_le in Hxy. by destruct (key x), (key y).
Qed.

(** X6.  Privacy mode end to end: when every merged observation has an order
    and no student id, and no roster is loaded, the sorted export has one row
    per distinct order, in strictly ascending order; the row of order [o]
    has the student id [order_o], no name, and the scores observed for [o]
    in merge order. *)
Theorem privacy_export_rows (master_list : option MasterList)
    (ocr_results : list OcrResult) :
  truthy master_list = false →
  Forall (fun sd => is_privacy sd = true) (merged_observations ocr_results) →
  ∃ orders,
    Ordered.get_aggregated_data
      (Ordered.aggregate_ocr_results ocr_results master_list) true
    = Return (Ordered.privacy_row (merged_observations ocr_results) <$> orders)
    ∧ StronglySorted Z.lt orders
    ∧ ∀ o, o ∈ orders ↔ Some o ∈ sd_order <$> merged_observations ocr_results.
Proof.
  intros Ht Hall.
  set (obs := merged_observations ocr_results) in *.
  set (self := Ordered.aggregate_ocr_results ocr_results master_list).
  set (items := Ordered.student_scores self).
  assert (∀ x, x ∈ Ordered.row <$> items →
               ∃ o, x = Ordered.privacy_row obs o ∧ Some o ∈ sd_order <$> obs) as Hrow.
  { intros x ([k info] & -> & Hin)%list_elem_of_fmap.
    destruct (privacy_item _ _ _ _ Ht Hall Hin) as (o & -> & Ho & ->).
    by exists o. }
  destruct (sort_by_some CsvWriter.order (Ordered.row <$> items))
    as (r & Hr & Hp & _ & Hso).
  { apply Forall_forall. intros x Hx. destruct (Hrow x Hx) as (o & -> & _).
    by eexists. }
  set (f := fun x : CsvWriter.StudentRow => default 0%Z (CsvWriter.order x)).
  assert (Ordered.privacy_row obs <$> (f <$> r) = r) as Hfix.
  { rewrite <- list_fmap_compose. apply fmap_fixed, Forall_forall. intros x Hx.
    rewrite Hp in Hx. by destruct (Hrow x Hx) as (o & -> & _). }
  exists (f <$> r). split_and!.
  - unfold Ordered.get_aggregated_data. fold self items. by rewrite Hr, Hfix.
  - apply StronglySorted_le_lt.
    + apply Sorted_StronglySorted; [intros ???; lia|]. by apply Sorted_fmap_key.
    + apply (NoDup_fmap_1 order_key).
      assert (order_key <$> (f <$> r) = CsvWriter.student_id <$> r) as ->.
      { rewrite <- Hfix at 2. by rewrite <- !list_fmap_compose. }
      rewrite Hp, <- list_fmap_compose. apply (aggregate_keys_NoDup ocr_results master_list).
  - intros o. split.
    + intros (x & -> & Hx)%list_elem_of_fmap. rewrite Hp in Hx.
      by destruct (Hrow x Hx) as (o & -> & Ho).
    + intros (sd & Ho & Hsd)%list_elem_of_fmap.
      assert (is_privacy sd = true) as Hpr by (rewrite Forall_forall in Hall; by apply Hall).
      assert (order_key o ∈ items.*1) as Hk.
      { unfold items, self. rewrite (open_aggregate_keys _ _ Ht).
        apply elem_of_first_occurrences, list_elem_of_fmap. exists sd. split; [|done].
        symmetry. by apply target_key_privacy_iff. }
      apply list_elem_of_fmap in Hk as ([k info] & Hk & Hin). cbn in Hk. subst k.
      destruct (privacy_item _ _ _ _ Ht Hall Hin) as (o' & Heq & _ & ->).
      apply order_key_inj in Heq as <-.
      apply list_elem_of_fmap. eexists. split; [|rewrite Hp; apply list_elem_of_fmap;
        eexists; split; [reflexivity|exact Hin]]. done.
Qed.

Lemma privacy_export_rows_witness :
  truthy None = false
  ∧ Forall (fun sd => is_privacy sd = true) (merged_observations [privacy_sheet])
  ∧ ∃ orders,
      Ordered.get_aggregated_data
        (Ordered.aggregate_ocr_results [privacy_sheet] None) true
      = Return (Ordered.privacy_row (merged_observations [privacy_sheet]) <$> orders)
      ∧ StronglySorted Z.lt orders
      ∧ ∀ o, o ∈ orders ↔ Some o ∈ sd_order <$> merged_observations [privacy_sheet].
Proof.
  assert (Forall (fun sd => is_privacy sd = true) (merged_observations [privacy_sheet]))
    as H by (repeat constructor).
  split; [reflexivity|]. split; [exact H|].
  exact (privacy_export_rows None [privacy_sheet] eq_refl H).
Defined.

(** X7.  With a roster loaded, every entity has an order, so the sorted
    export always returns: one row per entity, ascending by order. *)
Theorem roster_export_returns (master_list : MasterList) (ocr_results : list OcrResult) :
  truthy (Some master_list) = true →
  let self := Ordered.aggregate_ocr_results ocr_results (Some master_list) in
  Forall (fun item => is_Some (order item.2)) (Ordered.student_scores self)
  ∧ ∃ rows,
      Ordered.get_aggregated_data self true = Return rows
      ∧ rows ≡ₚ Ordered.row <$> Ordered.student_scores self
      ∧ Sorted (fun a b => key_le (CsvWriter.order a) (CsvWriter.order b)) rows.
Proof.
  intros Ht self. pose proof (roster_items_ordered master_list ocr_results Ht) as Hall.
  split; [exact Hall|].
  destruct (sort_by_some CsvWriter.order (Ordered.row <$> Ordered.student_scores self))
    as (rows & Hr & Hp & _ & Hs).
  { apply Forall_fmap. eapply Forall_impl; [exact Hall|]. by intros [k info]. }
  by exists rows.
Qed.

Lemma roster_export_returns_witness :
  truthy (Some roster_A) = true
  ∧ ∃ rows,
      Ordered.get_aggregated_data
        (Ordered.aggregate_ocr_results [sheet_1; privacy_sheet] (Some roster_A)) true
      = Return rows
      ∧ rows ≡ₚ Ordered.row <$> Ordered.student_scores
                  (Ordered.aggregate_ocr_results [sheet_1; privacy_sheet] (Some roster_A))
      ∧ Sorted (fun a b => key_le (CsvWriter.order a) (CsvWriter.order b)) rows.
Proof.
  split; [reflexivity|].
  exact (proj2 (roster_export_returns roster_A [sheet_1; privacy_sheet] eq_refl)).
Defined.

End PrivacyExport.

Section MainProperties.
Import Aggregator Inputs.

Lemma write_status (data : list CsvWriter.StudentRow) (prefix : string) :
  match data with
  | [] => CsvWriter.write data prefix = (false, None)
  | _ :: _ =>
      CsvWriter.write data prefix
      = (true, Some (CsvWriter.headers prefix (CsvWriter.max_scores data)
                     :: (CsvWriter.student_row (CsvWriter.max_scores data) <$> data)))
  end.
Proof. by destruct data. Qed.

(** X8.  The exit status of [main] once the OCR results are in.  With no
    observation in a successful result it is 1 and no file is written.  When
    there are observations and each carries an order, it is 0 and the file
    holds the header and one row per key, ascending by order.  In every
    case the status is 0 exactly when a file is written. *)
Theorem main_exit_status (A : Arith) (ocr_results : list OcrResult) :
  (merged_observations ocr_results = [] →
   Main.main_after_ocr A ocr_results = (1%Z, None))
  ∧ (merged_observations ocr_results ≠ [] →
     Forall (fun sd => is_Some (sd_order sd)) (merged_observations ocr_results) →
     ∃ rows,
       Ordered.get_aggregated_data (Ordered.aggregate_ocr_results ocr_results None) true
       = Return rows
       ∧ Sorted (fun a b => key_le (CsvWriter.order a) (CsvWriter.order b)) rows
       ∧ CsvWriter.student_id <$> rows
         ≡ₚ Ordered.first_occurrences
              (Ordered.target_key <$> merged_observations ocr_results)
       ∧ Main.main_after_ocr A ocr_results
         = (0%Z, Some (CsvWriter.headers CsvWriter.default_prefix
                         (CsvWriter.max_scores rows)
                       :: (CsvWriter.student_row (CsvWriter.max_scores rows) <$> rows))))
  ∧ (∃ status file,
       Main.main_after_ocr A ocr_results = (status, file)
       ∧ (status = 0%Z ∨ status = 1%Z)
       ∧ (status = 0%Z ↔ is_Some file)).
Proof.
  assert (∀ l, merged_observations l ≠ [] →
               length (filter (fun r => success r = true) l) ≠ 0%nat) as Hsucc.
  { intros l Hobs Hlen. apply Hobs. unfold merged_observations.
    apply length_zero_iff_nil in Hlen. by rewrite Hlen. }
  split_and!.
  - intros Hobs. unfold Main.main_after_ocr.
    destruct (length (filter _ ocr_results) =? 0)%nat eqn:Hn; [done|].
    change ((Ordered.batch_add_results (Ordered.__init__ None) ocr_results).1)
      with (Ordered.aggregate_ocr_results ocr_results None).
    pose proof (open_aggregate_keys ocr_results None eq_refl) as Hk.
    rewrite Hobs in Hk. cbn in Hk. apply fmap_nil_inv in Hk.
    destruct (get_statistics_total A
                (Ordered.forget (Ordered.aggregate_ocr_results ocr_results None)))
      as (stats & -> & _).
    cbn [lift and_then]. unfold Ordered.get_aggregated_data. rewrite Hk. done.
  - intros Hobs Hall.
    pose proof (open_items_ordered None ocr_results eq_refl Hall) as Hit.
    pose proof (open_aggregate_keys ocr_results None eq_refl) as Hk.
    set (self := Ordered.aggregate_ocr_results ocr_results None) in *.
    destruct (sort_by_some CsvWriter.order (Ordered.row <$> Ordered.student_scores self))
      as (rows & Hr & Hp & _ & Hs).
    { apply Forall_fmap. eapply Forall_impl; [exact Hit|]. by intros [k info]. }
    exists rows. split_and!; [done|done| |].
    + rewrite <- Hk, Hp, <- list_fmap_compose. done.
    + unfold Main.main_after_ocr.
      destruct (length (filter _ ocr_results) =? 0)%nat eqn:Hn.
      { apply Nat.eqb_eq in Hn. by apply Hsucc in Hn. }
      change ((Ordered.batch_add_results (Ordered.__init__ None) ocr_results).1)
        with self.
      destruct (get_statistics_total A (Ordered.forget self)) as (stats & -> & _).
      cbn [lift and_then]. unfold Ordered.get_aggregated_data in Hr |- *. rewrite Hr.
      cbn [and_then]. pose proof (write_status rows CsvWriter.default_prefix) as Hw.
      destruct rows as [|row rows]; [|by rewrite Hw].
      apply Permutation_nil_l in Hp. symmetry in Hp. apply fmap_nil_inv in Hp.
      rewrite Hp in Hk. cbn in Hk. symmetry in Hk.
      destruct (merged_observations ocr_results) as [|sd obs]; [done|]. done.
  - unfold Main.main_after_ocr.
    destruct (length (filter _ ocr_results) =? 0)%nat.
    { exists 1%Z, None. split_and!; [done|by right|]. split; [done|by intros [? ?]]. }
    destruct (and_then _ _) as [[ok file]|e] eqn:E.
    + destruct (get_statistics A _) as [stats|]; [|done]. cbn [lift and_then] in E.
      destruct (Ordered.get_aggregated_data _ true) as [data|]; [|done].
      cbn [and_then] in E. injection E as E.
      pose proof (write_status data CsvWriter.default_prefix) as Hw.
      destruct data as [|row data]; rewrite Hw in E; injection E as <- <-.
      * exists 1%Z, None. split_and!; [done|by right|]. split; [done|by intros [? ?]].
      * eexists 0%Z, _. split_and!; [done|by left|]. split; [by eexists|done].
    + exists 1%Z, None. split_and!; [done|by right|]. split; [done|by intros [? ?]].
Qed.

End MainProperties.

Section RosterFacts.
Import Aggregator.
Implicit Types (d : gmap Key StudentInfo) (k : Key).

Lemma entry_no_scores d k :
  map_Forall (fun _ info => scores info = []) d → scores (entry d k) = [].
Proof.
  intros Hall. unfold entry. destruct (d !! k) as [info|] eqn:E; [|done].
  by apply Hall in E.
Qed.

(** The entity a roster leaves under [k]: that of the last student listed
    with this id. *)
Lemma load_lookup (l : list Student) d k :
  map_Forall (fun _ info => scores info = []) d →
  fold_left load_student l d !! k =
  match last (filter (fun s => Some (st_student_id s) = k) l) with
  | Some s => Some {| order := Some (st_order s); name := Some (st_name s); scores := [] |}
  | None => d !! k
  end.
Proof.
  revert d. induction l as [|s l IH]; intros d Hall; [done|].
  cbn [fold_left].
  assert (map_Forall (fun _ info => scores info = []) (load_student d s)) as Hall'.
  { by apply (load_fold [s] d). }
  rewrite (IH _ Hall'), filter_cons.
  destruct (decide (Some (st_student_id s) = k)) as [E|E].
  - destruct (filter _ l) as [|s' f] eqn:Ef.
    + cbn [last]. unfold load_student. rewrite load_student_eq, E, lookup_insert_eq.
      by rewrite (entry_no_scores d k Hall).
    + rewrite last_cons_cons. destruct (last (s' :: f)) eqn:El; [done|].
      by apply last_None in El.
  - destruct (last (filter _ l)); [done|].
    unfold load_student. rewrite load_student_eq. by rewrite lookup_insert_ne.
Qed.

Lemma load_keys (l : list Student) (items : Ordered.Items) :
  (fold_left Ordered.load_student l items).*1
  = fold_left (fun ks k => Ordered.touch k ks)
      ((fun s => Some (st_student_id s)) <$> l) items.*1.
Proof.
  revert items. induction l as [|s l IH]; intros items; [done|].
  cbn [fold_left fmap list_fmap]. rewrite IH. f_equal.
  unfold Ordered.load_student. by rewrite keys_set_name, keys_set_order, touch_idemp.
Qed.

End RosterFacts.

Section RosterProperties.
Import Aggregator Inputs Samples.

(** X14.  A roster that lists a student id more than once seeds one entity
    for it, at the place of the first listing and with the order and the
    name of the last; every seeded entity starts without scores. *)
Theorem roster_duplicates_last_wins (master_list : MasterList) (k : Key) :
  truthy (Some master_list) = true →
  let self := Ordered.__init__ (Some master_list) in
  (Ordered.student_scores self).*1
  = Ordered.first_occurrences ((fun s => Some (st_student_id s)) <$> roster master_list)
  ∧ Ordered.lookup k (Ordered.student_scores self)
    = (fun s => {| order := Some (st_order s); name := Some (st_name s); scores := [] |})
      <$> last (filter (fun s => Some (st_student_id s) = k) (roster master_list)).
Proof.
  intros Ht self. unfold self, Ordered.__init__. rewrite Ht.
  cbn [Ordered._load_master_list Ordered.student_scores]. fold (roster master_list).
  split.
  - rewrite load_keys, touch_first_occurrences. cbn [fmap list_fmap app].
    apply filter_all, Forall_forall. intros x _. apply not_elem_of_nil.
  - rewrite ordered_lookup, ordered_load, load_lookup by apply map_Forall_empty.
    by destruct (last _).
Qed.

Lemma roster_duplicates_last_wins_witness :
  truthy (Some roster_twice) = true
  ∧ Ordered.lookup (Some "A") (Ordered.student_scores (Ordered.__init__ (Some roster_twice)))
    = (fun s => {| order := Some (st_order s); name := Some (st_name s); scores := [] |})
      <$> last (filter (fun s => Some (st_student_id s) = Some "A") (roster roster_twice)).
Proof.
  split; [reflexivity|].
  exact (proj2 (roster_duplicates_last_wins roster_twice (Some "A") eq_refl)).
Defined.

End RosterProperties.

Section SelectedFacts.
Import Scorer.
Context (A : Arith).

Lemma selected_nonempty (scores : list (num A)) (trim_percent : Q) :
  scores ≠ [] → Trim.selected A scores trim_percent ≠ [].
Proof.
  intros Hne. unfold Trim.selected.
  assert (sorted A scores ≠ []) as Hs.
  { intros E. apply (f_equal length) in E. rewrite sorted_length in E.
    by destruct scores. }
  destruct (0 <? _)%Z; [|by destruct (sorted A scores)].
  by destruct (py_slice _ _ _).
Qed.

Lemma calculate_trimmed_mean_selected (scores : list (num A)) (trim_percent : Q) :
  scores ≠ [] →
  calculate_trimmed_mean A scores trim_percent
  = Ok (mean A (Trim.selected A scores trim_percent)).
Proof.
  intros Hne. pose proof (selected_nonempty scores trim_percent Hne) as Hs.
  unfold calculate_trimmed_mean. destruct scores as [|x scores]; [done|].
  fold (Trim.selected A (x :: scores) trim_percent).
  by apply py_truediv_mean.
Qed.

End SelectedFacts.

Section ExactOrderFacts.
Import Scorer.
Open Scope Q_scope.

Ltac qlt :=
  repeat match goal with
  | H : num_lt exact _ _ = true |- _ => apply exact_lt_true in H
  | H : num_lt exact _ _ = false |- _ => apply exact_lt_false in H
  end.

Lemma exact_lt_proper (x x' y y' : Q) :
  x == x' → y == y' → num_lt exact x y = num_lt exact x' y'.
Proof.
  intros Hx Hy.
  destruct (num_lt exact x y) eqn:E1, (num_lt exact x' y') eqn:E2; try done; qlt; lra.
Qed.

Lemma insert_proper (x x' : Q) (l l' : list Q) :
  x == x' → Forall2 Qeq l l' → Forall2 Qeq (insert exact x l) (insert exact x' l').
Proof.
  intros Hx. induction 1 as [|y y' l l' Hy Hl IH]; [by repeat constructor|].
  cbn [insert]. rewrite (exact_lt_proper y y' x x' Hy Hx).
  destruct (num_lt exact y' x'); by repeat constructor.
Qed.

Lemma Forall2_Qeq_refl (l : list Q) : Forall2 Qeq l l.
Proof. induction l; by constructor. Qed.

Lemma Forall2_Qeq_trans (l1 l2 l3 : list Q) :
  Forall2 Qeq l1 l2 → Forall2 Qeq l2 l3 → Forall2 Qeq l1 l3.
Proof.
  intros H. revert l3. induction H as [|x y l1 l2 Hxy H IH]; intros l3 H3.
  - by inversion H3.
  - inversion H3 as [|? z ? l3' Hyz H3']; subst. constructor; [lra|by apply IH].
Qed.

Lemma insert_swap (x y : Q) (s : list Q) :
  Forall2 Qeq (insert exact x (insert exact y s)) (insert exact y (insert exact x s)).
Proof.
  induction s as [|z s IH].
  - cbn [insert].
    destruct (num_lt exact y x) eqn:E1, (num_lt exact x y) eqn:E2; qlt;
      repeat constructor; lra.
  - cbn [insert].
    destruct (num_lt exact z y) eqn:E1, (num_lt exact z x) eqn:E2; cbn [insert];
      rewrite ?E1, ?E2.
    + constructor; [lra|exact IH].
    + destruct (num_lt exact x y) eqn:E3; qlt; [|lra]. apply Forall2_Qeq_refl.
    + destruct (num_lt exact y x) eqn:E3; qlt; [|lra]. apply Forall2_Qeq_refl.
    + destruct (num_lt exact y x) eqn:E3, (num_lt exact x y) eqn:E4; qlt;
        try lra; try apply Forall2_Qeq_refl.
      repeat (constructor; [lra|]). apply Forall2_Qeq_refl.
Qed.

(** Sorting rearrangements of one list gives lists equal place by place. *)
Lemma sorted_perm_Qeq (l l' : list Q) :
  l ≡ₚ l' → Forall2 Qeq (sorted exact l) (sorted exact l').
Proof.
  induction 1 as [|x l l' Hp IH|x y l|l1 l2 l3 H1 IH1 H2 IH2].
  - constructor.
  - cbn [sorted foldr]. by apply insert_proper.
  - cbn [sorted foldr]. apply insert_swap.
  - by apply (Forall2_Qeq_trans _ (sorted exact l2)).
Qed.

Lemma sum_Qeq (l l' : list Q) (a a' : Q) :
  a == a' → Forall2 Qeq l l' → fold_left Qplus l a == fold_left Qplus l' a'.
Proof.
  intros Ha H. revert a a' Ha. induction H as [|x y l l' Hxy H IH]; intros a a' Ha; [done|].
  cbn [fold_left]. apply IH. lra.
Qed.

Lemma mean_Qeq (l l' : list Q) :
  Forall2 Qeq l l' → mean exact l == mean exact l'.
Proof.
  intros H. unfold mean. cbn [num_div num_sum num_of_nat exact].
  change (num exact) with Q. rewrite (Forall2_length _ _ _ H). by rewrite (sum_Qeq l l' 0 0 ltac:(lra) H).
Qed.

Lemma selected_Qeq (l l' : list Q) (trim_percent : Q) :
  Forall2 Qeq (sorted exact l) (sorted exact l') →
  Forall2 Qeq (Trim.selected exact l trim_percent) (Trim.selected exact l' trim_percent).
Proof.
  intros H. unfold Trim.selected. change (num exact) with Q in *.
  rewrite (Forall2_length _ _ _ H).
  set (tc := py_int _).
  assert (∀ (t t' : list Q), Forall2 Qeq t t' →
            Forall2 Qeq (match t with [] => sorted exact l | _ :: _ => t end)
                        (match t' with [] => sorted exact l' | _ :: _ => t' end)) as Hm.
  { intros t t' Ht. destruct Ht; [done|]. by constructor. }
  apply Hm. destruct (0 <? tc)%Z; [|done].
  unfold py_slice. by apply Forall2_drop, Forall2_take.
Qed.

Lemma round_half_even_Qeq (x y : Q) : x == y → round_half_even x = round_half_even y.
Proof.
  intros H. unfold round_half_even.
  assert (Qfloor x = Qfloor y) as -> by (by rewrite H).
  assert ((x - inject_Z (Qfloor y) ?= 1 # 2) = (y - inject_Z (Qfloor y) ?= 1 # 2)) as ->
    by (by rewrite H).
  done.
Qed.

End ExactOrderFacts.

(** ** One list of scores read in two arithmetics *)

Section ImagesFacts.
Import Scorer.
Context (A B : Arith) {T : Type} (f : T → num A) (g : T → num B).

Lemma insert_images (x : T) (s : list T) :
  (∀ y, y ∈ s → num_lt A (f y) (f x) = num_lt B (g y) (g x)) →
  ∃ s', s' ≡ₚ x :: s
        ∧ insert A (f x) (f <$> s) = f <$> s'
        ∧ insert B (g x) (g <$> s) = g <$> s'.
Proof.
  induction s as [|y s IH]; intros Hlt.
  - by exists [x].
  - destruct IH as (s' & Hp & Hf & Hg).
    { intros z Hz. apply Hlt. by apply list_elem_of_further. }
    rewrite !fmap_cons. cbn [insert].
    rewrite <- (Hlt y (list_elem_of_here _ _)).
    destruct (num_lt A (f y) (f x)).
    + exists (y :: s'). split_and!.
      * rewrite Hp. apply perm_swap.
      * by rewrite Hf.
      * by rewrite Hg.
    + by exists (x :: y :: s).
Qed.

Lemma sorted_images (l : list T) :
  (∀ x y, x ∈ l → y ∈ l → num_lt A (f x) (f y) = num_lt B (g x) (g y)) →
  ∃ l', l' ≡ₚ l
        ∧ sorted A (f <$> l) = f <$> l'
        ∧ sorted B (g <$> l) = g <$> l'.
Proof.
  induction l as [|x l IH]; intros Hlt.
  - by exists [].
  - destruct IH as (l' & Hp & Hf & Hg).
    { intros y z Hy Hz. apply Hlt; by apply list_elem_of_further. }
    destruct (insert_images x l') as (s' & Hp' & Hf' & Hg').
    { intros y Hy. apply Hlt; [|apply list_elem_of_here].
      apply list_elem_of_further. by rewrite <- Hp. }
    exists s'. split_and!.
    + by rewrite Hp', Hp.
    + rewrite fmap_cons. cbn [sorted foldr]. fold (sorted A (f <$> l)). by rewrite Hf.
    + rewrite fmap_cons. cbn [sorted foldr]. fold (sorted B (g <$> l)). by rewrite Hg.
Qed.

(** The selected scores are the images of one selection. *)
Lemma selected_images (l : list T) (trim_percent : Q) :
  (∀ x y, x ∈ l → y ∈ l → num_lt A (f x) (f y) = num_lt B (g x) (g y)) →
  ∃ t, (∀ x, x ∈ t → x ∈ l)
       ∧ (length t ≤ length l)%nat
       ∧ Trim.selected A (f <$> l) trim_percent = f <$> t
       ∧ Trim.selected B (g <$> l) trim_percent = g <$> t.
Proof.
  intros Hlt. destruct (sorted_images l Hlt) as (l' & Hp & Hf & Hg).
  unfold Trim.selected. rewrite Hf, Hg, !length_fmap.
  set (tc := py_int _).
  set (t := if (0 <? tc)%Z
            then py_slice l' (Z.to_nat tc) (length l' - Z.to_nat tc) else l').
  assert ((if (0 <? tc)%Z
           then py_slice (f <$> l') (Z.to_nat tc) (length l' - Z.to_nat tc)
           else f <$> l') = f <$> t) as ->.
  { unfold t, py_slice. destruct (0 <? tc)%Z; [|done]. by rewrite fmap_drop, fmap_take. }
  assert ((if (0 <? tc)%Z
           then py_slice (g <$> l') (Z.to_nat tc) (length l' - Z.to_nat tc)
           else g <$> l') = g <$> t) as ->.
  { unfold t, py_slice. destruct (0 <? tc)%Z; [|done]. by rewrite fmap_drop, fmap_take. }
  assert (∀ x, x ∈ t → x ∈ l') as Hin.
  { intros x Hx. unfold t in Hx. destruct (0 <? tc)%Z; [|done].
    by apply elem_of_py_slice in Hx. }
  assert (length t ≤ length l')%nat as Hlen.
  { unfold t, py_slice. destruct (0 <? tc)%Z; [|done].
    rewrite length_drop, length_take. lia. }
  destruct t as [|x t].
  - exists l'. split_and!; [|by rewrite Hp|done|done]. intros x Hx. by rewrite <- Hp.
  - exists (x :: t). split_and!; [|by rewrite <- Hp|done|done].
    intros y Hy. rewrite <- Hp. by apply Hin.
Qed.

End ImagesFacts.

Section WholeScoreFacts.
Import Scorer.
Open Scope Z_scope.

Lemma exact_lt_whole (a b : Z) : num_lt exact (inject_Z a) (inject_Z b) = (a <? b).
Proof.
  destruct (Z.ltb_spec a b) as [H|H].
  - apply exact_lt_true. by rewrite <- Zlt_Qlt.
  - apply exact_lt_false. by rewrite <- Zle_Qle.
Qed.

Lemma lt_whole_agree (a b : Z) :
  0 ≤ a ≤ 10 → 0 ≤ b ≤ 10 →
  num_lt binary64 (f64_of_Z a) (f64_of_Z b) = num_lt exact (inject_Z a) (inject_Z b).
Proof. intros Ha Hb. rewrite exact_lt_whole. by apply f64_lt_whole. Qed.

Lemma exact_fold_whole (t : list Z) (acc : Z) :
  fold_left Qplus (inject_Z <$> t) (inject_Z acc) = inject_Z (acc + zsum t).
Proof.
  revert acc. induction t as [|z t IH]; intros acc.
  - cbn. by rewrite Z.add_0_r.
  - rewrite fmap_cons. cbn [fold_left zsum foldr].
    assert (Qplus (inject_Z acc) (inject_Z z) = inject_Z (acc + z)) as ->.
    { unfold Qplus, inject_Z. cbn [Qnum Qden]. f_equal. lia. }
    rewrite IH. f_equal. unfold zsum. lia.
Qed.

Lemma exact_sum_whole (t : list Z) : num_sum exact (inject_Z <$> t) = inject_Z (zsum t).
Proof. apply (exact_fold_whole t 0). Qed.

(** Every quotient of a sum of whole scores by their number, times ten,
    rounds in binary64 to the integer it rounds to exactly. *)
Lemma f64_final_check :
  all_from 200 1 (fun len =>
    let flen := f64_of_Z len in
    let qlen := inject_Z len in
    all_from (Z.to_nat (10 * len + 1)) 0 (fun s =>
      match f64_round (PrimFloat.mul (PrimFloat.div (f64_of_Z s) flen) (f64_of_Z 10)) with
      | Ok z => z =? round_half_even (Qmult (Qdiv (inject_Z s) qlen) (inject_Z 10))
      | Raise _ => false
      end)) = true.
Proof. vm_compute. reflexivity. Qed.

Lemma f64_final_whole (len s : Z) :
  1 ≤ len ≤ 200 → 0 ≤ s ≤ 10 * len →
  f64_round (PrimFloat.mul (PrimFloat.div (f64_of_Z s) (f64_of_Z len)) (f64_of_Z 10))
  = Ok (round_half_even (Qmult (Qdiv (inject_Z s) (inject_Z len)) (inject_Z 10))).
Proof.
  intros Hlen Hs. pose proof f64_final_check as H.
  apply (all_from_spec _ _ _) with (x := len) in H; [|lia]. cbv beta zeta in H.
  apply (all_from_spec _ _ _) with (x := s) in H; [|lia]. cbv beta in H.
  destruct (f64_round _) as [z|e]; [|done]. by apply Z.eqb_eq in H as ->.
Qed.

(** The final score of a selection of whole scores, in the three
    arithmetics. *)
Lemma final_of_selection (t : list Z) :
  t ≠ [] → (length t ≤ 200)%nat → Forall (fun z => 0 ≤ z ≤ 10) t →
  num_round binary64 (num_mul binary64 (mean binary64 (f64_of_Z <$> t))
                                       (num_of_nat binary64 10))
  = num_round exact (num_mul exact (mean exact (inject_Z <$> t)) (num_of_nat exact 10))
  ∧ num_round binary64_compensated
      (num_mul binary64_compensated (mean binary64_compensated (f64_of_Z <$> t))
                                    (num_of_nat binary64_compensated 10))
    = num_round exact (num_mul exact (mean exact (inject_Z <$> t)) (num_of_nat exact 10)).
Proof.
  intros Hne Hlen Hall.
  pose proof (zsum_bounds 0 10 t Hall) as Hs.
  assert (1 ≤ Z.of_nat (length t) ≤ 200) as Hl by (destruct t; [done|simpl in *; lia]).
  unfold mean.
  change (num_sum binary64) with f64_sum.
  change (num_sum binary64_compensated) with f64_sum_compensated.
  fold (int_scores t).
  rewrite (f64_sum_whole t Hall Hlen), (f64_sum_compensated_whole t Hall Hlen).
  rewrite exact_sum_whole. unfold int_scores. rewrite !length_fmap.
  cbn [num_round num_mul num_div num_of_nat binary64 binary64_compensated exact].
  rewrite !f64_of_nat_Z.
  split; apply (f64_final_whole (Z.of_nat (length t)) (zsum t)); lia.
Qed.

End WholeScoreFacts.

Section ScorerFacts2.
Import Scorer.

Lemma trimmed_mean_by_sorted (A : Arith) (S S' : list (num A)) (trim_percent : Q) :
  length S = length S' → sorted A S = sorted A S' →
  calculate_trimmed_mean A S trim_percent = calculate_trimmed_mean A S' trim_percent.
Proof.
  intros Hlen Hs. destruct S as [|x S], S' as [|x' S']; try done.
  rewrite !calculate_trimmed_mean_selected by done.
  unfold Trim.selected. by rewrite Hs.
Qed.

Lemma Sorted_inject_Z (l : list Z) : Sorted Qle (inject_Z <$> l) → Sorted Z.le l.
Proof.
  induction l as [|x l IH]; [constructor|]. rewrite fmap_cons. intros H.
  apply Sorted_inv in H as [H Hhd]. constructor; [by apply IH|].
  destruct l as [|y l]; [constructor|]. rewrite fmap_cons in Hhd.
  apply HdRel_inv in Hhd. constructor. by rewrite Zle_Qle.
Qed.

(** Whole scores in range sort to one list, whatever order they come in. *)
Lemma sorted_whole_perm (l l' : list Z) :
  l ≡ₚ l' → Forall (fun z => (0 ≤ z ≤ 10)%Z) l →
  sorted binary64 (f64_of_Z <$> l) = sorted binary64 (f64_of_Z <$> l').
Proof.
  intros Hp Hall.
  assert (Forall (fun z => (0 ≤ z ≤ 10)%Z) l') as Hall' by (by rewrite <- Hp).
  assert (∀ l0, Forall (fun z => (0 ≤ z ≤ 10)%Z) l0 →
            ∃ l1, l1 ≡ₚ l0 ∧ Sorted Z.le l1
                  ∧ sorted binary64 (f64_of_Z <$> l0) = f64_of_Z <$> l1) as Hsort.
  { intros l0 H0. destruct (sorted_images binary64 exact f64_of_Z inject_Z l0)
      as (l1 & Hp1 & Hf & Hg).
    - rewrite Forall_forall in H0. intros x y Hx Hy. apply lt_whole_agree; by apply H0.
    - exists l1. split_and!; [done| |done]. apply Sorted_inject_Z.
      pose proof (sorted_Sorted (inject_Z <$> l0)) as Hso.
      change (num exact) with Q in *. by rewrite Hg in Hso. }
  destruct (Hsort l Hall) as (l1 & Hp1 & Hs1 & ->).
  destruct (Hsort l' Hall') as (l2 & Hp2 & Hs2 & ->).
  f_equal. apply (Sorted_unique Z.le); [done|done|]. by rewrite Hp1, Hp2.
Qed.

Lemma round_half_even_mono (x y : Q) :
  (x <= y)%Q → (round_half_even x ≤ round_half_even y)%Z.
Proof.
  intros Hxy. destruct (Z_le_gt_dec (round_half_even x) (round_half_even y)) as [|Hgt];
    [done|exfalso].
  pose proof (round_half_even_nearest x) as Hx.
  pose proof (round_half_even_nearest y) as Hy.
  apply Qabs_Qle_condition in Hx as [Hx1 Hx2].
  apply Qabs_Qle_condition in Hy as [Hy1 Hy2].
  assert (inject_Z (round_half_even y) + 1 <= inject_Z (round_half_even x))%Q as Hz.
  { rewrite <- (inject_Z_plus _ 1). rewrite <- Zle_Qle. lia. }
  assert (x == y)%Q as E by lra.
  apply round_half_even_Qeq in E. lia.
Qed.

Lemma round_half_even_whole (k : Z) : round_half_even (inject_Z k) = k.
Proof.
  unfold round_half_even. rewrite Qfloor_Z.
  assert ((inject_Z k - inject_Z k ?= 1 # 2)%Q = Lt) as ->; [|done].
  rewrite <- Qlt_alt. lra.
Qed.

End ScorerFacts2.

Section ScorerFacts3.
Import Scorer.

Lemma trimmed_mean_perm_exact (S S' : list Q) (trim_percent : Q) :
  S ≡ₚ S' →
  ∃ m m', calculate_trimmed_mean exact S trim_percent = Ok m
          ∧ calculate_trimmed_mean exact S' trim_percent = Ok m'
          ∧ (m == m')%Q.
Proof.
  intros Hp. destruct S as [|x S].
  - apply Permutation_nil_l in Hp. subst S'. exists 0%Q, 0%Q.
    split_and!; reflexivity.
  - destruct S' as [|x' S']; [by apply Permutation_nil_r in Hp|].
    rewrite !calculate_trimmed_mean_selected by done.
    eexists _, _. split_and!; [done|done|].
    apply mean_Qeq, selected_Qeq, sorted_perm_Qeq, Hp.
Qed.

Lemma final_score_by_mean_exact (S S' : list Q) (m m' : Q) :
  calculate_trimmed_mean exact S default_trim_percent = Ok m →
  calculate_trimmed_mean exact S' default_trim_percent = Ok m' →
  (m == m')%Q → final_score exact S = final_score exact S'.
Proof.
  intros H1 H2 E. unfold final_score. rewrite H1, H2. cbn [bind num_round exact].
  f_equal. apply round_half_even_Qeq. cbn [num_mul]. by rewrite E.
Qed.

Lemma selected_subset (A : Arith) (S : list (num A)) (trim_percent : Q) (y : num A) :
  y ∈ Trim.selected A S trim_percent → y ∈ S.
Proof.
  unfold Trim.selected. intros Hy. rewrite <- (sorted_perm A S).
  destruct (0 <? _)%Z; [|by destruct (sorted A S)].
  destruct (py_slice _ _ _) eqn:E; [done|]. rewrite <- E in Hy.
  by apply elem_of_py_slice in Hy.
Qed.

(** The exact final score of scores between [lo] and [hi]. *)
Lemma final_score_range_exact (x : Q) (S : list Q) (lo hi : Q) :
  Forall (fun z => lo <= z <= hi)%Q (x :: S) →
  ∃ z, final_score exact (x :: S) = Ok z
       ∧ (round_half_even (lo * 10) ≤ z ≤ round_half_even (hi * 10))%Z.
Proof.
  intros Hall. unfold final_score.
  rewrite calculate_trimmed_mean_selected by done. cbn [bind num_round exact].
  eexists. split; [done|].
  destruct (mean_bounds lo hi (Trim.selected exact (x :: S) default_trim_percent))
    as [H1 H2].
  { by apply (selected_nonempty exact (x :: S)). }
  { apply Forall_forall. intros y Hy. apply (selected_subset exact) in Hy.
    rewrite Forall_forall in Hall. by apply Hall. }
  cbn [num_mul num_of_nat exact]. change (inject_Z (Z.of_nat 10)) with 10%Q.
  split; apply round_half_even_mono; lra.
Qed.

End ScorerFacts3.

Section ScorerFacts4.
Import Scorer.

(** The final score of whole scores in range is the same in binary64 as in
    exact arithmetic. *)
Lemma final_score_whole (l : list Z) :
  Forall (fun z => (0 ≤ z ≤ 10)%Z) l → (length l ≤ 200)%nat →
  final_score binary64 (int_scores l) = final_score exact (inject_Z <$> l)
  ∧ final_score binary64_compensated (int_scores l) = final_score exact (inject_Z <$> l).
Proof.
  intros Hall Hlen. destruct l as [|x l]; [by vm_compute|].
  destruct (selected_images binary64 exact f64_of_Z inject_Z (x :: l) default_trim_percent)
    as (t & Hin & Hlt & Hf & Hg).
  { rewrite Forall_forall in Hall. intros a b Ha Hb. apply lt_whole_agree; by apply Hall. }
  assert (t ≠ []) as Hne.
  { intros ->. by apply (selected_nonempty binary64 (f64_of_Z <$> x :: l)) in Hf. }
  assert (Forall (fun z => (0 ≤ z ≤ 10)%Z) t) as Ht.
  { rewrite Forall_forall in Hall |- *. intros z Hz. by apply Hall, Hin. }
  destruct (final_of_selection t Hne ltac:(lia) Ht) as [H1 H2].
  unfold final_score, int_scores.
  rewrite !calculate_trimmed_mean_selected by done.
  change (Trim.selected binary64_compensated) with (Trim.selected binary64).
  change (num binary64) with float in *. change (num exact) with Q in *.
  rewrite Hf, Hg. cbn [bind]. done.
Qed.

Lemma trimmed_mean_whole_perm (l l' : list Z) (trim_percent : Q) :
  l ≡ₚ l' → Forall (fun z => (0 ≤ z ≤ 10)%Z) l →
  calculate_trimmed_mean binary64 (int_scores l) trim_percent
  = calculate_trimmed_mean binary64 (int_scores l') trim_percent
  ∧ calculate_trimmed_mean binary64_compensated (int_scores l) trim_percent
    = calculate_trimmed_mean binary64_compensated (int_scores l') trim_percent.
Proof.
  intros Hp Hall. pose proof (sorted_whole_perm l l' Hp Hall) as Hs.
  assert (length (int_scores l) = length (int_scores l')) as Hlen.
  { unfold int_scores. by rewrite !length_fmap, Hp. }
  split.
  - by apply trimmed_mean_by_sorted.
  - by apply trimmed_mean_by_sorted.
Qed.

End ScorerFacts4.

Section ScorerProperties.
Import Scorer.

(** X9.  The order in which the scores of one student arrive does not
    matter: rearranged scores give the same trimmed mean and the same final
    score, in exact arithmetic for all scores and in binary64 for whole
    scores in range. *)
Theorem scores_order_irrelevant :
  (∀ (S S' : list Q) (trim_percent : Q),
     S ≡ₚ S' →
     (∃ m m', calculate_trimmed_mean exact S trim_percent = Ok m
              ∧ calculate_trimmed_mean exact S' trim_percent = Ok m'
              ∧ (m == m')%Q)
     ∧ final_score exact S = final_score exact S')
  ∧ (∀ (l l' : list Z) (trim_percent : Q),
       l ≡ₚ l' → Forall (fun z => (0 ≤ z ≤ max_score)%Z) l →
       calculate_trimmed_mean binary64 (int_scores l) trim_percent
       = calculate_trimmed_mean binary64 (int_scores l') trim_percent
       ∧ calculate_trimmed_mean binary64_compensated (int_scores l) trim_percent
         = calculate_trimmed_mean binary64_compensated (int_scores l') trim_percent
       ∧ final_score binary64 (int_scores l) = final_score binary64 (int_scores l')
       ∧ final_score binary64_compensated (int_scores l)
         = final_score binary64_compensated (int_scores l')).
Proof.
  split.
  - intros S S' trim_percent Hp. split; [by apply trimmed_mean_perm_exact|].
    destruct (trimmed_mean_perm_exact S S' default_trim_percent Hp)
      as (m & m' & H1 & H2 & E).
    by apply (final_score_by_mean_exact S S' m m').
  - intros l l' trim_percent Hp Hall.
    destruct (trimmed_mean_whole_perm l l' trim_percent Hp Hall) as [H1 H2].
    destruct (trimmed_mean_whole_perm l l' default_trim_percent Hp Hall) as [H3 H4].
    split_and!; [done|done| |]; unfold final_score; by rewrite ?H3, ?H4.
Qed.

(** X10.  For whole scores between 0 and 10, at most 200 of them, the final
    score computed on binary64 floats is the one exact arithmetic gives,
    with either summation. *)
Theorem final_score_whole_is_exact (l : list Z) :
  Forall (fun z => (0 ≤ z ≤ max_score)%Z) l → (length l ≤ max_graders)%nat →
  final_score binary64 (int_scores l) = final_score exact (inject_Z <$> l)
  ∧ final_score binary64_compensated (int_scores l) = final_score exact (inject_Z <$> l).
Proof. intros Hall Hlen. by apply final_score_whole. Qed.

Lemma final_score_whole_is_exact_witness :
  Forall (fun z => (0 ≤ z ≤ max_score)%Z) [7; 9; 8; 10; 3]%Z
  ∧ (length [7; 9; 8; 10; 3]%Z ≤ max_graders)%nat
  ∧ final_score binary64 (int_scores [7; 9; 8; 10; 3]%Z)
    = final_score exact (inject_Z <$> [7; 9; 8; 10; 3]%Z).
Proof.
  assert (Forall (fun z => (0 ≤ z ≤ max_score)%Z) [7; 9; 8; 10; 3]%Z) as H1
    by (unfold max_score; repeat constructor; lia).
  assert (length [7; 9; 8; 10; 3]%Z ≤ max_graders)%nat as H2
    by (unfold max_graders; simpl; lia).
  split; [exact H1|]. split; [exact H2|].
  exact (proj1 (final_score_whole_is_exact [7; 9; 8; 10; 3]%Z H1 H2)).
Defined.

(** X11.  The final score stays in the range of the scores: scores between
    [lo] and [hi] give a final score between [round(10 lo)] and
    [round(10 hi)]; whole scores between 0 and 10 give one between 0 and
    100, in binary64 as well. *)
Theorem final_score_in_range :
  (∀ (x : Q) (S : list Q) (lo hi : Q),
     Forall (fun z => lo <= z <= hi)%Q (x :: S) →
     ∃ z, final_score exact (x :: S) = Ok z
          ∧ (round_half_even (lo * 10) ≤ z ≤ round_half_even (hi * 10))%Z)
  ∧ (∀ (x : Z) (S : list Z),
       Forall (fun z => (0 ≤ z ≤ max_score)%Z) (x :: S) →
       (length (x :: S) ≤ max_graders)%nat →
       ∃ z, final_score binary64 (int_scores (x :: S)) = Ok z
            ∧ final_score binary64_compensated (int_scores (x :: S)) = Ok z
            ∧ (0 ≤ z ≤ 100)%Z).
Proof.
  split; [apply final_score_range_exact|].
  intros x S Hall Hlen. destruct (final_score_whole (x :: S) Hall Hlen) as [-> ->].
  destruct (final_score_range_exact (inject_Z x) (inject_Z <$> S) 0 10) as (z & Hz & Hr).
  { rewrite <- fmap_cons. apply Forall_fmap. eapply Forall_impl; [exact Hall|].
    intros y [Hy1 Hy2]. cbn. unfold max_score in Hy2.
    change 0%Q with (inject_Z 0). change 10%Q with (inject_Z 10).
    rewrite <- !Zle_Qle. lia. }
  exists z. rewrite fmap_cons. split; [done|]. split; [done|].
  change (0 * 10)%Q with (inject_Z 0) in Hr. change (10 * 10)%Q with (inject_Z 100) in Hr.
  by rewrite !round_half_even_whole in Hr.
Qed.

End ScorerProperties.

Section TrimFacts.
Import Scorer.
Context (A : Arith).

Lemma py_int_nonpos (x : Q) : (x <= 0)%Q → (py_int x ≤ 0)%Z.
Proof.
  intros Hx. unfold py_int. unfold Qle in Hx. cbn in Hx.
  rewrite Z.mul_1_r in Hx.
  rewrite <- (Z.opp_involutive (Qnum x)), Z.quot_opp_l by done.
  assert (0 ≤ (- Qnum x) ÷ Z.pos (Qden x))%Z; [|lia].
  apply Z.quot_pos; lia.
Qed.

Lemma py_int_scale_ge (n : nat) (x : Q) :
  (1 <= x)%Q → (Z.of_nat n ≤ py_int (inject_Z (Z.of_nat n) * x))%Z.
Proof.
  intros Hx. unfold py_int. destruct x as [p q]. unfold Qle in Hx. cbn in *.
  rewrite Z.mul_1_r in Hx. rewrite Z.mul_1_l in Hx.
  change (Z.pos (1 * q)) with (Z.pos q).
  apply Z.quot_le_lower_bound; [lia|]. nia.
Qed.

(** A trim fraction of zero or less trims nothing. *)
Lemma selected_no_trim (S : list (num A)) (trim_percent : Q) :
  (trim_percent <= 0)%Q → Trim.selected A S trim_percent = sorted A S.
Proof.
  intros Hx. unfold Trim.selected.
  assert (py_int (inject_Z (Z.of_nat (length (sorted A S))) * trim_percent) ≤ 0)%Z as H.
  { apply py_int_nonpos. assert (0 <= inject_Z (Z.of_nat (length (sorted A S))))%Q.
    { change 0%Q with (inject_Z 0). rewrite <- Zle_Qle. lia. }
    nra. }
  destruct (Z.ltb_spec 0 (py_int (inject_Z (Z.of_nat (length (sorted A S))) * trim_percent)));
    [lia|]. by destruct (sorted A S).
Qed.

(** A trim fraction of one or more would trim everything: all scores are
    kept instead. *)
Lemma selected_trim_all (S : list (num A)) (trim_percent : Q) :
  (1 <= trim_percent)%Q → Trim.selected A S trim_percent = sorted A S.
Proof.
  intros Hx. unfold Trim.selected.
  pose proof (py_int_scale_ge (length (sorted A S)) trim_percent Hx) as H.
  set (tc := py_int _) in *.
  destruct (0 <? tc)%Z; [|by destruct (sorted A S)].
  assert (py_slice (sorted A S) (Z.to_nat tc) (length (sorted A S) - Z.to_nat tc) = [])
    as ->; [|done].
  unfold py_slice. apply drop_ge. rewrite length_take. lia.
Qed.

Lemma py_int_half (n : nat) :
  py_int (inject_Z (Z.of_nat n) * (1 # 2)) = Z.of_nat (n / 2).
Proof.
  unfold py_int. cbn [Qnum Qden Qmult inject_Z]. change (Z.pos (1 * 2)) with 2%Z.
  rewrite Z.mul_1_r, Z.quot_div_nonneg by lia.
  by rewrite (Nat2Z.inj_div n 2).
Qed.

(** A trim fraction of one half: the median of an odd number of scores, all
    the scores of an even number. *)
Lemma selected_half (S : list (num A)) :
  let n := length S in
  if Nat.even n
  then Trim.selected A S (1 # 2) = sorted A S
  else ∃ median, sorted A S !! (n / 2)%nat = Some median
                 ∧ Trim.selected A S (1 # 2) = [median].
Proof.
  intros n. unfold Trim.selected. rewrite py_int_half, sorted_length. fold n.
  rewrite Nat2Z.id.
  destruct (Nat.even n) eqn:He.
  - apply Nat.even_spec in He as [k Hk].
    assert (n / 2 = k)%nat as Hd by (rewrite Hk, Nat.mul_comm; by apply Nat.div_mul).
    rewrite Hd.
    destruct (0 <? Z.of_nat k)%Z; [|by destruct (sorted A S)].
    assert (py_slice (sorted A S) k (n - k) = []) as ->; [|done].
    unfold py_slice. apply drop_ge. rewrite length_take. lia.
  - assert (Nat.odd n = true) as Ho by (by rewrite <- Nat.negb_even, He).
    apply Nat.odd_spec in Ho as [k Hk].
    assert (n / 2 = k)%nat as Hd.
    { rewrite Hk. rewrite Nat.add_comm, Nat.mul_comm, Nat.div_add by done. done. }
    rewrite Hd.
    assert (length (sorted A S) = n) as Hlen by apply sorted_length.
    destruct (lookup_lt_is_Some_2 (sorted A S) k) as [median Hm]; [lia|].
    exists median. split; [done|].
    assert (py_slice (sorted A S) k (n - k) = [median]) as Hslice.
    { unfold py_slice. replace (n - k)%nat with (Datatypes.S k) by lia.
      rewrite (take_S_r _ _ _ Hm), drop_app_length'; [done|].
      rewrite length_take. lia. }
    destruct (Z.ltb_spec 0 (Z.of_nat k)).
    + by rewrite Hslice.
    + assert (k = 0)%nat as -> by lia.
      destruct (sorted A S) as [|y [|z s]] eqn:E; simpl in *; [lia| |lia].
      by injection Hm as ->.
Qed.

End TrimFacts.

Section ExtremeFacts.
Import Scorer.
Open Scope Q_scope.

Lemma Forall2_Qeq_const (v : Q) (l1 l2 : list Q) :
  Forall (fun z => z == v) l1 → Forall (fun z => z == v) l2 → length l1 = length l2 →
  Forall2 Qeq l1 l2.
Proof.
  intros H1. revert l2. induction H1 as [|x l1 Hx H1 IH]; intros l2 H2 Hlen.
  - destruct l2; [constructor|done].
  - destruct l2 as [|y l2]; [done|]. apply Forall_cons in H2 as [Hy H2].
    constructor; [lra|]. apply IH; [done|]. simpl in Hlen. lia.
Qed.

Lemma Sorted_Qle_head (x : Q) (s : list Q) :
  Sorted Qle (x :: s) → Forall (fun z => x <= z) s.
Proof.
  intros H. apply Sorted_StronglySorted in H; [|intros ???; lra].
  by apply StronglySorted_inv in H as [_ H].
Qed.

(** The highest score goes last: up to its place, the sorted list is that of
    the other scores. *)
Lemma insert_top (x : Q) (s : list Q) (m : nat) :
  Sorted Qle s → Forall (fun z => z <= x) s → (m ≤ length s)%nat →
  Forall2 Qeq (take m (insert exact x s)) (take m s).
Proof.
  intros Hs. revert m. induction s as [|y s IH]; intros m Hall Hm.
  - simpl in Hm. assert (m = 0)%nat as -> by lia. constructor.
  - apply Forall_cons in Hall as [Hy Hall].
    pose proof (Sorted_Qle_head y s Hs) as Hhead.
    apply Sorted_inv in Hs as [Hs _].
    cbn [insert]. destruct (num_lt exact y x) eqn:E.
    + destruct m as [|m]; [constructor|]. cbn [take]. constructor; [lra|].
      apply IH; [done|done|simpl in Hm; lia].
    + apply exact_lt_false in E.
      apply (Forall2_Qeq_const x).
      * apply Forall_take. constructor; [lra|]. constructor; [lra|].
        rewrite Forall_forall in Hall, Hhead |- *. intros z Hz.
        pose proof (Hall z Hz). pose proof (Hhead z Hz). lra.
      * apply Forall_take. constructor; [lra|].
        rewrite Forall_forall in Hall, Hhead |- *. intros z Hz.
        pose proof (Hall z Hz). pose proof (Hhead z Hz). lra.
      * rewrite !length_take. simpl in *. lia.
Qed.

(** The lowest score goes first. *)
Lemma insert_bottom (x : Q) (s : list Q) :
  Forall (fun z => x <= z) s → insert exact x s = x :: s.
Proof.
  intros Hall. destruct s as [|y s]; [done|]. apply Forall_cons in Hall as [Hy _].
  cbn [insert]. destruct (num_lt exact y x) eqn:E; [|done].
  apply exact_lt_true in E. lra.
Qed.

Lemma default_trim_count_pos (n : nat) : (10 ≤ n)%nat → (1 ≤ n / 10)%nat.
Proof. intros H. apply Nat.div_le_lower_bound; lia. Qed.

(** With ten scores or more, the selection leaves the highest out: it is
    taken from the other scores alone. *)
Lemma selected_without_top (x : Q) (S : list Q) :
  (9 ≤ length S)%nat → Forall (fun z => z <= x) S →
  let n := (length S + 1)%nat in
  Forall2 Qeq (Trim.selected exact (x :: S) default_trim_percent)
              (py_slice (sorted exact S) (n / 10) (n - n / 10))
  ∧ py_slice (sorted exact S) (n / 10) (n - n / 10) ≠ [].
Proof.
  intros Hlen Hall n.
  assert (n = (length S + 1)%nat) as Hn by done. clearbody n.
  assert (length (sorted exact S) = length S) as Hls by apply sorted_length.
  pose proof (default_trim_count_pos n ltac:(lia)) as Htc.
  assert (n / 10 * 10 ≤ n)%nat as Hdiv.
  { rewrite Nat.mul_comm. apply Nat.Div0.mul_div_le. }
  assert (py_slice (sorted exact S) (n / 10) (n - n / 10) ≠ []) as Hne.
  { intros E. apply (f_equal length) in E. unfold py_slice in E.
    rewrite length_drop, length_take, Hls in E. cbn [length] in E. lia. }
  split; [|done].
  unfold Trim.selected. rewrite sorted_length, trim_count_default.
  change (length (x :: S)) with (Datatypes.S (length S)).
  replace (Datatypes.S (length S)) with n by lia.
  rewrite Nat2Z.id.
  destruct (Z.ltb_spec 0 (Z.of_nat (n / 10))); [|lia].
  assert (Forall2 Qeq (py_slice (sorted exact (x :: S)) (n / 10) (n - n / 10))
                      (py_slice (sorted exact S) (n / 10) (n - n / 10))) as H2.
  { unfold py_slice. apply Forall2_drop. cbn [sorted foldr]. fold (sorted exact S).
    apply insert_top; [apply sorted_Sorted| |].
    2: { apply Nat.le_trans with (length S); [lia|]. apply Nat.eq_le_incl. symmetry.
         apply (sorted_length exact S). }
    rewrite Forall_forall in Hall |- *. intros z Hz. apply Hall.
    by rewrite <- (sorted_perm exact S). }
  destruct H2 as [|a b l1 l2 Hab H2]; [done|]. by constructor.
Qed.

(** With ten scores or more, the selection leaves the lowest out. *)
Lemma selected_without_bottom (x : Q) (S : list Q) :
  (9 ≤ length S)%nat → Forall (fun z => x <= z) S →
  let n := (length S + 1)%nat in
  Trim.selected exact (x :: S) default_trim_percent
  = py_slice (sorted exact S) (n / 10 - 1) (n - n / 10 - 1)
  ∧ py_slice (sorted exact S) (n / 10 - 1) (n - n / 10 - 1) ≠ [].
Proof.
  intros Hlen Hall n.
  assert (n = (length S + 1)%nat) as Hn by done. clearbody n.
  assert (length (sorted exact S) = length S) as Hls by apply sorted_length.
  pose proof (default_trim_count_pos n ltac:(lia)) as Htc.
  assert (n / 10 * 10 ≤ n)%nat as Hdiv.
  { rewrite Nat.mul_comm. apply Nat.Div0.mul_div_le. }
  assert (py_slice (sorted exact S) (n / 10 - 1) (n - n / 10 - 1) ≠ []) as Hne.
  { intros E. apply (f_equal length) in E. unfold py_slice in E.
    rewrite length_drop, length_take, Hls in E. cbn [length] in E. lia. }
  split; [|done].
  unfold Trim.selected. rewrite sorted_length, trim_count_default.
  change (length (x :: S)) with (Datatypes.S (length S)).
  replace (Datatypes.S (length S)) with n by lia.
  rewrite Nat2Z.id.
  destruct (Z.ltb_spec 0 (Z.of_nat (n / 10))); [|lia].
  assert (py_slice (sorted exact (x :: S)) (n / 10) (n - n / 10)
          = py_slice (sorted exact S) (n / 10 - 1) (n - n / 10 - 1)) as ->.
  { cbn [sorted foldr]. fold (sorted exact S). rewrite insert_bottom.
    - unfold py_slice.
      destruct (n / 10)%nat as [|a] eqn:Ea; [lia|].
      destruct (n - Datatypes.S a)%nat as [|b] eqn:Eb; [lia|].
      replace (Datatypes.S a - 1)%nat with a by lia.
      replace (Datatypes.S b - 1)%nat with b by lia. done.
    - rewrite Forall_forall in Hall |- *. intros z Hz. apply Hall.
      by rewrite <- (sorted_perm exact S). }
  by destruct (py_slice (sorted exact S) (n / 10 - 1) (n - n / 10 - 1)).
Qed.

End ExtremeFacts.

(** ** Scores that [<] orders *)

Section OrderFacts.
Import Scorer Doubles.
Context (A : Arith).

Lemma ordered_by_lt_subset (l l' : list (num A)) :
  (∀ x, x ∈ l' → x ∈ l) → ordered_by_lt A l → ordered_by_lt A l'.
Proof. intros Hin H x y z Hx Hy Hz. apply H; by apply Hin. Qed.

Lemma ordered_by_lt_tail (x : num A) (l : list (num A)) :
  ordered_by_lt A (x :: l) → ordered_by_lt A l.
Proof. apply ordered_by_lt_subset. intros y Hy. by right. Qed.

(** Inserting into an ascending list leaves it ascending. *)
Lemma insert_ascending (x : num A) (l : list (num A)) :
  ordered_by_lt A (x :: l) →
  StronglySorted (le A) l → StronglySorted (le A) (insert A x l).
Proof.
  intros Hord Hs. induction Hs as [|y l Hs IH Hall].
  - repeat constructor.
  - cbn [insert]. destruct (num_lt A y x) eqn:E.
    + constructor.
      * apply IH. eapply ordered_by_lt_subset; [|exact Hord].
        intros w Hw. apply elem_of_cons in Hw as [->|Hw]; [by left|by do 2 right].
      * rewrite insert_perm. constructor; [|done].
        assert (y ∈ x :: y :: l) as Hy by (right; left).
        assert (x ∈ x :: y :: l) as Hx by left.
        by apply (proj1 (Hord y x x Hy Hx Hx)).
    + constructor; [by constructor|]. constructor; [done|].
      rewrite Forall_forall in Hall |- *. intros w Hw.
      assert (y ∈ x :: y :: l) as Hy by (right; left).
      assert (x ∈ x :: y :: l) as Hx by left.
      assert (w ∈ x :: y :: l) as Hw' by (by do 2 right).
      apply (proj2 (Hord x y w Hx Hy Hw')); [done|by apply Hall].
Qed.

(** [sorted] returns an ascending list: no element is above a later one. *)
Lemma sorted_ascending (l : list (num A)) :
  ordered_by_lt A l → StronglySorted (le A) (sorted A l).
Proof.
  induction l as [|x l IH]; intros Hord; [constructor|].
  change (sorted A (x :: l)) with (insert A x (sorted A l)). apply insert_ascending.
  - eapply ordered_by_lt_subset; [|exact Hord].
    intros w Hw. apply elem_of_cons in Hw as [->|Hw]; [by left|].
    right. by rewrite sorted_perm in Hw.
  - apply IH. by apply ordered_by_lt_tail in Hord.
Qed.

(** The sorted scores in three parts, at the default fraction: [n // 10]
    scores at either end, and between them the scores the mean is taken
    over, of which there is at least one. *)
Lemma default_trim_parts (S : list (num A)) :
  S ≠ [] →
  ∃ low slice high,
    sorted A S = low ++ slice ++ high
    ∧ length low = (length S / 10)%nat
    ∧ length high = (length S / 10)%nat
    ∧ slice ≠ []
    ∧ calculate_trimmed_mean A S default_trim_percent = Ok (mean A slice).
Proof.
  intros Hne. pose proof (calculate_trimmed_mean_cases A S) as Hc. cbv zeta in Hc.
  pose proof (sorted_length A S) as Hlen.
  pose proof (Nat.Div0.mul_div_le (length S) 10) as Hk.
  set (n := length S) in *. set (k := (n / 10)%nat) in *.
  assert (0 < n)%nat as Hpos by (unfold n; destruct S; [done|simpl; lia]).
  assert (py_slice (sorted A S) k (n - k) ≠ []) as Hs.
  { rewrite <- Hlen. unfold k. rewrite <- Hlen. apply default_slice_nonempty.
    intros E. rewrite E in Hlen. simpl in Hlen. lia. }
  exists (take k (sorted A S)), (py_slice (sorted A S) k (n - k)),
         (drop (n - k) (sorted A S)).
  split_and!.
  - unfold py_slice.
    rewrite <- (take_drop (n - k) (sorted A S)) at 1.
    rewrite <- (take_drop k (take (n - k) (sorted A S))) at 1.
    rewrite take_take, Nat.min_l by lia. by rewrite <- app_assoc.
  - rewrite length_take. lia.
  - rewrite length_drop. lia.
  - done.
  - destruct S as [|x S']; [done|]. rewrite Hc.
    destruct (py_slice _ _ _) eqn:E; [done|done].
Qed.

(** The same parts, in ascending order when [<] orders the scores. *)
Lemma default_trim_ascending (S : list (num A)) :
  S ≠ [] → ordered_by_lt A S →
  ∃ low slice high,
    low ++ slice ++ high ≡ₚ S
    ∧ StronglySorted (le A) (low ++ slice ++ high)
    ∧ length low = (length S / 10)%nat
    ∧ length high = (length S / 10)%nat
    ∧ slice ≠ []
    ∧ calculate_trimmed_mean A S default_trim_percent = Ok (mean A slice).
Proof.
  intros Hne Hord.
  destruct (default_trim_parts S Hne) as (low & slice & high & E & H1 & H2 & H3 & H4).
  exists low, slice, high. rewrite <- E.
  split_and!; [apply sorted_perm|by apply sorted_ascending|done..].
Qed.

End OrderFacts.

Section ExactOrder.
Import Scorer Doubles.
Open Scope Q_scope.

(** Rationals are ordered by [<]. *)
Lemma exact_ordered (l : list Q) : ordered_by_lt exact l.
Proof.
  intros x y z _ _ _. unfold le. split.
  - intros H. apply exact_lt_true in H. apply exact_lt_false. lra.
  - intros H1 H2. apply exact_lt_false in H1, H2. apply exact_lt_false. lra.
Qed.

(** In the exact reading, ascending is ascending by [<=]. *)
Lemma exact_ascending (l : list Q) :
  StronglySorted (le exact) l ↔ StronglySorted Qle l.
Proof.
  split; induction 1 as [|x l Hs IH Hall]; constructor; try done;
    (eapply Forall_impl; [exact Hall|]); intros y Hy; by apply (exact_lt_false y x).
Qed.

End ExactOrder.

Section DoubleOrder.
Import Scorer Doubles.
Open Scope Z_scope.

(** On doubles that are not NaN, [<] is the order of the ranks. *)
Lemma f64_lt_rank (x y : float) :
  f64_is_nan x = false → f64_is_nan y = false →
  PrimFloat.ltb x y = true ↔ rank_lt (f64_rank x) (f64_rank y).
Proof.
  rewrite FloatAxioms.ltb_spec. unfold f64_is_nan, f64_rank, rank_lt, SFltb, SFcompare.
  destruct (Prim2SF x) as [s|s| |s m e], (Prim2SF y) as [s'|s'| |s' m' e'];
    try discriminate; intros _ _;
    repeat match goal with b : bool |- _ => destruct b end;
    cbn [fst snd];
    try (split; [discriminate|lia]);
    try (split; [lia|discriminate]);
    try (split; [intros _; lia|done]).
  - change (PosDef.Pos.compare_cont Eq m m') with (Pos.compare m m').
    destruct (Z.compare_spec e e'), (Pos.compare_spec m m'); cbn [CompOpp];
      split; try discriminate; try lia; done.
  - change (PosDef.Pos.compare_cont Eq m m') with (Pos.compare m m').
    destruct (Z.compare_spec e e'), (Pos.compare_spec m m'); cbn [CompOpp];
      split; try discriminate; try lia; done.
Qed.

Lemma f64_le_rank (x y : float) :
  f64_is_nan x = false → f64_is_nan y = false →
  PrimFloat.ltb y x = false ↔ ¬ rank_lt (f64_rank y) (f64_rank x).
Proof.
  intros Hx Hy. rewrite <- (f64_lt_rank y x Hy Hx). by destruct (PrimFloat.ltb y x).
Qed.

Lemma rank_lt_asym (a b : Z * (Z * Z)) : rank_lt a b → ¬ rank_lt b a.
Proof. unfold rank_lt. lia. Qed.

Lemma rank_le_trans (a b c : Z * (Z * Z)) :
  ¬ rank_lt b a → ¬ rank_lt c b → ¬ rank_lt c a.
Proof. unfold rank_lt. lia. Qed.

(** Doubles without a NaN are ordered by [<]. *)
Lemma f64_ordered (l : list float) :
  Forall (fun x => f64_is_nan x = false) l →
  ordered_by_lt binary64 l ∧ ordered_by_lt binary64_compensated l.
Proof.
  intros Hall. rewrite Forall_forall in Hall.
  assert (ordered_by_lt binary64 l) as H; [|by split].
  intros x y z Hx Hy Hz. apply Hall in Hx, Hy, Hz. unfold le.
  change (num_lt binary64) with PrimFloat.ltb. split.
  - intros H. apply f64_lt_rank in H; [|done..].
    apply f64_le_rank; [done..|]. by apply rank_lt_asym.
  - intros H1 H2. apply f64_le_rank in H1, H2; try done.
    apply f64_le_rank; [done..|]. by eapply rank_le_trans.
Qed.

(** Whole scores are not NaN. *)
Lemma f64_whole_check :
  all_from 11 0 (fun z => negb (f64_is_nan (f64_of_Z z))) = true.
Proof. vm_compute. reflexivity. Qed.

Lemma int_scores_numbers (l : list Z) :
  Forall (fun z => 0 ≤ z ≤ 10) l →
  Forall (fun x => f64_is_nan x = false) (int_scores l).
Proof.
  intros Hall. unfold int_scores. apply Forall_fmap.
  eapply Forall_impl; [exact Hall|]. intros z Hz. cbv beta in Hz |- *.
  apply negb_true_iff. apply (all_from_spec _ _ _ f64_whole_check z). lia.
Qed.

End DoubleOrder.

Section TrimCountFacts.
Import Scorer Doubles.
Open Scope Z_scope.

(** The count line 30 computes on doubles, for every length up to
    [max_cells], at the fractions 0.10, 0.0, 0.5 and 1.0. *)
Lemma trim_count_binary64_check :
  all_from (Z.to_nat (max_cells + 1)) 0 (fun n =>
    let count c :=
      match Mask.f64_int (PrimFloat.mul (f64_of_Z n) c) with
      | Ok k => k
      | Raise _ => -1
      end in
    (count f64_one_tenth =? n / 10) && (count 0%float =? 0)
    && (count f64_half =? n / 2) && (count 1%float =? n)) = true.
Proof. vm_compute. reflexivity. Qed.

Lemma f64_int_count (x : float) (k : Z) :
  0 ≤ k →
  match Mask.f64_int x with Ok k' => k' | Raise _ => -1 end = k →
  Mask.f64_int x = Ok k.
Proof. intros Hk. destruct (Mask.f64_int x); intros <-; [done|lia]. Qed.

(** At these fractions the double product gives the count of the exact
    product. *)
Lemma trim_count_binary64_agrees (n : nat) :
  Z.of_nat n ≤ max_cells →
  trim_count_binary64 n f64_one_tenth
  = Ok (py_int (inject_Z (Z.of_nat n) * default_trim_percent))
  ∧ trim_count_binary64 n 0%float = Ok (py_int (inject_Z (Z.of_nat n) * 0))
  ∧ trim_count_binary64 n f64_half = Ok (py_int (inject_Z (Z.of_nat n) * (1 # 2)))
  ∧ trim_count_binary64 n 1%float = Ok (py_int (inject_Z (Z.of_nat n) * 1)).
Proof.
  intros Hn.
  pose proof (all_from_spec _ _ _ trim_count_binary64_check (Z.of_nat n)) as H.
  rewrite Z2Nat.id in H by (unfold max_cells; lia).
  specialize (H ltac:(lia)). cbv zeta beta in H.
  rewrite !andb_true_iff, !Z.eqb_eq in H. destruct H as [[[H1 H2] H3] H4].
  unfold trim_count_binary64. rewrite f64_of_nat_Z.
  assert (0 ≤ Z.of_nat n / 10) by (apply Z.div_pos; lia).
  assert (0 ≤ Z.of_nat n / 2) by (apply Z.div_pos; lia).
  split_and!.
  - rewrite trim_count_default, Nat2Z.inj_div. by apply f64_int_count.
  - assert (py_int (inject_Z (Z.of_nat n) * 0) = 0) as ->.
    { unfold py_int. cbn [Qnum Qden Qmult inject_Z]. by rewrite Z.mul_0_r. }
    by apply f64_int_count.
  - assert (py_int (inject_Z (Z.of_nat n) * (1 # 2)) = Z.of_nat n / 2) as ->.
    { unfold py_int. cbn [Qnum Qden Qmult inject_Z]. change (Z.pos (1 * 2)) with 2.
      rewrite Z.mul_1_r. apply Z.quot_div_nonneg; lia. }
    by apply f64_int_count.
  - assert (py_int (inject_Z (Z.of_nat n) * 1) = Z.of_nat n) as ->.
    { unfold py_int. cbn [Qnum Qden Qmult inject_Z]. change (Z.pos (1 * 1)) with 1.
      by rewrite Z.mul_1_r, Z.quot_1_r. }
    apply f64_int_count; [lia|done].
Qed.

End TrimCountFacts.

Section ExtremeFacts2.
Import Scorer.
Open Scope Q_scope.

Lemma Forall2_Qeq_sym (l1 l2 : list Q) : Forall2 Qeq l1 l2 → Forall2 Qeq l2 l1.
Proof. induction 1; constructor; [lra|done]. Qed.

Lemma same_selection (S S' : list Q) :
  S ≠ [] → S' ≠ [] →
  Forall2 Qeq (Trim.selected exact S default_trim_percent)
              (Trim.selected exact S' default_trim_percent) →
  (∃ m m', calculate_trimmed_mean exact S default_trim_percent = Ok m
           ∧ calculate_trimmed_mean exact S' default_trim_percent = Ok m'
           ∧ m == m')
  ∧ final_score exact S = final_score exact S'.
Proof.
  intros HS HS' Hsel. apply mean_Qeq in Hsel.
  pose proof (calculate_trimmed_mean_selected exact S default_trim_percent HS) as H1.
  pose proof (calculate_trimmed_mean_selected exact S' default_trim_percent HS') as H2.
  split.
  - eexists _, _. by split_and!.
  - by apply (final_score_by_mean_exact S S' _ _ H1 H2).
Qed.

End ExtremeFacts2.

Section TrimProperties.
Import Scorer Doubles.

(** X12.  With ten scores or more, the highest score is left out of the
    mean, and so is the lowest: raising the highest score further, or
    lowering the lowest, changes neither the trimmed mean nor the final
    score. *)
Theorem extreme_score_is_trimmed (x y : Q) (S : list Q) :
  (9 ≤ length S)%nat →
  (Forall (fun z => z <= x)%Q S → Forall (fun z => z <= y)%Q S →
   (∃ m m', calculate_trimmed_mean exact (x :: S) default_trim_percent = Ok m
            ∧ calculate_trimmed_mean exact (y :: S) default_trim_percent = Ok m'
            ∧ (m == m')%Q)
   ∧ final_score exact (x :: S) = final_score exact (y :: S))
  ∧ (Forall (fun z => x <= z)%Q S → Forall (fun z => y <= z)%Q S →
     (∃ m m', calculate_trimmed_mean exact (x :: S) default_trim_percent = Ok m
              ∧ calculate_trimmed_mean exact (y :: S) default_trim_percent = Ok m'
              ∧ (m == m')%Q)
     ∧ final_score exact (x :: S) = final_score exact (y :: S)).
Proof.
  intros Hlen. split; intros Hx Hy; apply same_selection; try done.
  - destruct (selected_without_top x S Hlen Hx) as [H1 _].
    destruct (selected_without_top y S Hlen Hy) as [H2 _].
    eapply Forall2_Qeq_trans; [exact H1|]. by apply Forall2_Qeq_sym.
  - destruct (selected_without_bottom x S Hlen Hx) as [-> _].
    destruct (selected_without_bottom y S Hlen Hy) as [-> _].
    apply Forall2_Qeq_refl.
Qed.

Lemma extreme_score_is_trimmed_witness :
  (9 ≤ length [5; 6; 7; 7; 8; 6; 7; 8; 5]%Q)%nat
  ∧ final_score exact (10 :: [5; 6; 7; 7; 8; 6; 7; 8; 5])%Q
    = final_score exact (9 :: [5; 6; 7; 7; 8; 6; 7; 8; 5])%Q.
Proof.
  assert (9 ≤ length [5; 6; 7; 7; 8; 6; 7; 8; 5]%Q)%nat as H by (simpl; lia).
  split; [exact H|].
  refine (proj2 (proj1 (extreme_score_is_trimmed 10 9 [5; 6; 7; 7; 8; 6; 7; 8; 5]%Q H)
                   _ _));
    repeat constructor; by vm_compute.
Defined.

(** X13.  Trim fractions at the edges, on numbers that [<] orders
    (rationals, doubles without a NaN).  At the fractions 0.0 and 1.0 the
    result is the mean of all scores: nothing is trimmed at 0.0, and at 1.0
    everything would be, so that all scores are kept instead.  At 0.5 the
    result is the median of an odd number of scores, and the mean of all
    scores for an even number.  In exact arithmetic every fraction of zero
    or less, and of one or more, gives the mean of all scores.

    On doubles the count of line 30 at 0.0, 0.5 and 1.0 is the count of the
    exact product, for every length up to [max_cells].  That is not so at
    every fraction: 100 * 0.29 is 28.999999999999996 on doubles, which
    trims 28 scores where the exact product trims 29. *)
Theorem trim_fraction_edges :
  (∀ (A : Arith) (x : num A) (S : list (num A)),
     ordered_by_lt A (x :: S) →
     ∃ ascending : list (num A),
       ascending ≡ₚ x :: S
       ∧ StronglySorted (le A) ascending
       ∧ calculate_trimmed_mean A (x :: S) 0 = Ok (mean A ascending)
       ∧ calculate_trimmed_mean A (x :: S) 1 = Ok (mean A ascending)
       ∧ (if Nat.even (length (x :: S))
          then calculate_trimmed_mean A (x :: S) (1 # 2) = Ok (mean A ascending)
          else ∃ median,
                 ascending !! (length (x :: S) / 2)%nat = Some median
                 ∧ calculate_trimmed_mean A (x :: S) (1 # 2) = Ok (mean A [median])))
  ∧ (∀ (x : Q) (S : list Q) (trim_percent : Q),
       (trim_percent <= 0 ∨ 1 <= trim_percent)%Q →
       ∃ ascending : list Q,
         ascending ≡ₚ x :: S
         ∧ StronglySorted Qle ascending
         ∧ calculate_trimmed_mean exact (x :: S) trim_percent
           = Ok (mean exact ascending))
  ∧ (∀ n : nat,
       (Z.of_nat n ≤ max_cells)%Z →
       trim_count_binary64 n 0%float = Ok (py_int (inject_Z (Z.of_nat n) * 0))
       ∧ trim_count_binary64 n f64_half
         = Ok (py_int (inject_Z (Z.of_nat n) * (1 # 2)))
       ∧ trim_count_binary64 n 1%float = Ok (py_int (inject_Z (Z.of_nat n) * 1)))
  ∧ (trim_count_binary64 100 f64_0_29 = Ok 28%Z
     ∧ py_int (inject_Z 100 * (29 # 100)) = 29%Z).
Proof.
  split_and!.
  - intros A x S Hord. exists (sorted A (x :: S)).
    split; [apply sorted_perm|]. split; [by apply sorted_ascending|].
    split; [|split].
    + rewrite calculate_trimmed_mean_selected by done.
      by rewrite selected_no_trim.
    + rewrite calculate_trimmed_mean_selected by done.
      by rewrite selected_trim_all.
    + pose proof (selected_half A (x :: S)) as H. cbv zeta in H.
      destruct (Nat.even (length (x :: S))).
      * rewrite calculate_trimmed_mean_selected by done. by rewrite H.
      * destruct H as (median & Hm & Hs). exists median. split; [done|].
        rewrite calculate_trimmed_mean_selected by done. by rewrite Hs.
  - intros x S trim_percent H. exists (sorted exact (x :: S)).
    split; [apply (sorted_perm exact)|].
    split; [apply exact_ascending, (sorted_ascending exact), exact_ordered|].
    rewrite (calculate_trimmed_mean_selected exact) by done.
    destruct H as [H|H]; [by rewrite selected_no_trim|by rewrite selected_trim_all].
  - intros n Hn. by destruct (trim_count_binary64_agrees n Hn) as (_ & H1 & H2 & H3).
  - vm_compute. reflexivity.
  - reflexivity.
Qed.

Lemma trim_fraction_edges_witness :
  ordered_by_lt binary64 (int_scores [5; 8; 6; 8; 10; 3; 4; 4; 7]%Z)
  ∧ ∃ ascending : list float,
      ascending ≡ₚ int_scores [5; 8; 6; 8; 10; 3; 4; 4; 7]%Z
      ∧ StronglySorted (le binary64) ascending
      ∧ calculate_trimmed_mean binary64 (int_scores [5; 8; 6; 8; 10; 3; 4; 4; 7]%Z) 0
        = Ok (mean binary64 ascending)
      ∧ calculate_trimmed_mean binary64 (int_scores [5; 8; 6; 8; 10; 3; 4; 4; 7]%Z) 1
        = Ok (mean binary64 ascending)
      ∧ ∃ median,
          ascending !! 4%nat = Some median
          ∧ calculate_trimmed_mean binary64
              (int_scores [5; 8; 6; 8; 10; 3; 4; 4; 7]%Z) (1 # 2)
            = Ok (mean binary64 [median]).
Proof.
  assert (ordered_by_lt binary64 (int_scores [5; 8; 6; 8; 10; 3; 4; 4; 7]%Z)) as H.
  { apply f64_ordered, int_scores_numbers. repeat constructor; lia. }
  split; [exact H|].
  exact (proj1 trim_fraction_edges binary64 (f64_of_Z 5)
           (int_scores [8; 6; 8; 10; 3; 4; 4; 7]%Z) H).
Defined.

End TrimProperties.

(** ** [process_csv] *)

Section ProcessCsvFacts.
Import Scorer CsvWriter FinalScores.
Context (A : Arith).
Context (py_int_of_str : string → option Z)
        (py_float_of_str : string → option (num A))
        (py_strip : string → string).

Local Abbreviation process_row :=
  (FinalScores.process_row A py_int_of_str py_float_of_str py_strip).
Local Abbreviation read_rows :=
  (FinalScores.read_rows A py_int_of_str py_float_of_str py_strip).
Local Abbreviation process_csv :=
  (FinalScores.process_csv A py_int_of_str py_float_of_str py_strip).
Local Abbreviation row_scores := (FinalScores.row_scores A py_float_of_str py_strip).

Lemma process_row_skipped (row : list string) :
  kept row = false → process_row row = Return None.
Proof.
  destruct row as [|cell row]; [done|]. cbn [kept process_row].
  by destruct (bool_decide (cell = "")).
Qed.

(** What a kept row gives: the order read off its first cell and the final
    score of its valid cells. *)
Lemma process_row_kept (row : list string) :
  kept row = true →
  process_row row =
  match head row ≫= py_int_of_str with
  | None => Throw (Builtin ValueError)
  | Some order =>
      and_then (lift (calculate_trimmed_mean A (row_scores row) default_trim_percent))
        (fun trimmed_mean =>
      and_then (lift (num_round A (num_mul A trimmed_mean (num_of_nat A 10))))
        (fun final_score =>
      Return (Some {| r_order := order;
                      r_score_count := length (row_scores row);
                      r_trimmed_mean := trimmed_mean;
                      r_final_score := final_score |})))
  end.
Proof.
  destruct row as [|cell row]; [done|]. cbn [kept process_row head mbind option_bind].
  destruct (bool_decide (cell = "")); [done|]. intros _. cbn.
  by destruct (py_int_of_str cell).
Qed.

Lemma read_rows_filter (rows : list (list string)) :
  read_rows rows = read_rows (filter (fun row => kept row = true) rows).
Proof.
  induction rows as [|row rows IH]; [done|]. rewrite filter_cons.
  destruct (decide (kept row = true)) as [Hk|Hk].
  - cbn [FinalScores.read_rows]. destruct (process_row row) as [e|]; [|done].
    cbn [and_then]. by rewrite IH.
  - apply not_true_is_false in Hk. cbn [FinalScores.read_rows].
    rewrite (process_row_skipped row Hk). cbn [and_then]. rewrite IH.
    destruct (read_rows (filter _ rows)); reflexivity.
Qed.

(** The entries read off kept rows, row by row. *)
Lemma read_rows_kept (rows : list (list string)) (results : list (Entry A)) :
  Forall (fun row => kept row = true) rows →
  read_rows rows = Return results →
  Forall2 (fun e row =>
             head row ≫= py_int_of_str = Some (r_order e)
             ∧ final_score A (row_scores row) = Ok (r_final_score e)
             ∧ calculate_trimmed_mean A (row_scores row) default_trim_percent
               = Ok (r_trimmed_mean e)
             ∧ r_score_count e = length (row_scores row))
          results rows.
Proof.
  intros Hall. revert results. induction Hall as [|row rows Hk Hall IH]; intros results.
  - cbn. intros [= <-]. constructor.
  - cbn [FinalScores.read_rows]. rewrite (process_row_kept row Hk).
    destruct (head row ≫= py_int_of_str) as [o|] eqn:Ho; [|done].
    unfold final_score.
    destruct (calculate_trimmed_mean A (row_scores row) default_trim_percent)
      as [m|] eqn:Hm; [|by cbn].
    cbn [lift and_then bind].
    destruct (num_round A (num_mul A m (num_of_nat A 10))) as [z|] eqn:Hz; [|by cbn].
    cbn [lift and_then].
    destruct (read_rows rows) as [es|] eqn:Hes; [|by cbn].
    cbn [and_then]. intros [= <-]. constructor; [|by apply IH].
    cbn [r_order r_final_score r_trimmed_mean r_score_count].
    split_and!; [done| |done|done]. rewrite Hm. exact Hz.
Qed.

(** The loop returns when every kept row is read and scored. *)
Lemma read_rows_returns (rows : list (list string)) :
  Forall (fun row => ∃ o z, head row ≫= py_int_of_str = Some o
                            ∧ final_score A (row_scores row) = Ok z)
         (filter (fun row => kept row = true) rows) →
  ∃ results, read_rows rows = Return results.
Proof.
  induction rows as [|row rows IH]; [by eexists|]. rewrite filter_cons.
  destruct (decide (kept row = true)) as [Hk|Hk]; intros Hall.
  - apply Forall_cons in Hall as [(o & z & Ho & Hz) Hall].
    destruct (IH Hall) as [results Hr]. cbn [FinalScores.read_rows].
    rewrite (process_row_kept row Hk), Ho. unfold final_score in Hz.
    destruct (calculate_trimmed_mean A (row_scores row) default_trim_percent)
      as [m|] eqn:Hm; [|done].
    cbn [bind] in Hz. cbn [lift and_then]. rewrite Hz. cbn [lift and_then].
    rewrite Hr. by eexists.
  - destruct (IH Hall) as [results Hr]. cbn [FinalScores.read_rows].
    rewrite (process_row_skipped row) by (by apply not_true_is_false).
    cbn [and_then]. rewrite Hr. by eexists.
Qed.

End ProcessCsvFacts.

Section ProcessCsvFacts2.
Import Scorer CsvWriter FinalScores.

Lemma Sorted_int_keys {T : Type} (f : T → Z) (l : list T) :
  Sorted (fun a b => key_le (Some (f a)) (Some (f b))) l →
  Sorted (fun a b => (f a ≤ f b)%Z) l.
Proof.
  induction 1 as [|x l Hs IH Hhd]; [constructor|]. constructor; [done|].
  destruct Hhd; by constructor.
Qed.

(** Sorting entries by their order never fails: the keys are ints. *)
Lemma sort_by_int_keys {T : Type} (f : T → Z) (l : list T) :
  ∃ r, sort_by (fun x => Some (f x)) l = Return r
       ∧ r ≡ₚ l
       ∧ Sorted (fun a b => (f a ≤ f b)%Z) r
       ∧ (∀ o, filter (fun x => f x = o) r = filter (fun x => f x = o) l).
Proof.
  destruct (sort_by_some (fun x => Some (f x)) l) as (r & Hr & Hp & Hf & Hs).
  { apply Forall_forall. intros x _. by eexists. }
  exists r. split_and!; [done|done|by apply Sorted_int_keys|].
  intros o. specialize (Hf o).
  rewrite (list_filter_iff (fun x => f x = o) (fun x => Some (f x) = Some o) r),
          (list_filter_iff (fun x => f x = o) (fun x => Some (f x) = Some o) l);
    [done| |]; intros x; split; congruence.
Qed.

End ProcessCsvFacts2.

Section ProcessCsvProperties.
Import Scorer CsvWriter FinalScores Doubles.

(** X15.  [process_csv] on rows whose scores [<] orders (on doubles: no
    score cell reads as a NaN).  The call returns exactly when [int] reads
    the first cell of every row it keeps (the rows with a non-empty first
    cell) and the final score of the row's valid score cells is defined.
    It then writes the header, and one line per kept row, holding the order
    read off the first cell and that final score; the lines ascend by
    order, lines of equal order staying in input order. *)
Theorem process_csv_output (A : Arith)
    (py_int_of_str : string → option Z) (py_float_of_str : string → option (num A))
    (py_strip : string → string)
    (header : list string) (rows : list (list string)) :
  Forall (fun row => ordered_by_lt A (row_scores A py_float_of_str py_strip row))
         (filter (fun row => kept row = true) rows) →
  ((∃ out, process_csv A py_int_of_str py_float_of_str py_strip (header :: rows)
           = Return out)
   ↔ Forall (fun row =>
               ∃ o z, head row ≫= py_int_of_str = Some o
                      ∧ final_score A (row_scores A py_float_of_str py_strip row) = Ok z)
            (filter (fun row => kept row = true) rows))
  ∧ ∀ out,
      process_csv A py_int_of_str py_float_of_str py_strip (header :: rows) = Return out →
      ∃ results unsorted : list (Entry A),
        out = [CStr "順序"; CStr "成績"]
              :: ((fun r => [CInt (r_order r); CInt (r_final_score r)]) <$> results)
        ∧ Forall2 (fun e row =>
                     head row ≫= py_int_of_str = Some (r_order e)
                     ∧ final_score A (row_scores A py_float_of_str py_strip row)
                       = Ok (r_final_score e))
                  unsorted (filter (fun row => kept row = true) rows)
        ∧ results ≡ₚ unsorted
        ∧ Sorted (fun a b => (r_order a ≤ r_order b)%Z) results
        ∧ (∀ o, filter (fun r => r_order r = o) results
                = filter (fun r => r_order r = o) unsorted).
Proof.
  intros _.
  assert (∀ out,
            process_csv A py_int_of_str py_float_of_str py_strip (header :: rows)
            = Return out →
            ∃ results unsorted : list (Entry A),
              out = [CStr "順序"; CStr "成績"]
                    :: ((fun r => [CInt (r_order r); CInt (r_final_score r)]) <$> results)
              ∧ Forall2 (fun e row =>
                           head row ≫= py_int_of_str = Some (r_order e)
                           ∧ final_score A (row_scores A py_float_of_str py_strip row)
                             = Ok (r_final_score e))
                        unsorted (filter (fun row => kept row = true) rows)
              ∧ results ≡ₚ unsorted
              ∧ Sorted (fun a b => (r_order a ≤ r_order b)%Z) results
              ∧ (∀ o, filter (fun r => r_order r = o) results
                      = filter (fun r => r_order r = o) unsorted)) as Hout.
  { intros out. unfold process_csv. rewrite read_rows_filter.
    destruct (read_rows _ _ _ _ _) as [unsorted|] eqn:Hread; [|by cbn].
    cbn [and_then].
    destruct (sort_by_int_keys (@r_order A) unsorted) as (results & -> & Hp & Hs & Hf).
    cbn [and_then]. intros [= <-]. exists results, unsorted.
    split_and!; [done| |done|done|done].
    assert (Forall (fun row => kept row = true)
              (filter (fun row => kept row = true) rows)) as Hkept.
    { apply Forall_forall. intros row Hrow. apply list_elem_of_filter in Hrow.
      by destruct Hrow. }
    eapply Forall2_impl.
    - apply (read_rows_kept A py_int_of_str py_float_of_str py_strip _ _ Hkept Hread).
    - intros e row (H1 & H2 & _). by split. }
  split; [|exact Hout]. split.
  - intros [out H]. destruct (Hout out H) as (results & unsorted & _ & Hall & _).
    clear H Hout. induction Hall as [|e row es rs [H1 H2] _ IH]; constructor; [|done].
    by eexists _, _.
  - intros Hall.
    destruct (read_rows_returns A py_int_of_str py_float_of_str py_strip rows Hall)
      as [unsorted Hread].
    unfold process_csv. rewrite Hread. cbn [and_then].
    destruct (sort_by_int_keys (@r_order A) unsorted) as (results & -> & _).
    cbn [and_then]. by eexists.
Qed.

End ProcessCsvProperties.

Section ProcessCsvFacts3.
Import Scorer CsvWriter FinalScores.
Context (A : Arith).
Context (py_int_of_str : string → option Z)
        (py_float_of_str : string → option (num A))
        (py_strip : string → string).

Local Abbreviation process_row :=
  (FinalScores.process_row A py_int_of_str py_float_of_str py_strip).
Local Abbreviation read_rows :=
  (FinalScores.read_rows A py_int_of_str py_float_of_str py_strip).
Local Abbreviation row_scores := (FinalScores.row_scores A py_float_of_str py_strip).

(** A kept row whose first cell [int] does not read stops the loop. *)
Lemma read_rows_unreadable (rows : list (list string)) :
  Exists (fun row => kept row = true ∧ head row ≫= py_int_of_str = None) rows →
  ∃ e, read_rows rows = Throw e.
Proof.
  induction 1 as [row rows [Hk Hn]|row rows Hex [e IH]].
  - cbn [FinalScores.read_rows]. rewrite (process_row_kept _ _ _ _ row Hk), Hn.
    by eexists.
  - cbn [FinalScores.read_rows]. destruct (process_row row) as [entry|e']; [|by eexists].
    cbn [and_then]. rewrite IH. by eexists.
Qed.

(** Empty cells are not scores. *)
Lemma row_scores_blank (k : nat) (cells : list string) :
  omap (fun cell =>
          if bool_decide (cell ≠ "") && bool_decide (py_strip cell ≠ "")
          then py_float_of_str cell
          else None)
       (cells ++ replicate k "")
  = omap (fun cell =>
            if bool_decide (cell ≠ "") && bool_decide (py_strip cell ≠ "")
            then py_float_of_str cell
            else None)
         cells.
Proof.
  rewrite omap_app. induction k as [|k IH]; [by rewrite app_nil_r|].
  cbn [replicate omap list_omap]. rewrite bool_decide_false by (by intros []).
  exact IH.
Qed.

(** The score cells of a written row read back as the scores present. *)
Lemma row_scores_written (scores : list (option Z)) :
  Forall (fun z => (0 ≤ z)%Z
                   ∧ py_float_of_str (pretty z) = Some (num_of_nat A (Z.to_nat z))
                   ∧ py_strip (pretty z) ≠ "")
         (present scores) →
  omap (fun cell =>
          if bool_decide (cell ≠ "") && bool_decide (py_strip cell ≠ "")
          then py_float_of_str cell
          else None)
       (csv_field <$> (score_cell <$> scores))
  = (fun z => num_of_nat A (Z.to_nat z)) <$> present scores.
Proof.
  unfold present. induction scores as [|[z|] scores IH]; intros Hall; [done| |].
  - cbn [omap list_omap fmap list_fmap id] in Hall |- *.
    apply Forall_cons in Hall as [(_ & Hf & Hs) Hall].
    cbn [score_cell csv_field].
    rewrite bool_decide_true by apply pretty_Z_nonempty.
    rewrite bool_decide_true by done. cbn [andb]. rewrite Hf. cbn.
    f_equal. by apply IH.
  - cbn [omap list_omap fmap list_fmap id] in Hall |- *. cbn [score_cell csv_field].
    rewrite bool_decide_false by (by intros []). cbn [andb]. by apply IH.
Qed.

End ProcessCsvFacts3.

Section ProcessCsvProperties2.
Import Scorer CsvWriter FinalScores CsvSamples.

(** X16.  What [process_csv] reads.  An input without a header line raises
    StopIteration.  The header and the rows without a first cell, or with
    an empty one, make no difference to the result, whatever else they
    hold.  A row with a first cell that [int] does not read makes the call
    raise, and nothing is written. *)
Theorem process_csv_reads (A : Arith)
    (py_int_of_str : string → option Z) (py_float_of_str : string → option (num A))
    (py_strip : string → string) :
  process_csv A py_int_of_str py_float_of_str py_strip [] = Throw StopIteration
  ∧ (∀ header header' rows,
       process_csv A py_int_of_str py_float_of_str py_strip (header :: rows)
       = process_csv A py_int_of_str py_float_of_str py_strip
           (header' :: filter (fun row => kept row = true) rows))
  ∧ (∀ header rows,
       Exists (fun row => kept row = true ∧ head row ≫= py_int_of_str = None) rows →
       ∃ e, process_csv A py_int_of_str py_float_of_str py_strip (header :: rows)
            = Throw e).
Proof.
  split_and!.
  - done.
  - intros header header' rows. unfold process_csv.
    by rewrite (read_rows_filter _ _ _ _ rows).
  - intros header rows Hex. unfold process_csv.
    destruct (read_rows_unreadable A py_int_of_str py_float_of_str py_strip rows Hex)
      as [e ->].
    by exists e.
Qed.

(** X17.  A row that is read but has no valid score cell yields a line with
    the final score 0, in exact arithmetic and in binary64. *)
Theorem row_without_scores_gets_zero
    (py_int_of_str : string → option Z) (py_strip : string → string)
    (row : list string) (o : Z) :
  kept row = true → head row ≫= py_int_of_str = Some o →
  (∀ py_float_of_str : string → option Q,
     row_scores exact py_float_of_str py_strip row = [] →
     process_row exact py_int_of_str py_float_of_str py_strip row
     = Return (Some (Build_Entry exact o 0 0%Q 0%Z)))
  ∧ (∀ py_float_of_str : string → option float,
       row_scores binary64 py_float_of_str py_strip row = [] →
       process_row binary64 py_int_of_str py_float_of_str py_strip row
       = Return (Some (Build_Entry binary64 o 0 0%float 0%Z))).
Proof.
  intros Hk Ho. split; intros py_float_of_str Hs.
  - rewrite (process_row_kept _ _ _ _ row Hk), Ho, Hs.
    assert (calculate_trimmed_mean exact [] default_trim_percent = Ok 0%Q) as ->
      by reflexivity.
    cbn [lift and_then].
    assert (num_round exact (num_mul exact 0%Q (num_of_nat exact 10)) = Ok 0%Z) as ->
      by (vm_compute; reflexivity).
    reflexivity.
  - rewrite (process_row_kept _ _ _ _ row Hk), Ho, Hs.
    assert (calculate_trimmed_mean binary64 [] default_trim_percent = Ok 0%float) as ->
      by reflexivity.
    cbn [lift and_then].
    assert (num_round binary64 (num_mul binary64 0%float (num_of_nat binary64 10))
            = Ok 0%Z) as -> by (vm_compute; reflexivity).
    reflexivity.
Qed.

Lemma row_without_scores_gets_zero_witness :
  kept ["3"; "C"; "Cy"; ""; " "] = true
  ∧ head ["3"; "C"; "Cy"; ""; " "] ≫= read_decimal = Some 3%Z
  ∧ process_row exact read_decimal read_decimal_exact id ["3"; "C"; "Cy"; ""; " "]
    = Return (Some (Build_Entry exact 3%Z 0 0%Q 0%Z)).
Proof.
  split; [reflexivity|]. split; [reflexivity|].
  exact (proj1 (row_without_scores_gets_zero read_decimal id ["3"; "C"; "Cy"; ""; " "] 3%Z
                  eq_refl eq_refl) read_decimal_exact eq_refl).
Defined.

Lemma process_csv_output_witness :
  Forall (fun row => Doubles.ordered_by_lt exact (row_scores exact read_decimal_exact id row))
         (filter (fun row => kept row = true) (tail scores_csv))
  ∧ process_csv exact read_decimal read_decimal_exact id scores_csv
    = Return [ [CStr "順序"; CStr "成績"]; [CInt 1; CInt 75]; [CInt 2; CInt 60] ]
  ∧ ∃ results unsorted : list (Entry exact),
      [ [CStr "順序"; CStr "成績"]; [CInt 1; CInt 75]; [CInt 2; CInt 60] ]
      = [CStr "順序"; CStr "成績"]
        :: ((fun r => [CInt (r_order r); CInt (r_final_score r)]) <$> results)
      ∧ Forall2 (fun e row =>
                   head row ≫= read_decimal = Some (r_order e)
                   ∧ final_score exact (row_scores exact read_decimal_exact id row)
                     = Ok (r_final_score e))
                unsorted (filter (fun row => kept row = true) (tail scores_csv))
      ∧ results ≡ₚ unsorted
      ∧ Sorted (fun a b => (r_order a ≤ r_order b)%Z) results
      ∧ (∀ o, filter (fun r => r_order r = o) results
              = filter (fun r => r_order r = o) unsorted).
Proof.
  assert (Forall (fun row => Doubles.ordered_by_lt exact
                               (row_scores exact read_decimal_exact id row))
            (filter (fun row => kept row = true) (tail scores_csv))) as Hord.
  { apply Forall_forall. intros row _. apply exact_ordered. }
  assert (process_csv exact read_decimal read_decimal_exact id scores_csv
          = Return [ [CStr "順序"; CStr "成績"]; [CInt 1; CInt 75]; [CInt 2; CInt 60] ])
    as H by (by vm_compute).
  split; [exact Hord|]. split; [exact H|].
  exact (proj2 (process_csv_output exact read_decimal read_decimal_exact id
                  (default [] (head scores_csv)) (tail scores_csv) Hord) _ H).
Defined.

(** X18.  A row written by [CSVWriter.write] and read by [process_csv]: the
    first cell gives the order, and the score cells give the scores that
    are present, in order; the cells of absent scores and the padding are
    skipped.  [int] and [float] are taken to read back the numerals
    [csv.writer] wrote. *)
Theorem written_row_read_back (A : Arith)
    (py_int_of_str : string → option Z) (py_float_of_str : string → option (num A))
    (py_strip : string → string)
    (student : StudentRow) (n : nat) (o : Z) :
  CsvWriter.order student = Some o →
  py_int_of_str (pretty o) = Some o →
  Forall (fun z => (0 ≤ z)%Z
                   ∧ py_float_of_str (pretty z) = Some (num_of_nat A (Z.to_nat z))
                   ∧ py_strip (pretty z) ≠ "")
         (present (CsvWriter.scores student)) →
  kept (csv_text (student_row n student)) = true
  ∧ head (csv_text (student_row n student)) ≫= py_int_of_str = Some o
  ∧ row_scores A py_float_of_str py_strip (csv_text (student_row n student))
    = (fun z => num_of_nat A (Z.to_nat z)) <$> present (CsvWriter.scores student).
Proof.
  intros Ho Hint Hall. unfold csv_text. rewrite student_row_eq, Ho.
  cbn [fmap list_fmap app cell_of_int csv_field head kept].
  split_and!.
  - rewrite bool_decide_false by apply pretty_Z_nonempty. done.
  - exact Hint.
  - unfold row_scores. cbn [drop]. rewrite fmap_app, fmap_replicate.
    rewrite drop_0. cbn [csv_field]. rewrite row_scores_blank. by apply row_scores_written.
Qed.

Lemma written_row_read_back_witness :
  CsvWriter.order sample_student = Some 4%Z
  ∧ read_decimal (pretty 4%Z) = Some 4%Z
  ∧ row_scores exact read_decimal_exact id (csv_text (student_row 5 sample_student))
    = (fun z => num_of_nat exact (Z.to_nat z)) <$> present (CsvWriter.scores sample_student).
Proof.
  split; [reflexivity|]. split; [reflexivity|].
  refine (proj2 (proj2 (written_row_read_back exact read_decimal read_decimal_exact id
                          sample_student 5 4%Z eq_refl eq_refl _))).
  repeat constructor; by vm_compute.
Defined.

End ProcessCsvProperties2.

(** ** The reply handed to [json.loads] *)

Section FindFacts.
Import Reply.

Lemma startswith_app (sep s : str) : startswith sep (sep ++ s) = true.
Proof.
  induction sep as [|c sep IH]; [done|]. cbn [app startswith].
  by rewrite bool_decide_true.
Qed.

Lemma startswith_true (sep s : str) :
  startswith sep s = true → ∃ k, s = sep ++ k.
Proof.
  revert s. induction sep as [|c sep IH]; intros s H; [by exists s|].
  destruct s as [|d s]; [done|]. cbn [startswith] in H.
  apply andb_true_iff in H as [Hc Hs]. apply bool_decide_eq_true in Hc as <-.
  destruct (IH s Hs) as [k ->]. by exists k.
Qed.

Lemma startswith_take (sep s : str) (k : nat) :
  startswith sep (take k s) = true → startswith sep s = true.
Proof.
  intros H. apply startswith_true in H as [t Ht].
  rewrite <- (take_drop k s), Ht, <- (assoc_L (++)). apply startswith_app.
Qed.

Lemma startswith_more (sep more s : str) :
  startswith (sep ++ more) s = true → startswith sep s = true.
Proof.
  intros H. apply startswith_true in H as [t ->].
  rewrite <- (assoc_L (++)). apply startswith_app.
Qed.

Lemma startswith_head (c d : N) (sep s : str) :
  d ≠ c → startswith (c :: sep) (d :: s) = false.
Proof. intros H. cbn [startswith]. by rewrite bool_decide_false. Qed.

Lemma find_nil (sep : str) : sep ≠ [] → find sep [] = None.
Proof. by destruct sep. Qed.

Lemma find_start (sep s : str) : startswith sep s = true → find sep s = Some 0%nat.
Proof. intros H. destruct s; cbn [find]; by rewrite H. Qed.

Lemma find_cons_None (sep : str) (c : N) (s : str) :
  find sep (c :: s) = None → startswith sep (c :: s) = false ∧ find sep s = None.
Proof.
  cbn [find]. destruct (startswith sep (c :: s)); [done|].
  by destruct (find sep s).
Qed.

(** No occurrence starts before the first character of [sep] shows. *)
Lemma find_skip (c : N) (sep p s : str) :
  Forall (fun d => d ≠ c) p →
  find (c :: sep) (p ++ s) = (fun i => length p + i)%nat <$> find (c :: sep) s.
Proof.
  induction 1 as [|d p Hd Hp IH].
  - cbn [app length]. by destruct (find (c :: sep) s).
  - change ((d :: p) ++ s) with (d :: (p ++ s)). cbn [find].
    rewrite (startswith_head c d) by done. rewrite IH.
    by destruct (find (c :: sep) s).
Qed.

Lemma find_at (c : N) (sep p s : str) :
  Forall (fun d => d ≠ c) p → startswith (c :: sep) s = true →
  find (c :: sep) (p ++ s) = Some (length p).
Proof.
  intros Hp Hs. rewrite (find_skip c sep p s Hp), (find_start _ _ Hs). cbn.
  f_equal. lia.
Qed.

Lemma find_absent (c : N) (sep p : str) :
  Forall (fun d => d ≠ c) p → find (c :: sep) p = None.
Proof.
  intros Hp. rewrite <- (app_nil_r p), (find_skip c sep p [] Hp). done.
Qed.

Lemma find_Some_bound (sep s : str) (i : nat) :
  find sep s = Some i → (i + length sep ≤ length s)%nat.
Proof.
  revert i. induction s as [|c s IH]; intros i.
  - cbn [find]. destruct (startswith sep []) eqn:E; [|done]. intros [= <-].
    apply startswith_true in E as [k E]. symmetry in E.
    apply app_eq_nil in E as [-> _]. done.
  - cbn [find]. destruct (startswith sep (c :: s)) eqn:E.
    + intros [= <-]. apply startswith_true in E as [k ->].
      rewrite length_app. lia.
    + destruct (find sep s) as [j|]; [|done]. intros [= <-].
      specialize (IH j eq_refl). cbn [length]. lia.
Qed.

Lemma find_None_take (sep s : str) (k : nat) :
  find sep s = None → find sep (take k s) = None.
Proof.
  revert k. induction s as [|c s IH]; intros k H.
  - by rewrite take_nil.
  - destruct k as [|k].
    + cbn [take]. destruct sep; [done|done].
    + apply find_cons_None in H as [H1 H2]. cbn [take find].
      destruct (startswith sep (c :: take k s)) eqn:E.
      * apply (startswith_take sep (c :: s) (S k)) in E. congruence.
      * by rewrite (IH k H2).
Qed.

Lemma find_None_drop (sep s : str) (k : nat) :
  find sep s = None → find sep (drop k s) = None.
Proof.
  revert k. induction s as [|c s IH]; intros k H.
  - by rewrite drop_nil.
  - destruct k as [|k]; [done|]. apply find_cons_None in H as [_ H]. by apply IH.
Qed.

(** The text before the first occurrence holds none. *)
Lemma find_before (sep s : str) (i : nat) :
  sep ≠ [] → find sep s = Some i → find sep (take i s) = None.
Proof.
  intros Hsep. revert i. induction s as [|c s IH]; intros i.
  - intros _. rewrite take_nil. by apply find_nil.
  - cbn [find]. destruct (startswith sep (c :: s)) eqn:E.
    + intros [= <-]. cbn [take]. by apply find_nil.
    + destruct (find sep s) as [j|] eqn:Ej; [|done]. intros [= <-].
      cbn [take find]. destruct (startswith sep (c :: take j s)) eqn:E'.
      * apply (startswith_take sep (c :: s) (S j)) in E'. congruence.
      * by rewrite (IH j eq_refl).
Qed.

Lemma find_more (sep more s : str) :
  find sep s = None → find (sep ++ more) s = None.
Proof.
  induction s as [|c s IH]; intros H.
  - cbn [find] in *. destruct (startswith (sep ++ more) []) eqn:E; [|done].
    apply startswith_more in E. by rewrite E in H.
  - apply find_cons_None in H as [H1 H2]. cbn [find].
    destruct (startswith (sep ++ more) (c :: s)) eqn:E.
    + apply startswith_more in E. congruence.
    + by rewrite (IH H2).
Qed.

Lemma first_piece_free (sep s : str) :
  sep ≠ [] → find sep (first_piece sep s) = None.
Proof.
  intros Hsep. unfold first_piece. destruct (find sep s) as [i|] eqn:E; [|done].
  by apply find_before.
Qed.

Lemma first_piece_absent (sep s : str) : find sep s = None → first_piece sep s = s.
Proof. intros H. unfold first_piece. by rewrite H. Qed.

End FindFacts.

Section SplitFacts.
Import Reply.

(** The first two pieces of [s.split(sep)]. *)
Lemma split_from_first (fuel : nat) (sep s : str) :
  sep ≠ [] → (length s ≤ fuel)%nat →
  split_from fuel sep s !! 0%nat = Some (first_piece sep s).
Proof.
  intros Hsep Hlen. unfold first_piece. destruct fuel as [|fuel].
  - destruct s; [|cbn in Hlen; lia]. by rewrite (find_nil sep Hsep).
  - cbn [split_from]. by destruct (find sep s).
Qed.

Lemma split_from_second (fuel : nat) (sep s : str) :
  sep ≠ [] → (length s ≤ fuel)%nat →
  split_from fuel sep s !! 1%nat
  = (fun i => first_piece sep (drop (i + length sep) s)) <$> find sep s.
Proof.
  intros Hsep Hlen. destruct fuel as [|fuel].
  - destruct s; [|cbn in Hlen; lia]. by rewrite (find_nil sep Hsep).
  - cbn [split_from]. destruct (find sep s) as [i|] eqn:E; [|done].
    cbn [fmap option_fmap option_map lookup list_lookup].
    apply split_from_first; [done|].
    apply find_Some_bound in E. rewrite length_drop.
    destruct sep; [done|]. cbn [length] in *. lia.
Qed.

(** Enough rounds change nothing. *)
Lemma split_from_enough (fuel fuel' : nat) (sep s : str) :
  sep ≠ [] → (length s ≤ fuel)%nat → (length s ≤ fuel')%nat →
  split_from fuel sep s = split_from fuel' sep s.
Proof.
  intros Hsep. revert fuel' s. induction fuel as [|fuel IH]; intros fuel' s H1 H2.
  - destruct s; [|cbn in H1; lia]. destruct fuel'; cbn [split_from];
      by rewrite ?(find_nil sep Hsep).
  - destruct fuel' as [|fuel'].
    + destruct s; [|cbn in H2; lia]. cbn [split_from]. by rewrite (find_nil sep Hsep).
    + cbn [split_from]. destruct (find sep s) as [i|] eqn:E; [|done].
      f_equal. apply find_Some_bound in E.
      assert (0 < length sep)%nat by (destruct sep; [done|cbn; lia]).
      apply IH; rewrite length_drop; lia.
Qed.

End SplitFacts.

Section StripFacts.
Import Reply.
Context (py_isspace : N → bool).

Local Abbreviation lstrip := (Reply.lstrip py_isspace).
Local Abbreviation rstrip := (Reply.rstrip py_isspace).
Local Abbreviation strip := (Reply.strip py_isspace).
Local Abbreviation spaces := (Forall (fun c => py_isspace c = true)).

Lemma lstrip_spaces (ws s : str) : spaces ws → lstrip (ws ++ s) = lstrip s.
Proof. induction 1 as [|c ws Hc Hws IH]; [done|]. cbn. by rewrite Hc. Qed.

Lemma lstrip_decompose (s : str) : ∃ ws, s = ws ++ lstrip s ∧ spaces ws.
Proof.
  induction s as [|c s (ws & IH & Hws)]; [by exists []|].
  cbn [Reply.lstrip]. destruct (py_isspace c) eqn:E.
  - exists (c :: ws). split; [by rewrite IH at 1|by constructor].
  - by exists [].
Qed.

Lemma lstrip_nil (s : str) : spaces s → lstrip s = [].
Proof. intros H. rewrite <- (app_nil_r s). by rewrite lstrip_spaces. Qed.

Lemma lstrip_app (s t : str) : lstrip s ≠ [] → lstrip (s ++ t) = lstrip s ++ t.
Proof.
  induction s as [|c s IH]; [done|]. cbn [app Reply.lstrip].
  destruct (py_isspace c); [exact IH|done].
Qed.

Lemma rstrip_spaces (s ws : str) : spaces ws → rstrip (s ++ ws) = rstrip s.
Proof.
  intros H. unfold Reply.rstrip. rewrite reverse_app, lstrip_spaces; [done|].
  by apply Forall_reverse.
Qed.

Lemma rstrip_decompose (s : str) : ∃ ws, s = rstrip s ++ ws ∧ spaces ws.
Proof.
  destruct (lstrip_decompose (reverse s)) as (ws & E & Hws).
  exists (reverse ws). split; [|by apply Forall_reverse].
  unfold Reply.rstrip. rewrite <- reverse_app, <- E. by rewrite reverse_involutive.
Qed.

Lemma strip_decompose (s : str) :
  ∃ ws1 ws2, s = ws1 ++ strip s ++ ws2 ∧ spaces ws1 ∧ spaces ws2.
Proof.
  destruct (lstrip_decompose s) as (ws1 & E1 & H1).
  destruct (rstrip_decompose (lstrip s)) as (ws2 & E2 & H2).
  exists ws1, ws2. split; [|done]. unfold Reply.strip. by rewrite <- E2.
Qed.

(** Whitespace at the end of a text makes no difference to [strip]. *)
Lemma strip_trailing (s ws : str) : spaces ws → strip (s ++ ws) = strip s.
Proof.
  intros H. unfold Reply.strip. destruct (lstrip s) as [|c t] eqn:E.
  - destruct (lstrip_decompose s) as (ws1 & E1 & H1). rewrite E, app_nil_r in E1.
    subst ws1. rewrite lstrip_nil; [done|]. by apply Forall_app.
  - rewrite lstrip_app by (by rewrite E). rewrite E. by apply rstrip_spaces.
Qed.

Lemma lstrip_find (sep s : str) : find sep s = None → find sep (lstrip s) = None.
Proof.
  induction s as [|c s IH]; [done|]. intros H. cbn [Reply.lstrip].
  destruct (py_isspace c); [|done]. apply find_cons_None in H as [_ H]. by apply IH.
Qed.

Lemma rstrip_find (sep s : str) : find sep s = None → find sep (rstrip s) = None.
Proof.
  intros H. destruct (rstrip_decompose s) as (ws & E & _).
  assert (rstrip s = take (length (rstrip s)) s) as ->.
  { transitivity (take (length (rstrip s)) (rstrip s ++ ws)).
    - by rewrite take_app_length.
    - by rewrite <- E. }
  by apply find_None_take.
Qed.

Lemma strip_find (sep s : str) : find sep s = None → find sep (strip s) = None.
Proof. intros H. by apply rstrip_find, lstrip_find. Qed.

End StripFacts.

Section ReplyFacts.
Import Reply.
Context (py_isspace : N → bool).

Local Abbreviation strip := (Reply.strip py_isspace).
Local Abbreviation between_fences := (Reply.between_fences py_isspace).
Local Abbreviation result_text := (Reply.result_text py_isspace).
Local Abbreviation clean_text := (Reply.clean_text py_isspace).
Local Abbreviation unfenced := (Reply.unfenced py_isspace).

Lemma contains_find (sep s : str) :
  contains sep s = match find sep s with Some _ => true | None => false end.
Proof.
  unfold contains. destruct (find sep s) as [i|].
  - by rewrite bool_decide_true.
  - rewrite bool_decide_false; [done|]. by intros [? ?].
Qed.

Lemma between_fences_eq (opening text : str) :
  opening ≠ [] →
  between_fences opening text =
  match find opening text with
  | Some i =>
      Return (strip (first_piece fence
                       (first_piece opening (drop (i + length opening) text))))
  | None => Throw IndexError
  end.
Proof.
  intros Hop. unfold Reply.between_fences, split.
  destruct opening as [|c opening]; [done|]. cbn [and_then]. unfold index at 1.
  rewrite split_from_second by done.
  destruct (find (c :: opening) text) as [i|]; [|done].
  cbn [fmap option_fmap option_map and_then]. unfold fence at 1. cbn [and_then].
  unfold index. by rewrite split_from_first.
Qed.

Lemma result_text_eq (text : str) : result_text text = Return (unfenced text).
Proof.
  unfold Reply.result_text, Reply.unfenced. rewrite !contains_find.
  destruct (find json_fence text) as [i|] eqn:Ej.
  - by rewrite between_fences_eq, Ej.
  - destruct (find fence text) as [i|] eqn:Ef; [|done].
    by rewrite between_fences_eq, Ef.
Qed.

Lemma clean_text_eq (text : str) : clean_text text = Return (unfenced (strip text)).
Proof. apply result_text_eq. Qed.

Lemma unfenced_free (text : str) : find fence (unfenced text) = None.
Proof.
  unfold Reply.unfenced. destruct (find json_fence text) as [i|].
  - by apply strip_find, first_piece_free.
  - destruct (find fence text) as [i|] eqn:E; [|done].
    by apply strip_find, first_piece_free.
Qed.

Lemma find_json_absent (text : str) :
  find fence text = None → find json_fence text = None.
Proof. exact (find_more fence [106; 115; 111; 110]%N text). Qed.

Lemma unfenced_absent (text : str) : find fence text = None → unfenced text = text.
Proof.
  intros H. unfold Reply.unfenced. rewrite (find_json_absent text H). by rewrite H.
Qed.

Lemma fence_skip (opening p s : str) :
  opening = fence ∨ opening = json_fence →
  Forall (fun d => d ≠ backtick) p →
  find opening (p ++ s) = (fun i => length p + i)%nat <$> find opening s.
Proof.
  intros [->| ->] Hp.
  - exact (find_skip backtick [backtick; backtick] p s Hp).
  - exact (find_skip backtick [backtick; backtick; 106; 115; 111; 110]%N p s Hp).
Qed.

Lemma fence_at (opening p s : str) :
  opening = fence ∨ opening = json_fence →
  Forall (fun d => d ≠ backtick) p → startswith opening s = true →
  find opening (p ++ s) = Some (length p).
Proof.
  intros Hop Hp Hs. rewrite (fence_skip opening p s Hop Hp), (find_start _ _ Hs). cbn.
  f_equal. lia.
Qed.

Lemma fence_absent (opening p : str) :
  opening = fence ∨ opening = json_fence →
  Forall (fun d => d ≠ backtick) p → find opening p = None.
Proof.
  intros Hop Hp. rewrite <- (app_nil_r p), (fence_skip opening p [] Hop Hp).
  by destruct Hop as [->| ->].
Qed.

Lemma startswith_cons (c d : N) (sep s : str) :
  startswith (c :: sep) (d :: s) = bool_decide (c = d) && startswith sep s.
Proof. done. Qed.

Lemma find_cons (sep : str) (c : N) (s : str) :
  find sep (c :: s) = if startswith sep (c :: s) then Some 0%nat else S <$> find sep s.
Proof. done. Qed.

(** Behind a closing fence, ['```json'] can only begin at once or later. *)
Lemma json_after_fence (suffix : str) :
  head suffix ≠ Some backtick → startswith [106; 115; 111; 110]%N suffix = false →
  find json_fence (fence ++ suffix) = (fun i => 3 + i)%nat <$> find json_fence suffix.
Proof.
  intros Hs E.
  change (fence ++ suffix) with (backtick :: backtick :: backtick :: suffix).
  rewrite find_cons.
  change (startswith json_fence (backtick :: backtick :: backtick :: suffix))
    with (startswith [106; 115; 111; 110]%N suffix).
  rewrite E. destruct suffix as [|d suffix]; [done|].
  assert (d ≠ backtick) as Hd by (intros ->; by apply Hs).
  assert (bool_decide (backtick = d) = false) as Hdec.
  { apply bool_decide_false. by intros <-. }
  rewrite find_cons. unfold json_fence at 1. fold backtick.
  rewrite !startswith_cons, Hdec, !andb_false_r.
  rewrite find_cons. unfold json_fence at 1. fold backtick.
  rewrite !startswith_cons, Hdec, !andb_false_r.
  by destruct (find json_fence (d :: suffix)).
Qed.

(** The text between an opening fence and the closing one. *)
Lemma closed_piece (opening body suffix : str) :
  Forall (fun d => d ≠ backtick) body →
  (opening = fence ∨ opening = json_fence ∧ head suffix ≠ Some backtick) →
  first_piece fence (first_piece opening (body ++ fence ++ suffix)) = body.
Proof.
  intros Hb Hop.
  assert (first_piece fence body = body) as Hbody.
  { apply first_piece_absent. apply fence_absent; [by left|done]. }
  assert (∀ t, first_piece fence (body ++ fence ++ t) = body) as Hclosed.
  { intros t. unfold first_piece. rewrite (fence_at fence body); [|by left|done|done].
    by rewrite take_app_length. }
  destruct Hop as [->|[-> Hs]].
  - by rewrite Hclosed.
  - unfold first_piece at 2. rewrite (fence_skip json_fence body); [|by right|done].
    destruct (startswith [106; 115; 111; 110]%N suffix) eqn:E.
    + rewrite (find_start json_fence (fence ++ suffix)) by exact E.
      cbn [fmap option_fmap option_map]. rewrite Nat.add_0_r, take_app_length.
      exact Hbody.
    + rewrite (json_after_fence suffix Hs E).
      destruct (find json_fence suffix) as [k|]; cbn [fmap option_fmap option_map].
      * rewrite take_app_add'; [|done].
        change (take (3 + k) (fence ++ suffix)) with (fence ++ take k suffix).
        apply Hclosed.
      * apply Hclosed.
Qed.

Lemma open_piece (opening body : str) :
  Forall (fun d => d ≠ backtick) body →
  opening = fence ∨ opening = json_fence →
  first_piece fence (first_piece opening body) = body.
Proof.
  intros Hb Hop.
  assert (first_piece fence body = body) as Hbody.
  { apply first_piece_absent. apply fence_absent; [by left|done]. }
  destruct Hop as [->| ->]; [by rewrite Hbody|].
  rewrite (first_piece_absent json_fence); [done|]. apply fence_absent; [by right|done].
Qed.

End ReplyFacts.

Section ReplyProperties.
Import Reply ReplySamples.

(** X19.  Taking the fences off a reply never raises, whatever the reply;
    the text handed to [json.loads] holds no fence, and taking the fences
    off it again leaves it as it is. *)
Theorem fences_removed (py_isspace : N → bool) (text : str) :
  ∃ r r',
    result_text py_isspace text = Return r
    ∧ clean_text py_isspace text = Return r'
    ∧ contains fence r = false ∧ contains json_fence r = false
    ∧ contains fence r' = false ∧ contains json_fence r' = false
    ∧ result_text py_isspace r = Return r.
Proof.
  exists (unfenced py_isspace text), (unfenced py_isspace (strip py_isspace text)).
  pose proof (unfenced_free py_isspace text) as H.
  pose proof (unfenced_free py_isspace (strip py_isspace text)) as H'.
  split; [apply result_text_eq|]. split; [apply clean_text_eq|].
  rewrite !contains_find.
  rewrite (find_json_absent _ H), (find_json_absent _ H'), H, H'. split_and!; try done.
  rewrite result_text_eq. f_equal. by apply unfenced_absent.
Qed.

(** X20.  A reply that holds its JSON between fences: with no backtick
    before the opening fence nor in the body, what is handed to
    [json.loads] is the body, stripped.  That is so for a ['```json'] fence
    closed by ['```'] (whatever follows, if it does not begin with a
    backtick), for a ['```json'] fence that is never closed, and for a plain
    ['```'] fence when the reply holds no ['```json']. *)
Theorem fenced_reply (py_isspace : N → bool) (prefix body suffix : str) :
  backtick ∉ prefix → backtick ∉ body → head suffix ≠ Some backtick →
  result_text py_isspace (prefix ++ json_fence ++ body ++ fence ++ suffix)
  = Return (strip py_isspace body)
  ∧ result_text py_isspace (prefix ++ json_fence ++ body)
    = Return (strip py_isspace body)
  ∧ (contains json_fence (prefix ++ fence ++ body ++ fence ++ suffix) = false →
     result_text py_isspace (prefix ++ fence ++ body ++ fence ++ suffix)
     = Return (strip py_isspace body)).
Proof.
  intros Hp Hb Hs.
  assert (Forall (fun d => d ≠ backtick) prefix) as Hp'.
  { apply Forall_forall. by intros d Hd ->. }
  assert (Forall (fun d => d ≠ backtick) body) as Hb'.
  { apply Forall_forall. by intros d Hd ->. }
  split_and!.
  - rewrite result_text_eq. f_equal. unfold unfenced.
    rewrite (fence_at json_fence prefix); [|by right|done|done].
    rewrite drop_app_add'; [|done]. cbn [json_fence length drop app].
    f_equal. apply closed_piece; [done|]. by right.
  - rewrite result_text_eq. f_equal. unfold unfenced.
    rewrite (fence_at json_fence prefix); [|by right|done|done].
    rewrite drop_app_add'; [|done]. cbn [json_fence length drop app].
    f_equal. apply open_piece; [done|]. by right.
  - rewrite contains_find. intros Hj. rewrite result_text_eq. f_equal. unfold unfenced.
    destruct (find json_fence _); [done|].
    rewrite (fence_at fence prefix); [|by left|done|done].
    rewrite drop_app_add'; [|done]. cbn [fence length drop app].
    f_equal. apply (closed_piece fence); [done|]. by left.
Qed.

Lemma fenced_reply_witness :
  (backtick ∉ [111; 107; 10]%N) ∧ (backtick ∉ body) ∧ head [10]%N ≠ Some backtick
  ∧ result_text ascii_space fenced = Return (strip ascii_space body).
Proof.
  assert (backtick ∉ [111; 107; 10]%N) as H1.
  { rewrite !not_elem_of_cons. split_and!; [done..|apply not_elem_of_nil]. }
  assert (backtick ∉ body) as H2.
  { unfold body. rewrite !not_elem_of_cons. split_and!; [done..|apply not_elem_of_nil]. }
  assert (head [10]%N ≠ Some backtick) as H3 by done.
  split; [exact H1|]. split; [exact H2|]. split; [exact H3|].
  exact (proj1 (fenced_reply ascii_space [111; 107; 10]%N body [10]%N H1 H2 H3)).
Defined.

End ReplyProperties.

Section PaddingFacts.
Import Reply.
Context (py_isspace : N → bool).

Local Abbreviation strip := (Reply.strip py_isspace).
Local Abbreviation unfenced := (Reply.unfenced py_isspace).
Local Abbreviation spaces := (Forall (fun c => py_isspace c = true)).
Local Abbreviation solid := (Forall (fun c => py_isspace c = false)).

Lemma startswith_trailing (sep s ws : str) :
  solid sep → spaces ws → startswith sep (s ++ ws) = startswith sep s.
Proof.
  intros Hsep Hws. revert s. induction Hsep as [|c sep Hc Hsep IH]; intros s; [done|].
  destruct s as [|d s].
  - cbn [app]. destruct Hws as [|w ws Hw Hws]; [done|].
    rewrite startswith_cons, bool_decide_false; [done|]. intros ->. congruence.
  - cbn [app]. by rewrite !startswith_cons, IH.
Qed.

Lemma find_leading (sep ws s : str) :
  solid sep → sep ≠ [] → spaces ws →
  find sep (ws ++ s) = (fun i => length ws + i)%nat <$> find sep s.
Proof.
  intros Hsep Hne Hws. destruct sep as [|c sep]; [done|].
  apply find_skip. apply Forall_cons in Hsep as [Hc _].
  eapply Forall_impl; [exact Hws|]. intros d Hd ->. congruence.
Qed.

(** Whitespace behind a text begins no occurrence, and ends none. *)
Lemma find_trailing (sep s ws : str) :
  solid sep → sep ≠ [] → spaces ws → find sep (s ++ ws) = find sep s.
Proof.
  intros Hsep Hne Hws. induction s as [|d s IH].
  - cbn [app]. rewrite <- (app_nil_r ws), (find_leading sep ws []) by done.
    by rewrite (find_nil sep Hne).
  - cbn [app]. rewrite !find_cons, IH.
    change (d :: s ++ ws) with ((d :: s) ++ ws). by rewrite startswith_trailing.
Qed.

Lemma first_piece_trailing (sep s ws : str) :
  solid sep → sep ≠ [] → spaces ws →
  ∃ ws', spaces ws' ∧ first_piece sep (s ++ ws) = first_piece sep s ++ ws'.
Proof.
  intros Hsep Hne Hws. unfold first_piece. rewrite find_trailing by done.
  destruct (find sep s) as [i|] eqn:E.
  - exists []. split; [constructor|]. apply find_Some_bound in E.
    rewrite take_app_le by lia. by rewrite app_nil_r.
  - by exists ws.
Qed.

Lemma stripped_pieces (opening s ws : str) :
  solid opening → opening ≠ [] → solid fence → spaces ws →
  strip (first_piece fence (first_piece opening (s ++ ws)))
  = strip (first_piece fence (first_piece opening s)).
Proof.
  intros Hop Hne Hf Hws.
  destruct (first_piece_trailing opening s ws) as (ws' & Hws' & ->); [done..|].
  destruct (first_piece_trailing fence (first_piece opening s) ws')
    as (ws'' & Hws'' & ->); [done..|].
  by apply strip_trailing.
Qed.

(** Whitespace around a reply: the fences are found at the same places, and
    the text between them is the same. *)
Lemma unfenced_padding (text ws1 ws2 : str) :
  solid json_fence → spaces ws1 → spaces ws2 →
  match find fence (ws1 ++ text ++ ws2) with
  | Some _ => unfenced (ws1 ++ text ++ ws2) = unfenced text
  | None => find fence text = None
  end.
Proof.
  intros Hj H1 H2.
  assert (solid fence) as Hf.
  { change json_fence with (fence ++ [106; 115; 111; 110]%N) in Hj.
    by apply Forall_app in Hj as [Hf _]. }
  assert (∀ sep, solid sep → sep ≠ [] →
            find sep (ws1 ++ text ++ ws2)
            = (fun i => length ws1 + i)%nat <$> find sep text) as Hfind.
  { intros sep Hsep Hne. by rewrite find_leading, find_trailing. }
  assert (∀ sep i, find sep text = Some i →
            drop (length ws1 + i + length sep) (ws1 ++ text ++ ws2)
            = drop (i + length sep) text ++ ws2) as Hdrop.
  { intros sep i E. apply find_Some_bound in E.
    rewrite <- Nat.add_assoc, drop_app_add' by done. by rewrite drop_app_le. }
  rewrite (Hfind fence) by done.
  destruct (find fence text) as [i|] eqn:Ef; [|done].
  cbn [fmap option_fmap option_map]. unfold Reply.unfenced.
  rewrite (Hfind json_fence), (Hfind fence), Ef by done.
  destruct (find json_fence text) as [j|] eqn:Ej; cbn [fmap option_fmap option_map].
  - rewrite (Hdrop json_fence j Ej). by apply stripped_pieces.
  - rewrite (Hdrop fence i Ef). by apply stripped_pieces.
Qed.

End PaddingFacts.

Section AgreementProperties.
Import Reply ReplySamples.

(** X21.  The two extractors hand the same text to [json.loads] whenever the
    reply holds a fence; when it holds none, [OCRExtractor] hands over the
    reply as it is and [PrivacyOCRExtractor] the reply stripped.  (No
    character of ['```json'] is whitespace.) *)
Theorem extractors_agree (py_isspace : N → bool) (text : str) :
  Forall (fun c => py_isspace c = false) json_fence →
  ∃ r, result_text py_isspace text = Return r
       ∧ clean_text py_isspace text
         = Return (if contains fence text then r else strip py_isspace r).
Proof.
  intros Hj. exists (unfenced py_isspace text).
  split; [apply result_text_eq|]. rewrite clean_text_eq. f_equal.
  destruct (strip_decompose py_isspace text) as (ws1 & ws2 & E & H1 & H2).
  pose proof (unfenced_padding py_isspace (strip py_isspace text) ws1 ws2 Hj H1 H2) as H.
  rewrite <- E in H. rewrite contains_find.
  destruct (find fence text) as [i|] eqn:Ef; [done|].
  rewrite (unfenced_absent py_isspace text Ef). by apply unfenced_absent.
Qed.

Lemma extractors_agree_witness :
  Forall (fun c => ascii_space c = false) json_fence
  ∧ ∃ r, result_text ascii_space fenced = Return r
         ∧ clean_text ascii_space fenced
           = Return (if contains fence fenced then r else strip ascii_space r).
Proof.
  assert (Forall (fun c => ascii_space c = false) json_fence) as H
    by (repeat constructor).
  split; [exact H|]. exact (extractors_agree ascii_space fenced H).
Defined.

End AgreementProperties.

(** ** The privacy masks *)

Section MaskFacts.
Import Mask.
Open Scope Z_scope.

(** On images up to [max_side] wide, the abscissas of the default masks
    are drawn in order, inside the image, at the exact quotients rounded
    down. *)
Lemma default_abscissas_check :
  all_from (Z.to_nat max_side) 1 (fun width =>
    forallb (fun mask =>
               edges_ok 0 (expected_width DEFAULT_MASKS) width (x1 mask) (x2 mask))
            (masks DEFAULT_MASKS)) = true.
Proof. by vm_compute. Qed.

(** On images up to [max_side] high, the ordinates are drawn in order,
    inside the image, at the exact quotients rounded down or one below. *)
Lemma default_ordinates_check :
  all_from (Z.to_nat max_side) 1 (fun height =>
    forallb (fun mask =>
               edges_ok 1 (expected_height DEFAULT_MASKS) height (y1 mask) (y2 mask))
            (masks DEFAULT_MASKS)) = true.
Proof. by vm_compute. Qed.

Lemma edges_ok_true (slack expected size lo hi : Z) (scale : float) :
  int_truediv size expected = Ok scale →
  edges_ok slack expected size lo hi = true →
  ∃ a b,
    scale_coordinate lo scale = Ok a ∧ scale_coordinate hi scale = Ok b
    ∧ 0 ≤ a ≤ b ∧ b < size
    ∧ lo * size / expected - slack ≤ a ≤ lo * size / expected
    ∧ hi * size / expected - slack ≤ b ≤ hi * size / expected.
Proof.
  unfold edges_ok, scaled_edges, near_quotient. intros ->. cbn [bind].
  destruct (scale_coordinate lo scale) as [a|]; [|done]. cbn [bind].
  destruct (scale_coordinate hi scale) as [b|]; [|done]. cbn [bind].
  intros H. rewrite !andb_true_iff, !Z.leb_le, Z.ltb_lt in H.
  exists a, b. split_and!; try done; lia.
Qed.

(** The loop over masks that pass both checks. *)
Lemma draw_masks_checked (mask_config : MaskConfig) (width height : Z)
    (scale_x scale_y : float) (l : list MaskBox) :
  int_truediv width (expected_width mask_config) = Ok scale_x →
  int_truediv height (expected_height mask_config) = Ok scale_y →
  forallb (fun mask =>
             edges_ok 0 (expected_width mask_config) width (x1 mask) (x2 mask)) l
  = true →
  forallb (fun mask =>
             edges_ok 1 (expected_height mask_config) height (y1 mask) (y2 mask)) l
  = true →
  ∃ drawn,
    draw_masks scale_x scale_y l = Ok drawn
    ∧ Forall2 (fun box mask =>
                 x1 box = x1 mask * width / expected_width mask_config
                 ∧ x2 box = x2 mask * width / expected_width mask_config
                 ∧ y1 mask * height / expected_height mask_config - 1 ≤ y1 box
                   ≤ y1 mask * height / expected_height mask_config
                 ∧ y2 mask * height / expected_height mask_config - 1 ≤ y2 box
                   ≤ y2 mask * height / expected_height mask_config
                 ∧ 0 ≤ x1 box ≤ x2 box ∧ x2 box < width
                 ∧ 0 ≤ y1 box ≤ y2 box ∧ y2 box < height)
              drawn l.
Proof.
  intros Ex Ey. induction l as [|mask l IH]; intros Hx Hy.
  - exists []. split; [done|constructor].
  - cbn [forallb] in Hx, Hy.
    apply andb_true_iff in Hx as [Hx Hxs]. apply andb_true_iff in Hy as [Hy Hys].
    destruct (IH Hxs Hys) as (drawn & Hd & Hall).
    destruct (edges_ok_true _ _ _ _ _ _ Ex Hx) as (a & b & Ha & Hb & ? & ? & ? & ?).
    destruct (edges_ok_true _ _ _ _ _ _ Ey Hy) as (c & d & Hc & Hd' & ? & ? & ? & ?).
    exists ({| x1 := a; y1 := c; x2 := b; y2 := d |} :: drawn). split.
    + cbn [draw_masks]. rewrite Ha. cbn [bind]. rewrite Hc. cbn [bind].
      rewrite Hb. cbn [bind]. rewrite Hd'. cbn [bind]. rewrite Hd. done.
    + constructor; [|done]. cbn [x1 y1 x2 y2]. split_and!; lia.
Qed.

End MaskFacts.

Section MaskProperties.
Import Mask.
Open Scope Z_scope.

(** X22.  The default masks on an image of any size from 1 by 1 to 10000 by
    10000 pixels.  [apply_mask] returns, and draws one rectangle per mask:
    its abscissas are the configured ones scaled by the exact ratio and
    rounded down, its ordinates are that or one less; it is well formed and
    lies inside the image.  On an image of the expected size the rectangles
    are the configured ones.  The binary64 product does fall short: at
    height 1825 the lower edge of the first mask is drawn at 1021, where the
    exact quotient is 1022. *)
Theorem default_masks_scaled :
  (∀ width height : Z,
     1 ≤ width ≤ max_side → 1 ≤ height ≤ max_side →
     ∃ drawn,
       apply_mask DEFAULT_MASKS width height = Ok drawn
       ∧ Forall2 (fun box mask =>
                    x1 box = x1 mask * width / expected_width DEFAULT_MASKS
                    ∧ x2 box = x2 mask * width / expected_width DEFAULT_MASKS
                    ∧ y1 mask * height / expected_height DEFAULT_MASKS - 1 ≤ y1 box
                      ≤ y1 mask * height / expected_height DEFAULT_MASKS
                    ∧ y2 mask * height / expected_height DEFAULT_MASKS - 1 ≤ y2 box
                      ≤ y2 mask * height / expected_height DEFAULT_MASKS
                    ∧ 0 ≤ x1 box ≤ x2 box ∧ x2 box < width
                    ∧ 0 ≤ y1 box ≤ y2 box ∧ y2 box < height)
                 drawn (masks DEFAULT_MASKS)
       ∧ (width = expected_width DEFAULT_MASKS →
          height = expected_height DEFAULT_MASKS →
          drawn = masks DEFAULT_MASKS))
  ∧ (∃ drawn,
       apply_mask DEFAULT_MASKS 1304 1825 = Ok drawn
       ∧ y2 <$> drawn = [1021; 1085; 1652]
       ∧ (fun mask => y2 mask * 1825 / expected_height DEFAULT_MASKS)
           <$> masks DEFAULT_MASKS
         = [1022; 1085; 1652]).
Proof.
  split; [|eexists; split; [by vm_compute|by vm_compute]].
  intros width height Hw Hh.
  pose proof (all_from_spec _ _ _ default_abscissas_check width) as Hx.
  pose proof (all_from_spec _ _ _ default_ordinates_check height) as Hy.
  unfold max_side in *.
  specialize (Hx ltac:(lia)). specialize (Hy ltac:(lia)).
  unfold apply_mask.
  destruct (int_truediv width (expected_width DEFAULT_MASKS)) as [scale_x|] eqn:Ex;
    [|done].
  destruct (int_truediv height (expected_height DEFAULT_MASKS)) as [scale_y|] eqn:Ey;
    [|done].
  cbn [bind].
  destruct (draw_masks_checked DEFAULT_MASKS width height scale_x scale_y
              (masks DEFAULT_MASKS) Ex Ey Hx Hy) as (drawn & Hd & Hall).
  exists drawn. split_and!; [done|done|].
  intros -> ->.
  assert (apply_mask DEFAULT_MASKS (expected_width DEFAULT_MASKS)
            (expected_height DEFAULT_MASKS) = Ok (masks DEFAULT_MASKS)) as H
    by (by vm_compute).
  unfold apply_mask in H. rewrite Ex, Ey in H. cbn [bind] in H.
  rewrite Hd in H. by injection H.
Qed.

End MaskProperties.

(** ** The column names *)

Section HeaderFacts.
Import CsvWriter Text.

Lemma last_char_app (p s : string) : s ≠ "" → last_char (p +:+ s) = last_char s.
Proof.
  intros Hs. induction p as [|c p IH]; [done|].
  change (String c p +:+ s) with (String c (p +:+ s)). cbn [last_char].
  destruct (p +:+ s) as [|d t] eqn:E; [|exact IH].
  exfalso. destruct p; cbn in E; [by apply Hs|done].
Qed.

Lemma last_char_go (x : N) (s : string) :
  s ≠ "" → last_char (pretty_N_go x s) = last_char s.
Proof.
  revert s. induction (N.lt_wf_0 x) as [x _ IH]; intros s Hs.
  assert (x = 0 ∨ 0 < x)%N as [->|Hx] by lia.
  - by rewrite pretty_N_go_0.
  - rewrite pretty_N_go_step by done. rewrite IH; [|by apply N.div_lt|done].
    by destruct s.
Qed.

Lemma pretty_N_char_digit (d : N) : is_digit (pretty_N_char d) = true.
Proof. unfold pretty_N_char. by repeat case_match. Qed.

(** A decimal numeral ends in a digit. *)
Lemma last_char_pretty (n : nat) :
  ∃ c, last_char (pretty n) = Some c ∧ is_digit c = true.
Proof.
  unfold pretty, pretty_nat, pretty, pretty_N.
  destruct (decide (N.of_nat n = 0%N)) as [_|Hn]; [by eexists|].
  rewrite pretty_N_go_step by lia. rewrite last_char_go by done.
  eexists. split; [done|]. apply pretty_N_char_digit.
Qed.

Lemma score_column_inj (score_column_prefix : string) :
  Inj (=) (=) (fun i : nat => score_column_prefix +:+ pretty (i + 1)%nat).
Proof.
  intros i j H. apply (inj (String.app score_column_prefix)) in H.
  apply (inj pretty) in H. lia.
Qed.

End HeaderFacts.

Section HeaderProperties.
Import CsvWriter Text.

(** X23.  The column names [write] puts in the header are pairwise distinct,
    whatever the prefix and the number of score columns: the score columns
    end in the digits of different numbers, and no identity column ends in
    a digit. *)
Theorem header_names_distinct (score_column_prefix : string) (max_scores : nat) :
  NoDup (csv_field <$> headers score_column_prefix max_scores).
Proof.
  unfold headers. rewrite fmap_app, <- list_fmap_compose.
  apply NoDup_app. split_and!.
  - cbn [fmap list_fmap csv_field]. rewrite !NoDup_cons, !not_elem_of_cons.
    split_and!; try done; try apply not_elem_of_nil. apply NoDup_nil_2.
  - intros x Hx (i & -> & _)%list_elem_of_fmap. cbn [compose csv_field] in Hx.
    destruct (last_char_pretty (i + 1)) as (c & Hc & Hd).
    assert (last_char (score_column_prefix +:+ pretty (i + 1)%nat) = Some c) as Hl.
    { rewrite last_char_app; [done|]. intros E. by rewrite E in Hc. }
    cbn [fmap list_fmap csv_field] in Hx. rewrite !elem_of_cons in Hx.
    destruct Hx as [Hx|[Hx|[Hx|Hx]]]; [| | |by apply elem_of_nil in Hx];
      rewrite Hx in Hl; vm_compute in Hl; injection Hl as <-; by vm_compute in Hd.
  - apply NoDup_fmap_2; [|apply NoDup_seq].
    intros i j H. cbn [compose csv_field] in H. by apply score_column_inj in H.
Qed.

End HeaderProperties.

(** ** From the file [main] writes to the final scores *)

Section SortedFacts.
Context {T : Type} (key : T → option Z).

(** Sorting a list that ascends already leaves it as it is. *)
Lemma sort_by_sorted (l : list T) :
  Sorted (fun a b => key_le (key a) (key b)) l → sort_by key l = Return l.
Proof.
  induction 1 as [|x l Hs IH Hhd]; [done|].
  unfold sort_by in *. cbn [foldr]. rewrite IH. cbn [and_then].
  destruct Hhd as [|y l' Hxy]; [done|]. cbn [insert_by].
  unfold key_le in Hxy. destruct (key x) as [kx|], (key y) as [ky|]; try done.
  cbn [lt_int_or_none and_then]. by rewrite (proj2 (Z.ltb_ge ky kx)).
Qed.

End SortedFacts.

Section SortedFacts2.
Context {T U : Type} (R : T → U → Prop) (P : relation T) (Q : relation U).

Lemma Sorted_Forall2 (l : list T) (k : list U) :
  (∀ a b a' b', R a a' → R b b' → Q a' b' → P a b) →
  Forall2 R l k → Sorted Q k → Sorted P l.
Proof.
  intros HPQ. induction 1 as [|a a' l k Ha Hall IH]; intros Hs; [constructor|].
  apply Sorted_inv in Hs as [Hs Hhd]. constructor; [by apply IH|].
  destruct Hall as [|b b' l k Hb Hall]; [constructor|].
  apply HdRel_inv in Hhd. constructor. by eapply HPQ.
Qed.

End SortedFacts2.

Section WrittenFacts.
Import Scorer CsvWriter FinalScores.
Context (A : Arith).
Context (py_int_of_str : string → option Z)
        (py_float_of_str : string → option (num A))
        (py_strip : string → string).

Local Abbreviation read_rows :=
  (FinalScores.read_rows A py_int_of_str py_float_of_str py_strip).
Local Abbreviation row_scores := (FinalScores.row_scores A py_float_of_str py_strip).
Local Abbreviation reads_back :=
  (FinalScores.reads_back A py_int_of_str py_float_of_str py_strip).

Lemma written_row_head (n : nat) (student : StudentRow) :
  head (csv_text (student_row n student))
  = Some (csv_field (cell_of_int (CsvWriter.order student))).
Proof. unfold csv_text. by rewrite student_row_eq. Qed.

Lemma written_row_kept (n : nat) (student : StudentRow) :
  is_Some (CsvWriter.order student) → kept (csv_text (student_row n student)) = true.
Proof.
  intros [o Ho]. unfold csv_text. rewrite student_row_eq, Ho.
  cbn [fmap list_fmap app cell_of_int csv_field kept].
  by rewrite bool_decide_false by apply pretty_Z_nonempty.
Qed.

Lemma written_row_scores (n : nat) (student : StudentRow) :
  Forall (fun z => (0 ≤ z)%Z
                   ∧ py_float_of_str (pretty z) = Some (num_of_nat A (Z.to_nat z))
                   ∧ py_strip (pretty z) ≠ "")
         (present (CsvWriter.scores student)) →
  row_scores (csv_text (student_row n student))
  = read_scores A (CsvWriter.scores student).
Proof.
  intros Hall. unfold csv_text, FinalScores.row_scores, read_scores.
  rewrite student_row_eq. cbn [fmap list_fmap app drop].
  rewrite drop_0, fmap_app, fmap_replicate. cbn [csv_field].
  rewrite row_scores_blank. by apply row_scores_written.
Qed.

(** The loop over the rows [write] made of students that read back. *)
Lemma read_written_rows (n : nat) (data : list StudentRow) :
  Forall reads_back data →
  Forall (fun student =>
            is_Some (CsvWriter.order student)
            ∧ ∃ z, final_score A (read_scores A (CsvWriter.scores student)) = Ok z)
         data →
  ∃ entries,
    read_rows ((fun student => csv_text (student_row n student)) <$> data)
    = Return entries
    ∧ Forall2 (fun e student =>
                 CsvWriter.order student = Some (r_order e)
                 ∧ final_score A (read_scores A (CsvWriter.scores student))
                   = Ok (r_final_score e))
              entries data.
Proof.
  induction data as [|student data IH]; intros Hback Hdef.
  - exists []. split; [done|constructor].
  - apply Forall_cons in Hback as [[Hint Hfl] Hback].
    apply Forall_cons in Hdef as [[[o Ho] [z Hz]] Hdef].
    destruct (IH Hback Hdef) as (entries & Hr & Hall).
    cbn [fmap list_fmap FinalScores.read_rows].
    rewrite (process_row_kept A py_int_of_str py_float_of_str py_strip)
      by (apply written_row_kept; by eexists).
    rewrite written_row_head, Ho. cbn [cell_of_int csv_field mbind option_bind].
    rewrite (Hint o Ho), written_row_scores by done.
    unfold final_score in Hz.
    destruct (calculate_trimmed_mean A (read_scores A (CsvWriter.scores student))
                default_trim_percent) as [m|] eqn:Hm; [|done].
    cbn [bind] in Hz. cbn [lift and_then]. rewrite Hz. cbn [lift and_then].
    fold (list_fmap _ _ (fun student => csv_text (student_row n student)) data).
    fold (fmap (M := list) (fun student => csv_text (student_row n student)) data).
    rewrite Hr. cbn [and_then]. eexists. split; [done|].
    constructor; [|done]. cbn [r_order r_final_score]. split; [done|].
    unfold final_score. rewrite Hm. exact Hz.
Qed.

End WrittenFacts.

Section WrittenProperties.
Import Scorer CsvWriter FinalScores CsvSamples.

(** X24.  From [CSVWriter.write] to [process_csv].  Let [write] put into a
    file students that ascend by order and whose numerals [int] and [float]
    read back.  Then [process_csv] on that file returns (as long as every
    final score is defined) and writes, under its header, one line per
    student in the same order: the student's order, and the final score of
    the scores that are not None.  The empty cells of missing scores and the
    padding count for nothing. *)
Theorem written_file_scored (A : Arith)
    (py_int_of_str : string → option Z) (py_float_of_str : string → option (num A))
    (py_strip : string → string)
    (data : list StudentRow) (score_column_prefix : string) (file : list (list Cell)) :
  write data score_column_prefix = (true, Some file) →
  Sorted (fun a b => key_le (CsvWriter.order a) (CsvWriter.order b)) data →
  Forall (reads_back A py_int_of_str py_float_of_str py_strip) data →
  Forall (fun student =>
            is_Some (CsvWriter.order student)
            ∧ ∃ z, final_score A (read_scores A (CsvWriter.scores student)) = Ok z)
         data →
  ∃ lines,
    process_csv A py_int_of_str py_float_of_str py_strip (csv_text <$> file)
    = Return ([CStr "順序"; CStr "成績"] :: lines)
    ∧ Forall2 (fun line student =>
                 ∃ z, final_score A (read_scores A (CsvWriter.scores student)) = Ok z
                      ∧ line = [cell_of_int (CsvWriter.order student); CInt z])
              lines data.
Proof.
  intros Hw Hs Hback Hdef. pose proof (write_status data score_column_prefix) as Hst.
  destruct data as [|student data]; [by rewrite Hst in Hw|].
  set (all := student :: data) in *. set (n := max_scores all) in *.
  assert (file = headers score_column_prefix n :: (student_row n <$> all)) as ->.
  { rewrite Hst in Hw. congruence. }
  destruct (read_written_rows A py_int_of_str py_float_of_str py_strip n all Hback Hdef)
    as (entries & Hr & Hall).
  rewrite fmap_cons, <- list_fmap_compose. unfold process_csv.
  change (csv_text ∘ student_row n) with (fun s => csv_text (student_row n s)).
  rewrite Hr. cbn [and_then].
  rewrite (sort_by_sorted (fun r : Entry A => Some (r_order r)) entries).
  - cbn [and_then]. eexists. split; [done|].
    apply Forall2_fmap_l. eapply Forall2_impl; [exact Hall|].
    intros e s [Ho Hz]. exists (r_final_score e). split; [done|]. by rewrite Ho.
  - eapply (Sorted_Forall2 _ _ _ entries all); [|exact Hall|exact Hs].
    intros a b a' b' [Ha _] [Hb _] Hab. by rewrite Ha, Hb in Hab.
Qed.

Lemma written_file_scored_witness :
  write sample_class default_prefix
  = (true, Some (headers default_prefix 3 :: (student_row 3 <$> sample_class)))
  ∧ ∃ lines,
      process_csv exact read_decimal read_decimal_exact id
        (csv_text <$> headers default_prefix 3 :: (student_row 3 <$> sample_class))
      = Return ([CStr "順序"; CStr "成績"] :: lines)
      ∧ Forall2 (fun line student =>
                   ∃ z, final_score exact (read_scores exact (CsvWriter.scores student))
                        = Ok z
                        ∧ line = [cell_of_int (CsvWriter.order student); CInt z])
                lines sample_class.
Proof.
  split; [reflexivity|].
  assert (∀ student,
            student ∈ sample_class →
            reads_back exact read_decimal read_decimal_exact id student
            ∧ is_Some (CsvWriter.order student)
            ∧ ∃ z, final_score exact (read_scores exact (CsvWriter.scores student))
                   = Ok z) as H.
  { intros student Hin. unfold sample_class in Hin.
    rewrite !elem_of_cons in Hin.
    destruct Hin as [->|[->|Hin]]; [| |by apply elem_of_nil in Hin].
    - split_and!; [split|by eexists|by eexists].
      + intros o [= <-]. by vm_compute.
      + repeat constructor; by vm_compute.
    - split_and!; [split|by eexists|by eexists].
      + intros o [= <-]. by vm_compute.
      + repeat constructor; by vm_compute. }
  refine (written_file_scored exact read_decimal read_decimal_exact id
            sample_class default_prefix _ eq_refl _ _ _).
  - repeat constructor. unfold key_le. cbn. lia.
  - apply Forall_forall. intros student Hin. by apply H.
  - apply Forall_forall. intros student Hin. by apply H.
Defined.

End WrittenProperties.

(** ** What a merge keeps *)

Section KeepFacts.
Import Aggregator.
Implicit Types (d : Ordered.Items) (key k : Key) (info : StudentInfo).
Implicit Types (sd : ScoreData) (st : Ordered.Loop) (ks : list Key).

Lemma touch_prefix key ks : ks `prefix_of` Ordered.touch key ks.
Proof.
  unfold Ordered.touch. destruct (decide (key ∈ ks)); [done|]. by apply prefix_app_r.
Qed.

Lemma keys_loop_body_prefix so hml st sd :
  (Ordered.dict st).*1 `prefix_of` (Ordered.dict (Ordered.loop_body so hml st sd)).*1.
Proof.
  unfold Ordered.loop_body.
  destruct (sd_student_id sd) as [id|], (sd_order sd) as [o|];
    repeat match goal with
    | |- context [if ?b then _ else _] => destruct b
    end;
    cbn [Ordered.dict];
    rewrite ?keys_append_score, ?keys_record_first;
    first [reflexivity
          |apply touch_prefix
          |etrans; [apply touch_prefix|apply touch_prefix]].
Qed.

Lemma keys_loop_prefix so hml l st :
  (Ordered.dict st).*1
  `prefix_of` (Ordered.dict (fold_left (Ordered.loop_body so hml) l st)).*1.
Proof.
  revert st. induction l as [|sd l IH]; intros st; [done|].
  cbn [fold_left]. etrans; [apply keys_loop_body_prefix|apply IH].
Qed.

End KeepFacts.

Section KeepProperties.
Import Aggregator.

(** X25.  What a batch of merges keeps, from any state of the aggregator and
    in every mode.  The keys the dict held stay, at their places, and new
    keys come behind them; no key is held twice.  An entity that existed
    still exists, its scores are the old ones followed by new ones, and if
    its order was set, its order and its name are unchanged. *)
Theorem merge_keeps_entities (self : Ordered.DataAggregator)
    (ocr_results : list OcrResult) :
  let self' := (Ordered.batch_add_results self ocr_results).1 in
  (Ordered.student_scores self).*1 `prefix_of` (Ordered.student_scores self').*1
  ∧ (NoDup (Ordered.student_scores self).*1 → NoDup (Ordered.student_scores self').*1)
  ∧ ∀ k info,
      Ordered.lookup k (Ordered.student_scores self) = Some info →
      ∃ info' vs,
        Ordered.lookup k (Ordered.student_scores self') = Some info'
        ∧ scores info' = scores info ++ vs
        ∧ (is_Some (order info) → order info' = order info ∧ name info' = name info).
Proof.
  intros self'. unfold self', Ordered.batch_add_results. split_and!.
  - rewrite ordered_batch_one_loop.
    apply (keys_loop_prefix _ _ (merged_observations ocr_results)
             {| Ordered.dict := Ordered.student_scores self;
                Ordered.matched_count := 0; Ordered.unmatched_count := 0 |}).
  - intros Hnd. rewrite ordered_batch_one_loop. by apply keys_loop_NoDup.
  - intros k info Hk. rewrite ordered_lookup in Hk.
    destruct (merged_entity (Ordered.forget self) ocr_results k info Hk)
      as (info' & vs & Hk' & Hs & Ho).
    exists info', vs. rewrite ordered_lookup.
    pose proof (ordered_batch ocr_results self 0) as E.
    apply (f_equal student_scores) in E. cbn [Ordered.forget student_scores] in E.
    rewrite E. split_and!; [done|done|].
    intros Hset. by rewrite (Ho Hset).
Qed.

End KeepProperties.

(** ** Raising a score *)

Section MonotoneFacts.
Import Scorer.
Open Scope Q_scope.

(** Inserting below the head of a longer ascending list. *)
Lemma insert_le_cons (x a : Q) (s s' : list Q) :
  x <= a → Forall2 Qle s s' → Sorted Qle (a :: s') →
  Forall2 Qle (insert exact x s) (a :: s').
Proof.
  intros Hxa Hall. revert a Hxa. induction Hall as [|y y' t t' Hy Hall IH]; intros a Hxa Hs.
  - by repeat constructor.
  - apply Sorted_inv in Hs as [Hs Hhd]. apply HdRel_inv in Hhd.
    cbn [insert]. destruct (num_lt exact y x) eqn:E.
    + apply exact_lt_true in E. constructor; [lra|]. apply IH; [lra|done].
    + by repeat constructor.
Qed.

(** Inserting into an ascending list whose elements lie above. *)
Lemma cons_le_insert (a x' : Q) (s s' : list Q) :
  a <= x' → Forall2 Qle s s' → Sorted Qle s' → HdRel Qle a s' →
  Forall2 Qle (a :: s) (insert exact x' s').
Proof.
  intros Hax Hall. revert a Hax. induction Hall as [|y y' t t' Hy Hall IH];
    intros a Hax Hs Hhd.
  - by repeat constructor.
  - apply Sorted_inv in Hs as [Hs Hhd']. apply HdRel_inv in Hhd.
    cbn [insert]. destruct (num_lt exact y' x') eqn:E.
    + apply exact_lt_true in E. constructor; [done|]. apply IH; [lra|done|].
      destruct Hhd' as [|z t' Hz]; constructor. lra.
    + by repeat constructor.
Qed.

Lemma insert_mono (x x' : Q) (s s' : list Q) :
  x <= x' → Forall2 Qle s s' → Sorted Qle s → Sorted Qle s' →
  Forall2 Qle (insert exact x s) (insert exact x' s').
Proof.
  intros Hx Hall. induction Hall as [|y y' t t' Hy Hall IH]; intros Hs Hs'.
  - by repeat constructor.
  - pose proof Hs' as Hs''.
    apply Sorted_inv in Hs as [Hs Hhd]. apply Sorted_inv in Hs' as [Hs' Hhd'].
    cbn [insert].
    destruct (num_lt exact y x) eqn:E, (num_lt exact y' x') eqn:E'.
    + constructor; [done|]. by apply IH.
    + apply exact_lt_true in E. apply exact_lt_false in E'.
      constructor; [lra|]. apply insert_le_cons; [lra|done|done].
    + apply exact_lt_false in E. apply exact_lt_true in E'.
      constructor; [lra|]. apply cons_le_insert; [lra|done|done|].
      destruct Hhd' as [|z t' Hz]; constructor. lra.
    + by repeat constructor.
Qed.

(** The sorted list of higher scores is higher at every rank. *)
Lemma sorted_mono (l l' : list Q) :
  Forall2 Qle l l' → Forall2 Qle (sorted exact l) (sorted exact l').
Proof.
  induction 1 as [|x x' l l' Hx Hall IH]; [constructor|].
  cbn [sorted foldr]. apply insert_mono; [done|exact IH| |]; apply sorted_Sorted.
Qed.

Lemma selected_mono (l l' : list Q) (trim_percent : Q) :
  Forall2 Qle (sorted exact l) (sorted exact l') →
  Forall2 Qle (Trim.selected exact l trim_percent) (Trim.selected exact l' trim_percent).
Proof.
  intros H. unfold Trim.selected. change (num exact) with Q in *.
  rewrite (Forall2_length _ _ _ H).
  set (tc := py_int _).
  assert (∀ (t t' : list Q), Forall2 Qle t t' →
            Forall2 Qle (match t with [] => sorted exact l | _ :: _ => t end)
                        (match t' with [] => sorted exact l' | _ :: _ => t' end)) as Hm.
  { intros t t' Ht. destruct Ht; [done|]. by constructor. }
  apply Hm. destruct (0 <? tc)%Z; [|done].
  unfold py_slice. by apply Forall2_drop, Forall2_take.
Qed.

Lemma sum_mono (l l' : list Q) (a a' : Q) :
  a <= a' → Forall2 Qle l l' → fold_left Qplus l a <= fold_left Qplus l' a'.
Proof.
  intros Ha H. revert a a' Ha.
  induction H as [|x y l l' Hxy H IH]; intros a a' Ha; [done|].
  cbn [fold_left]. apply IH. lra.
Qed.

Lemma mean_mono (l l' : list Q) : Forall2 Qle l l' → mean exact l <= mean exact l'.
Proof.
  intros H. unfold mean. cbn [num_div num_sum num_of_nat exact].
  change (num exact) with Q. rewrite (Forall2_length _ _ _ H).
  unfold Qdiv. apply Qmult_le_compat_r; [by apply sum_mono|].
  apply Qinv_le_0_compat. change 0 with (inject_Z 0). rewrite <- Zle_Qle. lia.
Qed.

Lemma trimmed_mean_mono (S S' : list Q) (trim_percent : Q) :
  Forall2 Qle S S' →
  ∃ m m', calculate_trimmed_mean exact S trim_percent = Ok m
          ∧ calculate_trimmed_mean exact S' trim_percent = Ok m'
          ∧ m <= m'.
Proof.
  intros H. destruct H as [|x x' S S' Hx H].
  - exists 0, 0. by split_and!.
  - rewrite !calculate_trimmed_mean_selected by done.
    eexists _, _. split_and!; [done|done|].
    apply mean_mono, selected_mono, sorted_mono. by constructor.
Qed.

Lemma final_score_mono (S S' : list Q) :
  Forall2 Qle S S' →
  ∃ z z', final_score exact S = Ok z ∧ final_score exact S' = Ok z' ∧ (z ≤ z')%Z.
Proof.
  intros H. destruct (trimmed_mean_mono S S' default_trim_percent H)
    as (m & m' & Hm & Hm' & Hle).
  unfold final_score. rewrite Hm, Hm'. cbn [bind num_round exact].
  eexists _, _. split_and!; [done|done|].
  apply round_half_even_mono. cbn [num_mul num_of_nat exact].
  apply Qmult_le_compat_r; [done|]. by vm_compute.
Qed.

End MonotoneFacts.

Section MonotoneProperties.
Import Scorer.

(** X26.  Raising scores never lowers the result: when every score of a
    list is replaced by one at least as high, the trimmed mean (at any trim
    fraction) and the final score are at least what they were.  In exact
    arithmetic for all scores; in binary64, with either summation, for the
    final score of at most 200 whole scores from 0 to 10. *)
Theorem raising_scores_never_lowers :
  (∀ (S S' : list Q) (trim_percent : Q),
     Forall2 Qle S S' →
     (∃ m m', calculate_trimmed_mean exact S trim_percent = Ok m
              ∧ calculate_trimmed_mean exact S' trim_percent = Ok m'
              ∧ (m <= m')%Q)
     ∧ ∃ z z', final_score exact S = Ok z ∧ final_score exact S' = Ok z'
               ∧ (z ≤ z')%Z)
  ∧ (∀ l l' : list Z,
       Forall2 Z.le l l' →
       Forall (fun z => (0 ≤ z ≤ max_score)%Z) l →
       Forall (fun z => (0 ≤ z ≤ max_score)%Z) l' →
       (length l ≤ max_graders)%nat →
       ∃ z z',
         final_score binary64 (int_scores l) = Ok z
         ∧ final_score binary64 (int_scores l') = Ok z'
         ∧ final_score binary64_compensated (int_scores l) = Ok z
         ∧ final_score binary64_compensated (int_scores l') = Ok z'
         ∧ (z ≤ z')%Z).
Proof.
  split.
  - intros S S' trim_percent H. split; [by apply trimmed_mean_mono|].
    by apply final_score_mono.
  - intros l l' H Hl Hl' Hlen.
    assert (length l' ≤ max_graders)%nat as Hlen'.
    { by rewrite <- (Forall2_length _ _ _ H). }
    destruct (final_score_whole l Hl Hlen) as [-> ->].
    destruct (final_score_whole l' Hl' Hlen') as [-> ->].
    destruct (final_score_mono (inject_Z <$> l) (inject_Z <$> l'))
      as (z & z' & Hz & Hz' & Hle).
    { apply Forall2_fmap. eapply Forall2_impl; [exact H|].
      intros a b Hab. cbn. by rewrite <- Zle_Qle. }
    exists z, z'. by split_and!.
Qed.

End MonotoneProperties.

(** ** The trimmed mean at the default fraction *)

Section TrimmedMeanClaim.
Import Scorer Doubles.

(** C1.  [calculate_trimmed_mean] at the default fraction 0.10, on every
    list of numbers: rationals, and doubles none of which is a NaN (the
    infinities included), with either summation.

    The empty list gives 0.0.  For a non-empty list of length [n], with
    [trim_count] = floor(n * 0.10) = n // 10, the scores in ascending order
    fall into three parts, [low ++ slice ++ high]: [trim_count] scores at
    the low end, [trim_count] scores at the high end, and between them the
    slice.  At this fraction the slice is never empty (it keeps at least
    four fifths of the scores), and the result is the mean of the slice.
    The call returns in every case.

    Ascending means that no score is above a later one; on rationals that
    is ascending by [<=].  On doubles the count line 30 computes from the
    product [n * 0.1] is [n // 10] as well, for every length up to
    [max_cells].  Two examples: [5, 6, 7] gives 6.0, and
    [10, 0, 3, 3, 3, 3, 3, 3, 3, 4] gives 3.125, the mean without the 0 and
    the 10. *)
Theorem C1_calculate_trimmed_mean_default :
  (∀ A : Arith, calculate_trimmed_mean A [] default_trim_percent = Ok (num_zero A))
  ∧ (∀ (A : Arith) (S : list (num A)),
       S ≠ [] → ordered_by_lt A S →
       let n := length S in
       let trim_count := (n / 10)%nat in
       py_int (inject_Z (Z.of_nat n) * default_trim_percent) = Z.of_nat trim_count
       ∧ ∃ low slice high : list (num A),
           low ++ slice ++ high ≡ₚ S
           ∧ StronglySorted (le A) (low ++ slice ++ high)
           ∧ length low = trim_count
           ∧ length high = trim_count
           ∧ slice ≠ []
           ∧ calculate_trimmed_mean A S default_trim_percent = Ok (mean A slice))
  ∧ (∀ S : list Q,
       ordered_by_lt exact S
       ∧ (StronglySorted (le exact) S ↔ StronglySorted Qle S))
  ∧ (∀ S : list float,
       Forall (fun x => f64_is_nan x = false) S →
       ordered_by_lt binary64 S ∧ ordered_by_lt binary64_compensated S)
  ∧ (∀ n : nat,
       (Z.of_nat n ≤ max_cells)%Z →
       trim_count_binary64 n f64_one_tenth = Ok (Z.of_nat (n / 10)))
  ∧ (calculate_trimmed_mean binary64 (int_scores [5; 6; 7]%Z) default_trim_percent
     = Ok 6%float
     ∧ calculate_trimmed_mean binary64_compensated (int_scores [5; 6; 7]%Z)
         default_trim_percent
       = Ok 6%float
     ∧ calculate_trimmed_mean binary64
         (int_scores [10; 0; 3; 3; 3; 3; 3; 3; 3; 4]%Z) default_trim_percent
       = Ok 3.125%float
     ∧ ∃ m, calculate_trimmed_mean exact [10; 0; 3; 3; 3; 3; 3; 3; 3; 4]%Q
              default_trim_percent = Ok m
            ∧ (m == 25 # 8)%Q).
Proof.
  split_and!.
  - done.
  - intros A S Hne Hord n trim_count. split; [apply trim_count_default|].
    by apply default_trim_ascending.
  - intros S. split; [apply exact_ordered|apply exact_ascending].
  - apply f64_ordered.
  - intros n Hn. destruct (trim_count_binary64_agrees n Hn) as [-> _].
    by rewrite trim_count_default.
  - vm_compute. reflexivity.
  - vm_compute. reflexivity.
  - vm_compute. reflexivity.
  - eexists. split; [vm_compute; reflexivity|reflexivity].
Qed.

Lemma C1_calculate_trimmed_mean_default_witness :
  int_scores [10; 0; 3; 3; 3; 3; 3; 3; 3; 4]%Z ≠ []
  ∧ ordered_by_lt binary64 (int_scores [10; 0; 3; 3; 3; 3; 3; 3; 3; 4]%Z)
  ∧ ∃ low slice high : list float,
      low ++ slice ++ high ≡ₚ int_scores [10; 0; 3; 3; 3; 3; 3; 3; 3; 4]%Z
      ∧ StronglySorted (le binary64) (low ++ slice ++ high)
      ∧ length low = 1%nat
      ∧ length high = 1%nat
      ∧ slice ≠ []
      ∧ calculate_trimmed_mean binary64
          (int_scores [10; 0; 3; 3; 3; 3; 3; 3; 3; 4]%Z) default_trim_percent
        = Ok (mean binary64 slice).
Proof.
  assert (int_scores [10; 0; 3; 3; 3; 3; 3; 3; 3; 4]%Z ≠ []) as H1 by discriminate.
  assert (ordered_by_lt binary64 (int_scores [10; 0; 3; 3; 3; 3; 3; 3; 3; 4]%Z)) as H2.
  { apply f64_ordered, int_scores_numbers. repeat constructor; lia. }
  split; [exact H1|]. split; [exact H2|].
  exact (proj2 (proj1 (proj2 C1_calculate_trimmed_mean_default) binary64
                  (int_scores [10; 0; 3; 3; 3; 3; 3; 3; 3; 4]%Z) H1 H2)).
Defined.

End TrimmedMeanClaim.

(** ** The final score *)

Section FinalScoreFacts.
Import Scorer Doubles.

(** The final score is [round] of ten times the mean of the slice. *)
Lemma final_score_parts (A : Arith) (S : list (num A)) :
  S ≠ [] → ordered_by_lt A S →
  ∃ low slice high : list (num A),
    low ++ slice ++ high ≡ₚ S
    ∧ StronglySorted (le A) (low ++ slice ++ high)
    ∧ length low = (length S / 10)%nat
    ∧ length high = (length S / 10)%nat
    ∧ slice ≠ []
    ∧ final_score A S
      = num_round A (num_mul A (mean A slice) (num_of_nat A 10)).
Proof.
  intros Hne Hord.
  destruct (default_trim_ascending A S Hne Hord)
    as (low & slice & high & H1 & H2 & H3 & H4 & H5 & H6).
  exists low, slice, high. split_and!; try done.
  unfold final_score. by rewrite H6.
Qed.

(** [round] on a rational: a nearest integer, the even one of two. *)
Lemma exact_round_rule (x : Q) :
  ∃ z, num_round exact x = Ok z
       ∧ (Qabs (inject_Z z - x) <= 1 # 2)%Q
       ∧ ((Qabs (inject_Z z - x) == 1 # 2)%Q → Z.even z = true).
Proof.
  exists (round_half_even x).
  split_and!; [done|apply round_half_even_nearest|apply round_half_even_tie].
Qed.

(** [round] on a double: the same rule on the value of a finite double;
    OverflowError on an infinity, ValueError on a NaN. *)
Lemma f64_round_rule (x : float) :
  match f64_value x with
  | Some v =>
      ∃ z, num_round binary64 x = Ok z
           ∧ (Qabs (inject_Z z - v) <= 1 # 2)%Q
           ∧ ((Qabs (inject_Z z - v) == 1 # 2)%Q → Z.even z = true)
  | None =>
      num_round binary64 x = Raise (if f64_is_nan x then ValueError else OverflowError)
  end.
Proof.
  cbn [num_round binary64]. unfold f64_round, f64_value, f64_is_nan.
  destruct (Prim2SF x) as [s|s| |s m e]; cbn [default]; try done.
  - exists (round_half_even 0).
    split_and!; [done|apply round_half_even_nearest|apply round_half_even_tie].
  - eexists.
    split_and!; [done|apply round_half_even_nearest|apply round_half_even_tie].
Qed.

(** The final score of whole scores in range: the same integer in the three
    arithmetics, between 0 and 100. *)
Lemma final_score_whole_range (l : list Z) :
  Forall (fun z => (0 ≤ z ≤ 10)%Z) l → (length l ≤ 200)%nat →
  ∃ z, final_score exact (inject_Z <$> l) = Ok z
       ∧ final_score binary64 (int_scores l) = Ok z
       ∧ final_score binary64_compensated (int_scores l) = Ok z
       ∧ (0 ≤ z ≤ 100)%Z.
Proof.
  intros Hall Hlen. destruct (final_score_whole l Hall Hlen) as [-> ->].
  destruct l as [|x l].
  - exists 0%Z. split; [by vm_compute|]. split; [by vm_compute|].
    split; [by vm_compute|lia].
  - destruct (final_score_range_exact (inject_Z x) (inject_Z <$> l) 0 10)
      as (z & Hz & Hr).
    { rewrite <- fmap_cons. apply Forall_fmap. eapply Forall_impl; [exact Hall|].
      intros y [Hy1 Hy2]. cbn.
      change 0%Q with (inject_Z 0). change 10%Q with (inject_Z 10).
      rewrite <- !Zle_Qle. lia. }
    exists z. rewrite fmap_cons. split; [done|]. split; [done|]. split; [done|].
    change (0 * 10)%Q with (inject_Z 0) in Hr.
    change (10 * 10)%Q with (inject_Z 100) in Hr.
    by rewrite !round_half_even_whole in Hr.
Qed.

End FinalScoreFacts.

Section FinalScoreClaim.
Import Scorer Doubles.

(** C7, as stated, fails on doubles: a score of 1e308 is a number, its
    trimmed mean is 1e308, ten times that is infinite, and [round] raises
    OverflowError.  So does a score that is infinite; a NaN makes [round]
    raise ValueError. *)
Lemma C7_final_score_overflows :
  (f64_is_nan f64_1e308 = false
   ∧ is_Some (f64_value f64_1e308)
   ∧ calculate_trimmed_mean binary64 [f64_1e308] default_trim_percent = Ok f64_1e308
   ∧ PrimFloat.mul f64_1e308 (f64_of_nat 10) = infinity
   ∧ final_score binary64 [f64_1e308] = Raise OverflowError
   ∧ final_score binary64_compensated [f64_1e308] = Raise OverflowError)
  ∧ final_score binary64 [infinity] = Raise OverflowError
  ∧ final_score binary64 [nan] = Raise ValueError.
Proof.
  split_and!; try (vm_compute; reflexivity).
  vm_compute. by eexists.
Qed.

(** C7 (amended).  The final score is [round(trimmed_mean * 10)], where the
    trimmed mean is the mean of the scores in ascending order without the
    [n // 10] lowest and the [n // 10] highest, and 0.0 when there is no
    score.  [round] gives a nearest integer and sends an exact half to the
    even neighbour, always, on rationals and on the value of a finite
    double alike (so 0.55 and 0.65 both give 6, ten times either being
    exactly 5.5 and 6.5 on doubles too).  Hence

    - in exact arithmetic the final score is that integer for every list;
    - on doubles it is that integer whenever ten times the trimmed mean is
      finite, and the call raises otherwise;
    - on at most 200 whole scores from 0 to 10 the doubles, with either
      summation, give the integer exact arithmetic gives, between 0 and 100.

    Ten scores of 7 have trim count 1, trimmed mean 7.0 and final score 70;
    [10, 0, 3, 3, 3, 3, 3, 3, 3, 4] has trimmed mean 3.125 and final score
    31. *)
Theorem C7_final_score_round :
  (∀ (A : Arith) (S : list (num A)),
     S ≠ [] → ordered_by_lt A S →
     ∃ low slice high : list (num A),
       low ++ slice ++ high ≡ₚ S
       ∧ StronglySorted (le A) (low ++ slice ++ high)
       ∧ length low = (length S / 10)%nat
       ∧ length high = (length S / 10)%nat
       ∧ slice ≠ []
       ∧ final_score A S
         = num_round A (num_mul A (mean A slice) (num_of_nat A 10)))
  ∧ (∀ A : Arith,
       final_score A [] = num_round A (num_mul A (num_zero A) (num_of_nat A 10)))
  ∧ (∀ x : Q,
       ∃ z, num_round exact x = Ok z
            ∧ (Qabs (inject_Z z - x) <= 1 # 2)%Q
            ∧ ((Qabs (inject_Z z - x) == 1 # 2)%Q → Z.even z = true))
  ∧ (∀ x : float,
       num_round binary64_compensated x = num_round binary64 x
       ∧ match f64_value x with
         | Some v =>
             ∃ z, num_round binary64 x = Ok z
                  ∧ (Qabs (inject_Z z - v) <= 1 # 2)%Q
                  ∧ ((Qabs (inject_Z z - v) == 1 # 2)%Q → Z.even z = true)
         | None =>
             num_round binary64 x
             = Raise (if f64_is_nan x then ValueError else OverflowError)
         end)
  ∧ (∀ l : list Z,
       Forall (fun z => (0 ≤ z ≤ max_score)%Z) l →
       (length l ≤ max_graders)%nat →
       ∃ z, final_score exact (inject_Z <$> l) = Ok z
            ∧ final_score binary64 (int_scores l) = Ok z
            ∧ final_score binary64_compensated (int_scores l) = Ok z
            ∧ (0 ≤ z ≤ 100)%Z)
  ∧ (final_score exact [11 # 20] = Ok 6%Z
     ∧ final_score exact [13 # 20] = Ok 6%Z
     ∧ PrimFloat.mul f64_0_55 (f64_of_nat 10) = 5.5%float
     ∧ final_score binary64 [f64_0_55] = Ok 6%Z
     ∧ PrimFloat.mul f64_0_65 (f64_of_nat 10) = 6.5%float
     ∧ final_score binary64 [f64_0_65] = Ok 6%Z)
  ∧ (py_int (10 * default_trim_percent) = 1%Z
     ∧ (∃ m, calculate_trimmed_mean exact (replicate 10 7%Q) default_trim_percent = Ok m
             ∧ (m == 7)%Q)
     ∧ final_score exact (replicate 10 7%Q) = Ok 70%Z
     ∧ calculate_trimmed_mean binary64 (replicate 10 7%float) default_trim_percent
       = Ok 7%float
     ∧ final_score binary64 (replicate 10 7%float) = Ok 70%Z
     ∧ final_score binary64_compensated (replicate 10 7%float) = Ok 70%Z)
  ∧ (final_score exact [10; 0; 3; 3; 3; 3; 3; 3; 3; 4]%Q = Ok 31%Z
     ∧ final_score binary64 (int_scores [10; 0; 3; 3; 3; 3; 3; 3; 3; 4]%Z) = Ok 31%Z).
Proof.
  split_and!.
  - apply final_score_parts.
  - done.
  - apply exact_round_rule.
  - intros x. split; [done|apply f64_round_rule].
  - apply final_score_whole_range.
  - reflexivity.
  - reflexivity.
  - vm_compute. reflexivity.
  - vm_compute. reflexivity.
  - vm_compute. reflexivity.
  - vm_compute. reflexivity.
  - reflexivity.
  - exists (56 # 8)%Q. split; reflexivity.
  - reflexivity.
  - vm_compute. reflexivity.
  - vm_compute. reflexivity.
  - vm_compute. reflexivity.
  - vm_compute. reflexivity.
  - vm_compute. reflexivity.
Qed.

Lemma C7_final_score_round_witness :
  Forall (fun z => (0 ≤ z ≤ max_score)%Z) [7; 9; 8; 10; 3; 6; 7; 7; 8; 2; 9]%Z
  ∧ (length [7; 9; 8; 10; 3; 6; 7; 7; 8; 2; 9]%Z ≤ max_graders)%nat
  ∧ ∃ z, final_score exact (inject_Z <$> [7; 9; 8; 10; 3; 6; 7; 7; 8; 2; 9]%Z) = Ok z
         ∧ final_score binary64 (int_scores [7; 9; 8; 10; 3; 6; 7; 7; 8; 2; 9]%Z) = Ok z
         ∧ final_score binary64_compensated
             (int_scores [7; 9; 8; 10; 3; 6; 7; 7; 8; 2; 9]%Z) = Ok z
         ∧ (0 ≤ z ≤ 100)%Z.
Proof.
  assert (Forall (fun z => (0 ≤ z ≤ max_score)%Z) [7; 9; 8; 10; 3; 6; 7; 7; 8; 2; 9]%Z)
    as H1 by (unfold max_score; repeat constructor; lia).
  assert (length [7; 9; 8; 10; 3; 6; 7; 7; 8; 2; 9]%Z ≤ max_graders)%nat as H2
    by (unfold max_graders; simpl; lia).
  split; [exact H1|]. split; [exact H2|].
  exact (proj1 (proj2 (proj2 (proj2 (proj2 C7_final_score_round))))
           [7; 9; 8; 10; 3; 6; 7; 7; 8; 2; 9]%Z H1 H2).
Defined.

End FinalScoreClaim.
